(** * Observable entity collection, model node transforms and label dirty
      flags: a shallow embedding and its verified properties.

    The development follows three source files:
    - [EntityCollection] (suspendable, batched, re-entrancy-safe change
      notification over a keyed collection of entities), with
      [ModelStatistics] (memory counters that count an asset once),
    - [ModelExperimentalNode] (local transform, instancing transform and
      pipeline stages of a scene-graph node),
    - [Label] (the two dirty flags of a label and the pending-update list
      of its collection, the setters that mark a label, and the
      reordering of right-to-left text).

    JavaScript objects are references into a store; the collection keeps
    references, so one entity reached through two staging arrays is one
    object.  Exceptions are outcomes that carry the store as it was when
    the exception was thrown. *)

From Stdlib Require Import ZArith Lia Ascii.
From stdpp Require Import gmap strings list.

Set Warnings "-notation-for-abbreviation".

(** Object references. *)
Definition ref := nat.

(* ================================================================== *)
(** * Collaborators of the collection *)
(* ================================================================== *)

Module JulianDate.

(** Modelled from the spec: Core/JulianDate.js is not part of the sources.
    A date is a point of a totally ordered time line, here an integer. *)
Definition t := Z.

(** Modelled from the spec: [JulianDate.lessThan], the strict order of the
    time line. *)
Definition lessThan (left right : t) : bool := (left <? right)%Z.

(** Modelled from the spec: [JulianDate.greaterThan], the converse
    order. *)
Definition greaterThan (left right : t) : bool := (right <? left)%Z.

(** Modelled from the spec: [JulianDate.equals], being the same date. *)
Definition equals (left right : t) : bool := (left =? right)%Z.

End JulianDate.

Module TimeInterval.

(** Modelled from the spec: Core/TimeInterval.js is not part of the
    sources; only the two end points are used. *)
Record t := mk { start : JulianDate.t; stop : JulianDate.t }.

End TimeInterval.

Module AssociativeArray.

(** Modelled from the spec: Core/AssociativeArray.js is not part of the
    sources.  It is a mapping with unique keys whose values are kept in
    insertion order.  The keys are entity ids and the values entity
    references. *)
Definition t := list (string * ref).

(** Modelled from the spec: the array a constructor call gives. *)
Definition empty : t := [].

(** Modelled from the spec: [get], the value filed under the key, if
    any. *)
Fixpoint get (key : string) (a : t) : option ref :=
  match a with
  | [] => None
  | (k, v) :: a' => if String.eqb key k then Some v else get key a'
  end.

(** Modelled from the spec: [contains], whether the key is present. *)
Definition contains (key : string) (a : t) : bool :=
  match get key a with Some _ => true | None => false end.

(** Modelled from the spec: the array without the key, the other entries
    in their order. *)
Fixpoint delete (key : string) (a : t) : t :=
  match a with
  | [] => []
  | (k, v) :: a' =>
      if String.eqb key k then delete key a' else (k, v) :: delete key a'
  end.

(** Modelled from the spec: [remove] deletes the key and answers whether
    it was present. *)
Definition remove (key : string) (a : t) : bool * t :=
  (contains key a, delete key a).

(** Modelled from the spec: [set] keeps the array untouched when the key
    already holds the very same object; otherwise the old value leaves the
    array and the new one is pushed at its end. *)
Definition set (key : string) (value : ref) (a : t) : t :=
  match get key a with
  | Some old => if Nat.eqb old value then a else delete key a ++ [(key, value)]
  | None => delete key a ++ [(key, value)]
  end.

(** Modelled from the spec: [removeAll] empties the array. *)
Definition removeAll (a : t) : t := [].

(** Modelled from the spec: [values], the values in insertion order. *)
Definition values (a : t) : list ref := map snd a.

(** Modelled from the spec: [length], the number of entries. *)
Definition length (a : t) : nat := List.length a.

End AssociativeArray.

Module Entity.

(** Modelled from the spec: DataSources/Entity.js is not part of the
    sources.  An entity has an immutable id, its own show flag, an
    optional availability interval, the back reference to the owning
    collection (here: whether it is bound to the collection under
    study) and a definition-changed event, of which only the number of
    registrations of the collection's handler matters. *)
Record t := mk {
  id : string;
  show : bool;
  availability : option TimeInterval.t;
  entityCollection : bool;
  definitionChanged : nat
}.

(** Modelled from the spec: the constructor options that matter here; a
    missing field is [None]. *)
Record ConstructorOptions := mkOptions {
  options_id : option string;
  options_show : option bool;
  options_availability : option TimeInterval.t
}.

(** The assignment [entity.entityCollection = this]. *)
Definition entityCollection_set (b : bool) (e : t) : t :=
  mk (id e) (show e) (availability e) b (definitionChanged e).

(** Modelled from the spec: [definitionChanged.addEventListener] with the
    collection's handler adds one registration (Core/Event.js is not part
    of the sources). *)
Definition addEventListener (e : t) : t :=
  mk (id e) (show e) (availability e) (entityCollection e)
     (S (definitionChanged e)).

(** Modelled from the spec: [definitionChanged.removeEventListener] with
    the collection's handler takes one registration away, if there is
    one. *)
Definition removeEventListener (e : t) : t :=
  mk (id e) (show e) (availability e) (entityCollection e)
     (Nat.pred (definitionChanged e)).

End Entity.

(** A reference that is looked up before anything was stored under it
    reads as an entity fresh from its constructor. *)
#[global] Instance Entity_inhabited : Inhabited Entity.t :=
  populate (Entity.mk "" true None false 0).

(* ================================================================== *)
(** * EntityCollection *)
(* ================================================================== *)

Module EntityCollection.

(** The fields set by the constructor ([_owner] and [_id] are never read
    by the functions below and are left out; [_collectionChanged] is the
    list of subscribers, a parameter of the section below). *)
Record t := mk {
  _entities : AssociativeArray.t;
  _addedEntities : AssociativeArray.t;
  _removedEntities : AssociativeArray.t;
  _changedEntities : AssociativeArray.t;
  _suspendCount : Z;
  _show : bool;
  _firing : bool;
  _refire : bool
}.

Definition new : t :=
  mk AssociativeArray.empty AssociativeArray.empty AssociativeArray.empty
     AssociativeArray.empty 0 true false false.

Definition set_entities (f : AssociativeArray.t -> AssociativeArray.t) (c : t) : t :=
  mk (f (_entities c)) (_addedEntities c) (_removedEntities c)
     (_changedEntities c) (_suspendCount c) (_show c) (_firing c) (_refire c).
Definition set_addedEntities (f : AssociativeArray.t -> AssociativeArray.t) (c : t) : t :=
  mk (_entities c) (f (_addedEntities c)) (_removedEntities c)
     (_changedEntities c) (_suspendCount c) (_show c) (_firing c) (_refire c).
Definition set_removedEntities (f : AssociativeArray.t -> AssociativeArray.t) (c : t) : t :=
  mk (_entities c) (_addedEntities c) (f (_removedEntities c))
     (_changedEntities c) (_suspendCount c) (_show c) (_firing c) (_refire c).
Definition set_changedEntities (f : AssociativeArray.t -> AssociativeArray.t) (c : t) : t :=
  mk (_entities c) (_addedEntities c) (_removedEntities c)
     (f (_changedEntities c)) (_suspendCount c) (_show c) (_firing c) (_refire c).
Definition set_suspendCount (n : Z) (c : t) : t :=
  mk (_entities c) (_addedEntities c) (_removedEntities c)
     (_changedEntities c) n (_show c) (_firing c) (_refire c).
Definition set_show (b : bool) (c : t) : t :=
  mk (_entities c) (_addedEntities c) (_removedEntities c)
     (_changedEntities c) (_suspendCount c) b (_firing c) (_refire c).
Definition set_firing (b : bool) (c : t) : t :=
  mk (_entities c) (_addedEntities c) (_removedEntities c)
     (_changedEntities c) (_suspendCount c) (_show c) b (_refire c).
Definition set_refire (b : bool) (c : t) : t :=
  mk (_entities c) (_addedEntities c) (_removedEntities c)
     (_changedEntities c) (_suspendCount c) (_show c) (_firing c) b.

(** The arguments of one collection-changed event. *)
Record Batch := mkBatch {
  added : list ref;
  removed : list ref;
  changed : list ref
}.

(** The arguments of a definition-changed event raised by the show setter:
    entity, property name, new value, old value. *)
Record Signal := mkSignal {
  signal_entity : ref;
  signal_name : string;
  signal_newValue : bool;
  signal_oldValue : bool
}.

(** The store: the entity objects, the collection, and the two traces of
    what has been raised so far (collection-changed events in order, and
    the definition-changed events raised by the collection itself). *)
Record State := mkState {
  heap : gmap ref Entity.t;
  this : t;
  raised : list Batch;
  signalled : list Signal
}.

Definition with_heap (f : gmap ref Entity.t -> gmap ref Entity.t) (w : State) : State :=
  mkState (f (heap w)) (this w) (raised w) (signalled w).
Definition with_this (f : t -> t) (w : State) : State :=
  mkState (heap w) (f (this w)) (raised w) (signalled w).
Definition with_raised (b : Batch) (w : State) : State :=
  mkState (heap w) (this w) (raised w ++ [b]) (signalled w).
Definition with_signalled (s : Signal) (w : State) : State :=
  mkState (heap w) (this w) (raised w) (signalled w ++ [s]).

Inductive Error := DeveloperError (message : string).

(** ** State and exception monad *)

Inductive Outcome (A : Type) : Type :=
| Return (a : A) (w : State)
| Throw (err : Error) (w : State)
| OutOfFuel.
Arguments Return {A} a w.
Arguments Throw {A} err w.
Arguments OutOfFuel {A}.

Definition M (A : Type) : Type := State -> Outcome A.

Definition ret {A} (a : A) : M A := fun w => Return a w.
Definition throw {A} (err : Error) : M A := fun w => Throw err w.
Definition bind {A B} (m : M A) (k : A -> M B) : M B :=
  fun w =>
    match m w with
    | Return a w' => k a w'
    | Throw err w' => Throw err w'
    | OutOfFuel => OutOfFuel
    end.
Definition get : M State := fun w => Return w w.
Definition update (f : t -> t) : M unit := fun w => Return tt (with_this f w).
Definition updateEntity (r : ref) (f : Entity.t -> Entity.t) : M unit :=
  fun w => Return tt (with_heap (fun h => <[r := f (h !!! r)]> h) w).
Definition record_raised (b : Batch) : M unit :=
  fun w => Return tt (with_raised b w).
Definition record_signalled (s : Signal) : M unit :=
  fun w => Return tt (with_signalled s w).

Notation "'let*' x ':=' m 'in' k" := (bind m (fun x => k))
  (at level 10, x name, m at level 100, k at level 200).
Notation "m '>>' k" := (bind m (fun _ => k))
  (at level 100, k at level 200, right associativity).

Definition when (b : bool) (m : M unit) : M unit := if b then m else ret tt.

Fixpoint repeatM (n : nat) (m : M unit) : M unit :=
  match n with
  | O => ret tt
  | S n' => m >> repeatM n' m
  end.

(** ** What a caller or a subscriber can ask of the collection *)

Inductive EntityArg :=
| Instance (entity : ref)
| Options (options : Entity.ConstructorOptions).

Inductive Call :=
| Call_add (entity : option EntityArg)
| Call_remove (entity : option ref)
| Call_removeById (id : option string)
| Call_removeAll
| Call_getOrCreateEntity (id : option string)
| Call_suspendEvents
| Call_resumeEvents
| Call_show_set (value : option bool)
| Call_definitionChanged (entity : ref).

(** A subscriber of the collection-changed event receives the collection
    (here: the whole store) and the three arrays, and answers with the
    calls it makes on the collection, in order. *)
Definition Subscriber := State -> Batch -> list Call.

Definition pending (c : t) : Batch :=
  mkBatch (AssociativeArray.values (_addedEntities c))
          (AssociativeArray.values (_removedEntities c))
          (AssociativeArray.values (_changedEntities c)).

Definition hasPending (c : t) : bool :=
  negb (Nat.eqb (AssociativeArray.length (_changedEntities c)) 0)
  || negb (Nat.eqb (AssociativeArray.length (_addedEntities c)) 0)
  || negb (Nat.eqb (AssociativeArray.length (_removedEntities c)) 0).

(** The three staging arrays. *)
Definition staging (c : t) :=
  (_addedEntities c, _removedEntities c, _changedEntities c).

(** Two computations agree while [_firing] is set: from any such store,
    unless the first runs out of fuel, the second has the same outcome,
    which keeps [_firing] set, raises no collection-changed event and
    does not clear [_refire]. *)
Definition Sim {A} (m1 m2 : M A) : Prop :=
  forall w, _firing (this w) = true ->
    match m1 w with
    | OutOfFuel => True
    | Return _ w' | Throw _ w' =>
        m2 w = m1 w /\
        _firing (this w') = true /\ raised w' = raised w /\
        (_refire (this w) = true -> _refire (this w') = true)
    end.

(** While [_firing] is set: a computation that, when it returns, has set
    [_refire]. *)
Definition Fires {A} (m : M A) : Prop :=
  forall w a w', _firing (this w) = true -> m w = Return a w' ->
    _refire (this w') = true.

(** While [_firing] is set: a computation that, when it returns without
    [_refire] set, has left the staging arrays as they were. *)
Definition Quiet {A} (m : M A) : Prop :=
  forall w a w', _firing (this w) = true -> m w = Return a w' ->
    _refire (this w') = false -> staging (this w') = staging (this w).

(** Modelled from the spec: the effective visibility of an entity of the
    collection is the conjunction of the collection's show flag and the
    entity's own (Entity.js is not part of the sources). *)
Definition isShowing (w : State) (entity : ref) : bool :=
  _show (this w) && Entity.show (heap w !!! entity).

(** What a computation leaves behind: the store of its outcome, and the
    collection-changed events raised so far in it. *)
Definition finalState {A} (o : Outcome A) : option State :=
  match o with
  | Return _ w | Throw _ w => Some w
  | OutOfFuel => None
  end.

Definition raisedBy {A} (o : Outcome A) : list Batch :=
  match o with
  | Return _ w | Throw _ w => raised w
  | OutOfFuel => []
  end.

(** The test of the second loop of the show setter, on the entity store
    [h], the new show flag [sh] and the old visibilities [old]. *)
Definition differs (h : gmap ref Entity.t) (sh : bool) (old : ref -> bool)
    (entity : ref) : bool :=
  negb (Bool.eqb (old entity) (sh && Entity.show (h !!! entity))).

(** The effect of the collection's definition-changed handler on the
    changed staging array, for one raise on [entity]: it stages the entity
    when it is registered on it and the entity is not staged as added. *)
Definition stage (h : gmap ref Entity.t) (addedEntities : AssociativeArray.t)
    (changedEntities : AssociativeArray.t) (entity : ref) : AssociativeArray.t :=
  let id := Entity.id (h !!! entity) in
  if Nat.ltb 0 (Entity.definitionChanged (h !!! entity))
     && negb (AssociativeArray.contains id addedEntities)
  then AssociativeArray.set id entity changedEntities
  else changedEntities.

(** The effective visibility an entity has once the collection's show
    flag is [value]. *)
Definition isShowingWith (w : State) (value : bool) (entity : ref) : bool :=
  value && Entity.show (heap w !!! entity).

(** The entities of the collection, in array order, whose effective
    visibility differs between the store and the same store with the show
    flag at [value]. *)
Definition affected (w : State) (value : bool) : list ref :=
  List.filter (differs (heap w) value (isShowing w))
              (AssociativeArray.values (_entities (this w))).

(** The definition-changed events of a toggle of the show flag to
    [value]. *)
Definition showSignals (w : State) (value : bool) : list Signal :=
  map (fun entity =>
         mkSignal entity "isShowing" (isShowingWith w value entity)
                  (isShowing w entity))
      (affected w value).

(** The changed staging array once the collection's handler has run for
    the given entities. *)
Definition stagedBy (w : State) (entities : list ref) : AssociativeArray.t :=
  fold_left (stage (heap w) (_addedEntities (this w))) entities
            (_changedEntities (this w)).

(** The store handed to the subscribers by a turn of the delivery loop:
    [_refire] reset, the staging arrays emptied, the batch recorded as
    raised. *)
Definition turnStart (w : State) : State :=
  with_raised (pending (this w))
    (with_this
       (fun c => set_changedEntities AssociativeArray.removeAll
                   (set_removedEntities AssociativeArray.removeAll
                      (set_addedEntities AssociativeArray.removeAll
                         (set_refire false c)))) w).

(** What the show setter leaves alone between its [suspendEvents] and its
    [resumeEvents]. *)
Definition Frame (w w' : State) : Prop :=
  heap w' = heap w /\ raised w' = raised w /\
  _entities (this w') = _entities (this w) /\
  _addedEntities (this w') = _addedEntities (this w) /\
  _removedEntities (this w') = _removedEntities (this w) /\
  _suspendCount (this w') = _suspendCount (this w) /\
  _show (this w') = _show (this w) /\
  _firing (this w') = _firing (this w).

(** An array that files every entity under its own id, all of them
    objects of the store. *)
Definition filed (h : gmap ref Entity.t) (a : AssociativeArray.t) : Prop :=
  forall k r, (k, r) ∈ a -> r ∈ dom h /\ Entity.id (h !!! r) = k.

(** The store of a collection as its interface keeps it: the entities and
    the added and removed staging arrays file entities under their ids,
    and what is staged as added is in the collection. *)
Definition WellFiled (w : State) : Prop :=
  filed (heap w) (_entities (this w)) /\
  filed (heap w) (_addedEntities (this w)) /\
  filed (heap w) (_removedEntities (this w)) /\
  (forall k r, (k, r) ∈ _addedEntities (this w) ->
     AssociativeArray.contains k (_entities (this w)) = true).

(** A computation that keeps the store well filed, whether it returns or
    throws. *)
Definition Keeps {A} (m : M A) : Prop :=
  forall w, WellFiled w ->
    match m w with
    | Return _ w' | Throw _ w' => WellFiled w'
    | OutOfFuel => True
    end.

(** No id is filed twice in the array. *)
Definition uniqueIds (a : AssociativeArray.t) : Prop := NoDup (a.*1).

(** A computation that keeps the ids of the collection unique, whether it
    returns or throws. *)
Definition KeepsUnique {A} (m : M A) : Prop :=
  forall w, uniqueIds (_entities (this w)) ->
    match m w with
    | Return _ w' | Throw _ w' => uniqueIds (_entities (this w'))
    | OutOfFuel => True
    end.

(** The store [add] hands to [fireChangedEvent] for an entity whose id is
    not in the collection. *)
Definition addStaged (entity : ref) (w : State) : State :=
  let id := Entity.id (heap w !!! entity) in
  mkState
    (<[entity := Entity.addEventListener
                   (Entity.entityCollection_set true (heap w !!! entity))]>
       (<[entity := Entity.entityCollection_set true (heap w !!! entity)]> (heap w)))
    (set_addedEntities
       (if AssociativeArray.contains id (_removedEntities (this w))
        then fun a => a else AssociativeArray.set id entity)
       (set_removedEntities (AssociativeArray.delete id)
          (set_entities (AssociativeArray.set id entity) (this w))))
    (raised w) (signalled w).

(** The store [removeById] hands to [fireChangedEvent] when [entity] is
    the one filed under [id]. *)
Definition removeStaged (id : string) (entity : ref) (w : State) : State :=
  mkState
    (<[entity := Entity.removeEventListener (heap w !!! entity)]> (heap w))
    (set_entities (AssociativeArray.delete id)
       (if AssociativeArray.contains id (_addedEntities (this w))
        then set_addedEntities (AssociativeArray.delete id) (this w)
        else set_changedEntities (AssociativeArray.delete id)
               (set_removedEntities (AssociativeArray.set id entity) (this w))))
    (raised w) (signalled w).

Section Collection.

(** Core/createGuid.js is not part of the sources: the guid given to the
    object allocated at a reference is a parameter. *)
Variable createGuid : ref -> string.

(** The listeners registered on [collectionChanged]. *)
Variable subscribers : list Subscriber.

(** Modelled from the spec: [new Entity(options)] makes a new object with
    the id of the options, or a new guid, shown unless the options say
    otherwise, bound to no collection and with no listener. *)
Definition new_Entity (options : Entity.ConstructorOptions) : M ref :=
  fun w =>
    let r := fresh (dom (heap w)) in
    let e := Entity.mk
               (default (createGuid r) (Entity.options_id options))
               (default true (Entity.options_show options))
               (Entity.options_availability options)
               false 0 in
    Return r (with_heap (fun h => <[r := e]> h) w).

Definition suspendEvents : M unit :=
  update (fun c => set_suspendCount (_suspendCount c + 1) c).

Definition _onEntityDefinitionChanged (fire : M unit) (entity : ref) : M unit :=
  let* w := get in
  let id := Entity.id (heap w !!! entity) in
  when (negb (AssociativeArray.contains id (_addedEntities (this w))))
       (update (set_changedEntities (AssociativeArray.set id entity))) >>
  fire.

(** Modelled from the spec: raising an entity's definition-changed event
    runs the collection's handler once per registration (Core/Event.js is
    not part of the sources). *)
Definition definitionChanged_raiseEvent (fire : M unit) (entity : ref) : M unit :=
  let* w := get in
  repeatM (Entity.definitionChanged (heap w !!! entity))
          (_onEntityDefinitionChanged fire entity).

Definition resumeEvents (fire : M unit) : M unit :=
  let* w := get in
  if (_suspendCount (this w) =? 0)%Z then
    throw (DeveloperError "resumeEvents can not be called before suspendEvents.")
  else
    update (fun c => set_suspendCount (_suspendCount c - 1) c) >>
    fire.

(** Second loop of the show setter; [entities] and [oldShows] are walked
    together. *)
Fixpoint show_set_loop (fire : M unit) (entities : list ref) (oldShows : list bool)
  : M unit :=
  match entities, oldShows with
  | entity :: entities', oldShow :: oldShows' =>
      let* w := get in
      when (negb (Bool.eqb oldShow (isShowing w entity)))
           (record_signalled
              (mkSignal entity "isShowing" (isShowing w entity) oldShow) >>
            definitionChanged_raiseEvent fire entity) >>
      show_set_loop fire entities' oldShows'
  | _, _ => ret tt
  end.

Definition show_set (fire : M unit) (value : option bool) : M unit :=
  match value with
  | None => throw (DeveloperError "value is required.")
  | Some value =>
      let* w := get in
      if Bool.eqb value (_show (this w)) then ret tt
      else
        suspendEvents >>
        let* w1 := get in
        let entities := AssociativeArray.values (_entities (this w1)) in
        let oldShows := map (isShowing w1) entities in
        update (set_show value) >>
        show_set_loop fire entities oldShows >>
        resumeEvents fire
  end.

Definition add (fire : M unit) (entity : option EntityArg) : M ref :=
  match entity with
  | None => throw (DeveloperError "entity is required.")
  | Some arg =>
      let* entity :=
        match arg with
        | Instance r => ret r
        | Options options => new_Entity options
        end in
      let* w := get in
      let id := Entity.id (heap w !!! entity) in
      if AssociativeArray.contains id (_entities (this w)) then
        throw (DeveloperError
                 ("An entity with id " +:+ id +:+ " already exists in this collection."))
      else
        updateEntity entity (Entity.entityCollection_set true) >>
        update (set_entities (AssociativeArray.set id entity)) >>
        let* w1 := get in
        update (set_removedEntities (fun a => snd (AssociativeArray.remove id a))) >>
        when (negb (fst (AssociativeArray.remove id (_removedEntities (this w1)))))
             (update (set_addedEntities (AssociativeArray.set id entity))) >>
        updateEntity entity Entity.addEventListener >>
        fire >>
        ret entity
  end.

Definition removeById (fire : M unit) (id : option string) : M bool :=
  match id with
  | None => ret false
  | Some id =>
      let* w := get in
      let entity := AssociativeArray.get id (_entities (this w)) in
      update (set_entities (fun a => snd (AssociativeArray.remove id a))) >>
      if negb (fst (AssociativeArray.remove id (_entities (this w)))) then ret false
      else
        match entity with
        | None => ret false
        | Some entity =>
            let* w1 := get in
            update (set_addedEntities (fun a => snd (AssociativeArray.remove id a))) >>
            when (negb (fst (AssociativeArray.remove id (_addedEntities (this w1)))))
                 (update (set_removedEntities (AssociativeArray.set id entity)) >>
                  update (set_changedEntities
                            (fun a => snd (AssociativeArray.remove id a)))) >>
            update (set_entities (fun a => snd (AssociativeArray.remove id a))) >>
            updateEntity entity Entity.removeEventListener >>
            fire >>
            ret true
        end
  end.

Definition remove (fire : M unit) (entity : option ref) : M bool :=
  match entity with
  | None => ret false
  | Some entity =>
      let* w := get in
      removeById fire (Some (Entity.id (heap w !!! entity)))
  end.

Definition contains (entity : ref) : M bool :=
  let* w := get in
  ret (match AssociativeArray.get (Entity.id (heap w !!! entity)) (_entities (this w)) with
       | Some r => Nat.eqb r entity
       | None => false
       end).

Fixpoint removeAll_loop (array : list ref) : M unit :=
  match array with
  | [] => ret tt
  | existingItem :: array' =>
      let* w := get in
      let existingItemId := Entity.id (heap w !!! existingItem) in
      when (negb (AssociativeArray.contains existingItemId (_addedEntities (this w))))
           (updateEntity existingItem Entity.removeEventListener >>
            update (set_removedEntities
                      (AssociativeArray.set existingItemId existingItem))) >>
      removeAll_loop array'
  end.

Definition removeAll (fire : M unit) : M unit :=
  let* w := get in
  removeAll_loop (AssociativeArray.values (_entities (this w))) >>
  update (set_entities AssociativeArray.removeAll) >>
  update (set_addedEntities AssociativeArray.removeAll) >>
  update (set_changedEntities AssociativeArray.removeAll) >>
  fire.

Definition getById (id : string) : M (option ref) :=
  let* w := get in ret (AssociativeArray.get id (_entities (this w))).

Definition getOrCreateEntity (fire : M unit) (id : option string) : M ref :=
  match id with
  | None => throw (DeveloperError "id is required.")
  | Some id =>
      let* w := get in
      match AssociativeArray.get id (_entities (this w)) with
      | Some entity => ret entity
      | None =>
          let* entity := new_Entity (Entity.mkOptions (Some id) None None) in
          add fire (Some (Instance entity)) >>
          ret entity
      end
  end.

Definition perform (fire : M unit) (c : Call) : M unit :=
  match c with
  | Call_add entity => add fire entity >> ret tt
  | Call_remove entity => remove fire entity >> ret tt
  | Call_removeById id => removeById fire id >> ret tt
  | Call_removeAll => removeAll fire
  | Call_getOrCreateEntity id => getOrCreateEntity fire id >> ret tt
  | Call_suspendEvents => suspendEvents
  | Call_resumeEvents => resumeEvents fire
  | Call_show_set value => show_set fire value
  | Call_definitionChanged entity => definitionChanged_raiseEvent fire entity
  end.

Fixpoint performAll (fire : M unit) (calls : list Call) : M unit :=
  match calls with
  | [] => ret tt
  | c :: calls' => perform fire c >> performAll fire calls'
  end.

Fixpoint notify (fire : M unit) (b : Batch) (listeners : list Subscriber) : M unit :=
  match listeners with
  | [] => ret tt
  | listener :: listeners' =>
      let* w := get in
      performAll fire (listener w b) >>
      notify fire b listeners'
  end.

(** [collection._collectionChanged.raiseEvent(collection, addedArray,
    removedArray, changedArray)]. *)
Definition collectionChanged_raiseEvent (fire : M unit) (b : Batch) : M unit :=
  record_raised b >>
  notify fire b subscribers.

(** One turn of the do-while loop of [fireChangedEvent], up to the test of
    [_refire]. *)
Definition pass (fire : M unit) : M unit :=
  update (set_refire false) >>
  let* w := get in
  let b := pending (this w) in
  update (set_addedEntities AssociativeArray.removeAll) >>
  update (set_removedEntities AssociativeArray.removeAll) >>
  update (set_changedEntities AssociativeArray.removeAll) >>
  collectionChanged_raiseEvent fire b.

(** [fireChangedEvent] and its do-while loop.  A subscriber that changes
    the collection at every event keeps the loop going for ever: the
    recursion is bounded by [fuel], one unit per call and per turn. *)
Fixpoint fireChangedEvent (fuel : nat) : M unit :=
  match fuel with
  | O => fun _ => OutOfFuel
  | S n =>
      let* w := get in
      if _firing (this w) then update (set_refire true)
      else if (_suspendCount (this w) =? 0)%Z then
        if hasPending (this w) then
          update (set_firing true) >>
          doWhile n >>
          update (set_firing false)
        else ret tt
      else ret tt
  end
with doWhile (fuel : nat) : M unit :=
  match fuel with
  | O => fun _ => OutOfFuel
  | S n =>
      pass (fireChangedEvent n) >>
      let* w := get in
      if _refire (this w) then doWhile n else ret tt
  end.

(** The turns of one delivery, as a chain: each turn raises the batch
    that was pending when it started; the chain goes on from the store
    the subscribers left while [_refire] is set, and ends at the first
    turn after which it is not.  Calls made by subscribers reach
    [fireChangedEvent] while [_firing] is set, where one unit of fuel is
    all it needs. *)
Inductive Passes : State -> list Batch -> State -> Prop :=
| Passes_last w w' :
    pass (fireChangedEvent 1) w = Return tt w' ->
    _refire (this w') = false ->
    Passes w [pending (this w)] w'
| Passes_more w w1 bs w' :
    pass (fireChangedEvent 1) w = Return tt w1 ->
    _refire (this w1) = true ->
    Passes w1 bs w' ->
    Passes w (pending (this w) :: bs) w'.

(** Subscribers that make no call when handed batch [b]. *)
Definition idleOn (b : Batch) : Prop :=
  Forall (fun s : Subscriber => forall w, s w b = []) subscribers.

End Collection.

Section Availability.

(** Core/Iso8601.js is not part of the sources: its two sentinel dates are
    parameters. *)
Variables MINIMUM_VALUE MAXIMUM_VALUE : JulianDate.t.

(** The loop of [computeAvailability] over the entities array, threading
    [startTime] and [stopTime]. *)
Fixpoint computeAvailability_loop (w : State) (entities : list ref)
    (startTime stopTime : JulianDate.t) : JulianDate.t * JulianDate.t :=
  match entities with
  | [] => (startTime, stopTime)
  | entity :: entities' =>
      match Entity.availability (heap w !!! entity) with
      | Some availability =>
          let start := TimeInterval.start availability in
          let stop := TimeInterval.stop availability in
          let startTime' :=
            if JulianDate.lessThan start startTime
               && negb (JulianDate.equals start MINIMUM_VALUE)
            then start else startTime in
          let stopTime' :=
            if JulianDate.greaterThan stop stopTime
               && negb (JulianDate.equals stop MAXIMUM_VALUE)
            then stop else stopTime in
          computeAvailability_loop w entities' startTime' stopTime'
      | None => computeAvailability_loop w entities' startTime stopTime
      end
  end.

Definition computeAvailability (w : State) : TimeInterval.t :=
  let '(startTime, stopTime) :=
    computeAvailability_loop w (AssociativeArray.values (_entities (this w)))
                             MAXIMUM_VALUE MINIMUM_VALUE in
  let startTime :=
    if JulianDate.equals MAXIMUM_VALUE startTime then MINIMUM_VALUE else startTime in
  let stopTime :=
    if JulianDate.equals MINIMUM_VALUE stopTime then MAXIMUM_VALUE else stopTime in
  TimeInterval.mk startTime stopTime.

(** The availability intervals of the entities of the collection, in
    array order (an entity without availability contributes none). *)
Definition availabilities (w : State) (entities : list ref) : list TimeInterval.t :=
  omap (fun entity => Entity.availability (heap w !!! entity)) entities.

(** The starts that restrict the aggregate start: those that are not the
    unbounded-past sentinel; and the stops that restrict the aggregate
    stop: those that are not the unbounded-future sentinel. *)
Definition restrictingStarts (w : State) (entities : list ref) : list JulianDate.t :=
  List.filter (fun start => negb (JulianDate.equals start MINIMUM_VALUE))
              (map TimeInterval.start (availabilities w entities)).
Definition restrictingStops (w : State) (entities : list ref) : list JulianDate.t :=
  List.filter (fun stop => negb (JulianDate.equals stop MAXIMUM_VALUE))
              (map TimeInterval.stop (availabilities w entities)).

End Availability.

End EntityCollection.

(* ================================================================== *)
(** * ModelExperimentalNode *)
(* ================================================================== *)

Module ModelExperimentalNode.

Inductive Stage := InstancingPipelineStage | ModelMatrixUpdateStage.

Inductive Error := DeveloperError (message : string).

Section Node.

(** Core/Matrix4.js and ModelExperimentalUtility.js are not part of the
    sources: the matrix type, its component-wise equality, its product and
    the axis correction are parameters.  [Matrix4.clone] copies the
    components, so on values it is the identity. *)
Context {Matrix4 : Type}.
Variable Matrix4_equals : Matrix4 -> Matrix4 -> bool.
Variable Matrix4_multiply : Matrix4 -> Matrix4 -> Matrix4.
Context {Axis : Type}.
Variable correctModelMatrix : Matrix4 -> Axis -> Axis -> Matrix4.

(** The per-instance data of [ModelComponents.Node], opaque here. *)
Context {Instances : Type}.

Definition Matrix4_clone (m : Matrix4) : Matrix4 := m.

(** [ModelComponents.Node], of which only [instances] is read. *)
Record Components_Node := mkComponentsNode {
  instances : option Instances
}.

(** [sceneGraph.components]. *)
Record Components := mkComponents {
  upAxis : Axis;
  forwardAxis : Axis
}.

(** The part of the scene graph a node reads through [_sceneGraph]; the
    table [runtimeNodes] of the graph is an argument of [getChild], since
    it holds the nodes themselves. *)
Record SceneGraph := mkSceneGraph {
  components : Components
}.

Record t := mk {
  _sceneGraph : SceneGraph;
  _children : list nat;
  _node : Components_Node;
  _transform : Matrix4;
  _transformToRoot : Matrix4;
  _originalTransform : Matrix4;
  _instancingNodeTransform : option Matrix4;
  _transformDirty : bool;
  pipelineStages : list Stage;
  updateStages : list Stage
}.

Record ConstructorOptions := mkOptions {
  options_node : Components_Node;
  options_transform : Matrix4;
  options_transformToRoot : Matrix4;
  options_sceneGraph : SceneGraph;
  options_children : list nat
}.

Definition configurePipeline (n : t) : t :=
  let pipelineStages := [] in
  let updateStages := [] in
  let pipelineStages :=
    match instances (_node n) with
    | Some _ => pipelineStages ++ [InstancingPipelineStage]
    | None => pipelineStages
    end in
  let updateStages := updateStages ++ [ModelMatrixUpdateStage] in
  mk (_sceneGraph n) (_children n) (_node n) (_transform n) (_transformToRoot n)
     (_originalTransform n) (_instancingNodeTransform n) (_transformDirty n)
     pipelineStages updateStages.

(** The constructor. *)
Definition new (options : ConstructorOptions) : t :=
  let sceneGraph := options_sceneGraph options in
  let transform := options_transform options in
  let transformToRoot := options_transformToRoot options in
  let node := options_node options in
  let components := components sceneGraph in
  let instancingNodeTransform :=
    match instances node with
    | Some _ =>
        let instancingNodeTransform := Matrix4_clone transformToRoot in
        let instancingNodeTransform :=
          Matrix4_multiply instancingNodeTransform transform in
        Some (correctModelMatrix instancingNodeTransform
                (upAxis components) (forwardAxis components))
    | None => None
    end in
  configurePipeline
    (mk sceneGraph (options_children options) node
        (Matrix4_clone transform) (Matrix4_clone transformToRoot)
        (Matrix4_clone transform) instancingNodeTransform false [] []).

(** The setter of [transform]. *)
Definition transform_set (value : Matrix4) (n : t) : t :=
  if Matrix4_equals (_transform n) value then n
  else
    let transform := Matrix4_clone value in
    let instancing :=
      match instances (_node n) with
      | Some _ =>
          let instancingNodeTransform :=
            Matrix4_multiply (_transformToRoot n) transform in
          Some (correctModelMatrix instancingNodeTransform
                  (upAxis (components (_sceneGraph n)))
                  (forwardAxis (components (_sceneGraph n))))
      | None => _instancingNodeTransform n
      end in
    mk (_sceneGraph n) (_children n) (_node n) transform (_transformToRoot n)
       (_originalTransform n) instancing true
       (pipelineStages n) (updateStages n).

(** [getChild]; [runtimeNodes] is the node table of the scene graph. *)
Definition getChild (runtimeNodes : list t) (n : t) (index : Z) : Error + option t :=
  if ((index <? 0) || (Z.of_nat (length (_children n)) <=? index))%Z then
    inl (DeveloperError
           "index must be greater than or equal to 0 and less than the number of children.")
  else
    inr (match _children n !! Z.to_nat index with
         | Some child => runtimeNodes !! child
         | None => None
         end).

(** The instancing transform a node is meant to carry: none without
    instances, else the axis-corrected product of [_transformToRoot] and
    [_transform]. *)
Definition instancingOf (n : t) : option Matrix4 :=
  match instances (_node n) with
  | Some _ =>
      Some (correctModelMatrix
              (Matrix4_multiply (_transformToRoot n) (_transform n))
              (upAxis (components (_sceneGraph n)))
              (forwardAxis (components (_sceneGraph n))))
  | None => None
  end.

(** The node after a sequence of assignments to [transform]. *)
Definition assignAll (values : list Matrix4) (n : t) : t :=
  fold_left (fun n value => transform_set value n) values n.

End Node.

End ModelExperimentalNode.

(* ================================================================== *)
(** * Label *)
(* ================================================================== *)

Module Label.

(** The two dirty flags of a label (its other fields play no part in the
    two functions below). *)
Record t := mk {
  _rebindAllGlyphs : bool;
  _repositionAllGlyphs : bool
}.

(** The labels and the pending-update list of their collection
    ([label._labelCollection._labelsToUpdate]). *)
Record State := mkState {
  labels : gmap ref t;
  _labelsToUpdate : list ref
}.

(** The constructor sets both flags. *)
#[global] Instance inhabited : Inhabited t := populate (mk true true).

Definition push (label : ref) (w : State) : State :=
  mkState (labels w) (_labelsToUpdate w ++ [label]).

Definition rebindAllGlyphs (label : ref) (w : State) : State :=
  let l := labels w !!! label in
  let w1 :=
    if negb (_rebindAllGlyphs l) && negb (_repositionAllGlyphs l)
    then push label w else w in
  mkState (<[label := mk true (_repositionAllGlyphs l)]> (labels w1))
          (_labelsToUpdate w1).

Definition repositionAllGlyphs (label : ref) (w : State) : State :=
  let l := labels w !!! label in
  let w1 :=
    if negb (_rebindAllGlyphs l) && negb (_repositionAllGlyphs l)
    then push label w else w in
  mkState (<[label := mk (_rebindAllGlyphs l) true]> (labels w1))
          (_labelsToUpdate w1).

(** A dirty-marking call. *)
Inductive Mark :=
| Rebind (label : ref)
| Reposition (label : ref).

Definition mark (m : Mark) (w : State) : State :=
  match m with
  | Rebind label => rebindAllGlyphs label w
  | Reposition label => repositionAllGlyphs label w
  end.

Definition markAll (ms : list Mark) (w : State) : State :=
  fold_left (fun w m => mark m w) ms w.

Definition isDirty (w : State) (label : ref) : bool :=
  _rebindAllGlyphs (labels w !!! label) || _repositionAllGlyphs (labels w !!! label).

(** Every label of the pending-update list is dirty, and none occurs
    twice. *)
Definition pendingOnce (w : State) : Prop :=
  NoDup (_labelsToUpdate w) /\
  forall label, label ∈ _labelsToUpdate w -> isDirty w label = true.

End Label.

(* ================================================================== *)
(** * ModelStatistics *)
(* ================================================================== *)

Module ModelStatistics.

(** What a call on an own-property set can throw. *)
Inductive Error := TypeError.

(** The object [{}] used as a set of ids: the keys it has as own
    properties.  Two keys are not like the others.  An assignment to
    [__proto__] reaches the setter of [Object.prototype], which ignores a
    value that is not an object, and creates no own property.  An own
    property [hasOwnProperty] hides the method of [Object.prototype]: its
    value is [true], and calling it throws a TypeError. *)
Definition IdSet := gset string.

Definition hasOwnProperty (o : IdSet) (key : string) : Error + bool :=
  if bool_decide ("hasOwnProperty" ∈ o) then inl TypeError
  else inr (bool_decide (key ∈ o)).

(** [o[key] = true]. *)
Definition assign (key : string) (o : IdSet) : IdSet :=
  if String.eqb key "__proto__" then o else {[ key ]} ∪ o.

Section Statistics.

(** Numbers are IEEE doubles; the statistics only add and multiply them,
    and no law of arithmetic is used: the number type, the constants 0, 1
    and 2, the sum and the product are parameters. *)
Context {Number : Type}.
Variables zero one two : Number.
Variables plus times : Number -> Number -> Number.

(** Renderer/Buffer.js, Renderer/Texture.js and Scene/BatchTexture.js are
    not part of the sources: of a buffer and a texture the functions read
    [_id] and [sizeInBytes], of a batch texture [_id] and [byteLength]. *)
Record Buffer := mkBuffer {
  buffer_id : string;
  buffer_sizeInBytes : Number
}.

Record Texture := mkTexture {
  texture_id : string;
  texture_sizeInBytes : Number
}.

Record BatchTexture := mkBatchTexture {
  batchTexture_id : string;
  byteLength : Number
}.

Record t := mk {
  pointsLength : Number;
  trianglesLength : Number;
  geometryByteLength : Number;
  texturesByteLength : Number;
  propertyTablesByteLength : Number;
  _bufferIdSet : IdSet;
  _textureIdSet : IdSet;
  _batchTextureIdMap : AssociativeArray.t
}.

(** The constructor. *)
Definition new : t :=
  mk zero zero zero zero zero ∅ ∅ AssociativeArray.empty.

(** The getter [batchTexturesByteLength]; the map holds references, and
    [batchTextures] is the store they are read from at the time of the
    call. *)
Definition batchTexturesByteLength (batchTextures : ref -> BatchTexture) (s : t) : Number :=
  fold_left (fun memory value => plus memory (byteLength (batchTextures value)))
            (AssociativeArray.values (_batchTextureIdMap s)) zero.

Definition clear (s : t) : t :=
  mk zero zero zero zero zero ∅ ∅ (AssociativeArray.removeAll (_batchTextureIdMap s)).

Definition addBuffer (buffer : Buffer) (hasCpuCopy : bool) (s : t) : Error + t :=
  match hasOwnProperty (_bufferIdSet s) (buffer_id buffer) with
  | inl e => inl e
  | inr counted =>
      let geometryByteLength' :=
        if negb counted then
          let copies := if hasCpuCopy then two else one in
          plus (geometryByteLength s) (times (buffer_sizeInBytes buffer) copies)
        else geometryByteLength s in
      inr (mk (pointsLength s) (trianglesLength s) geometryByteLength'
              (texturesByteLength s) (propertyTablesByteLength s)
              (assign (buffer_id buffer) (_bufferIdSet s))
              (_textureIdSet s) (_batchTextureIdMap s))
  end.

Definition addTexture (texture : Texture) (s : t) : Error + t :=
  match hasOwnProperty (_textureIdSet s) (texture_id texture) with
  | inl e => inl e
  | inr counted =>
      let texturesByteLength' :=
        if negb counted
        then plus (texturesByteLength s) (texture_sizeInBytes texture)
        else texturesByteLength s in
      inr (mk (pointsLength s) (trianglesLength s) (geometryByteLength s)
              texturesByteLength' (propertyTablesByteLength s)
              (_bufferIdSet s)
              (assign (texture_id texture) (_textureIdSet s))
              (_batchTextureIdMap s))
  end.

Definition addBatchTexture (batchTextures : ref -> BatchTexture) (batchTexture : ref)
    (s : t) : t :=
  let id := batchTexture_id (batchTextures batchTexture) in
  mk (pointsLength s) (trianglesLength s) (geometryByteLength s)
     (texturesByteLength s) (propertyTablesByteLength s)
     (_bufferIdSet s) (_textureIdSet s)
     (if negb (AssociativeArray.contains id (_batchTextureIdMap s))
      then AssociativeArray.set id batchTexture (_batchTextureIdMap s)
      else _batchTextureIdMap s).

(** A sequence of calls of [addBuffer], of [addTexture] and of
    [addBatchTexture], stopped by the first exception. *)
Fixpoint addBuffers (buffers : list (Buffer * bool)) (s : t) : Error + t :=
  match buffers with
  | [] => inr s
  | (buffer, hasCpuCopy) :: buffers' =>
      match addBuffer buffer hasCpuCopy s with
      | inl e => inl e
      | inr s' => addBuffers buffers' s'
      end
  end.

Fixpoint addTextures (textures : list Texture) (s : t) : Error + t :=
  match textures with
  | [] => inr s
  | texture :: textures' =>
      match addTexture texture s with
      | inl e => inl e
      | inr s' => addTextures textures' s'
      end
  end.

Definition addBatchTextures (batchTextures : ref -> BatchTexture)
    (added : list ref) (s : t) : t :=
  fold_left (fun s batchTexture => addBatchTexture batchTextures batchTexture s) added s.

(** What one buffer adds to [geometryByteLength] when it is counted. *)
Definition bufferCost (b : Buffer * bool) : Number :=
  times (buffer_sizeInBytes b.1) (if b.2 then two else one).

End Statistics.

(** An id that is an ordinary property name of [{}]. *)
Definition ordinary (id : string) : Prop :=
  id <> "__proto__" /\ id <> "hasOwnProperty".

End ModelStatistics.

(* ================================================================== *)
(** * Label: right-to-left text *)
(* ================================================================== *)

Module LabelText.

(** A JavaScript string is a sequence of UTF-16 code units; [charAt],
    [split('')], [slice] and [length] work on code units, and so do the
    character classes of a regular expression without the [u] flag. *)
Definition codeUnit := N.
Definition jsString := list codeUnit.

Definition code (c : ascii) : codeUnit := N_of_ascii c.
Arguments code c%_char.

Inductive textTypes := LTR | RTL | WEAK | BRACKETS.

Definition textTypes_eqb (a b : textTypes) : bool :=
  match a, b with
  | LTR, LTR | RTL, RTL | WEAK, WEAK | BRACKETS, BRACKETS => true
  | _, _ => false
  end.

(** An entry [{Type : ..., Word : ...}] of [parsedText]; a [Type] that is
    still the initial [''] of [currentType] is [None]. *)
Record Part := mkPart {
  Type_ : option textTypes;
  Word : jsString
}.

Inductive Error := TypeError.

Definition inRange (first last character : codeUnit) : bool :=
  ((first <=? character) && (character <=? last))%N.

Arguments inRange (first last character)%_N.

(** [/[a-zA-Z0-9]/.test(character)]. *)
Definition ltrChars (character : codeUnit) : bool :=
  inRange (code "a") (code "z") character
  || inRange (code "A") (code "Z") character
  || inRange (code "0") (code "9") character.

(** [/[()[\]{}<>]/.test(character)]. *)
Definition bracketsChars (character : codeUnit) : bool :=
  bool_decide (character ∈ [code "("; code ")"; code "["; code "]";
                            code "{"; code "}"; code "<"; code ">"]).

(** The regular expression built from the Hebrew and Arabic blocks. *)
Definition rtlChars (character : codeUnit) : bool :=
  inRange 0x05D0 0x05EA character
  || inRange 0x0600 0x06FF character
  || inRange 0x0750 0x077F character
  || inRange 0x08A0 0x08FF character.

Section Convert.

(** The regular expression [convertTextToTypes] is handed. *)
Variable rtl : codeUnit -> bool.

Definition typeOf (character : codeUnit) : textTypes :=
  if rtl character then RTL
  else if ltrChars character then LTR
  else if bracketsChars character then BRACKETS
  else WEAK.

(** The loop of [convertTextToTypes] from [textIndex] on, over the rest
    of the text. *)
Fixpoint convertTextToTypes_loop (text : jsString) (textIndex : nat)
    (parsedText : list Part) (word : jsString) (lastType : textTypes)
    (currentType : option textTypes) : list Part :=
  match text with
  | [] => parsedText ++ [mkPart currentType word]
  | character :: text' =>
      let currentType := typeOf character in
      let lastType := if Nat.eqb textIndex 0 then currentType else lastType in
      if textTypes_eqb lastType currentType && negb (textTypes_eqb currentType BRACKETS)
      then
        convertTextToTypes_loop text' (S textIndex) parsedText (word ++ [character])
                                lastType (Some currentType)
      else
        let parsedText :=
          match word with
          | [] => parsedText
          | _ => parsedText ++ [mkPart (Some lastType) word]
          end in
        convertTextToTypes_loop text' (S textIndex) parsedText [character]
                                currentType (Some currentType)
  end.

Definition convertTextToTypes (text : jsString) : list Part :=
  convertTextToTypes_loop text 0 [] [] LTR None.

End Convert.

Definition reverseWord (word : jsString) : jsString := rev word.

Definition spliceWord (result : jsString) (pointer : nat) (word : jsString) : jsString :=
  take pointer result ++ word ++ drop pointer result.

(** The [switch] of [reverseBrackets]; no case matches a string that is
    not one of the eight brackets, and the function returns [undefined]. *)
Definition reverseBrackets (bracket : jsString) : option jsString :=
  match bracket with
  | [c] =>
      if (c =? code "(")%N then Some [code ")"]
      else if (c =? code ")")%N then Some [code "("]
      else if (c =? code "[")%N then Some [code "]"]
      else if (c =? code "]")%N then Some [code "["]
      else if (c =? code "{")%N then Some [code "}"]
      else if (c =? code "}")%N then Some [code "{"]
      else if (c =? code "<")%N then Some [code ">"]
      else if (c =? code ">")%N then Some [code "<"]
      else None
  | _ => None
  end.

(** A value that may be [undefined], as string concatenation reads it. *)
Definition toString (v : option jsString) : jsString :=
  match v with
  | Some s => s
  | None => map code (String.list_ascii_of_string "undefined")
  end.

(** [value.split(separator)] for a one-unit separator. *)
Fixpoint split (separator : codeUnit) (value : jsString) : list jsString :=
  match value with
  | [] => [[]]
  | c :: value' =>
      if (c =? separator)%N then [] :: split separator value'
      else
        match split separator value' with
        | first :: others => (c :: first) :: others
        | [] => [[c]]
        end
  end.

(** [parsedText[index].Type]; reading [Type] of [undefined] throws. *)
Definition typeAt (parsedText : list Part) (index : Z) : Error + option textTypes :=
  if (index <? 0)%Z then inl TypeError
  else
    match parsedText !! Z.to_nat index with
    | Some subText => inr (Type_ subText)
    | None => inl TypeError
    end.

Definition isType (t : option textTypes) (expected : textTypes) : bool :=
  match t with
  | Some t => textTypes_eqb t expected
  | None => false
  end.

(** The body of the loop over [parsedText] in [reverseRtl]: from [line]
    and [splicePointer] to their next values. *)
Definition reverseRtl_word (rtlDir : bool) (parsedText : list Part) (wordIndex : nat)
    (subText : Part) (line : jsString) (splicePointer : nat)
  : Error + (jsString * nat) :=
  let reverse :=
    if isType (Type_ subText) BRACKETS then reverseBrackets (Word subText)
    else Some (Word subText) in
  if rtlDir then
    if isType (Type_ subText) RTL then
      inr (reverseWord (Word subText) ++ line, 0)
    else if isType (Type_ subText) LTR then
      inr (spliceWord line splicePointer (Word subText),
           splicePointer + length (Word subText))
    else if isType (Type_ subText) WEAK || isType (Type_ subText) BRACKETS then
      match typeAt parsedText (Z.of_nat wordIndex - 1) with
      | inl e => inl e
      | inr previous =>
          if isType (Type_ subText) WEAK && isType previous BRACKETS then
            inr (reverseWord (Word subText) ++ line, splicePointer)
          else if isType previous RTL then
            inr (toString reverse ++ line, 0)
          else if (Z.of_nat wordIndex + 1 <? Z.of_nat (length parsedText))%Z then
            match typeAt parsedText (Z.of_nat wordIndex + 1) with
            | inl e => inl e
            | inr next =>
                if isType next RTL then inr (toString reverse ++ line, 0)
                else inr (spliceWord line splicePointer (Word subText),
                          splicePointer + length (Word subText))
            end
          else inr (spliceWord line 0 (toString reverse), splicePointer)
      end
    else inr (line, splicePointer)
  else if isType (Type_ subText) RTL then
    inr (spliceWord line splicePointer (reverseWord (Word subText)), splicePointer)
  else if isType (Type_ subText) LTR then
    inr (line ++ Word subText, length (line ++ Word subText))
  else if isType (Type_ subText) WEAK || isType (Type_ subText) BRACKETS then
    if (0 <? Z.of_nat wordIndex)%Z then
      match typeAt parsedText (Z.of_nat wordIndex - 1) with
      | inl e => inl e
      | inr previous =>
          if isType previous RTL then
            if (Z.of_nat wordIndex + 1 <? Z.of_nat (length parsedText))%Z then
              match typeAt parsedText (Z.of_nat wordIndex + 1) with
              | inl e => inl e
              | inr next =>
                  if isType next RTL then
                    inr (spliceWord line splicePointer (toString reverse), splicePointer)
                  else inr (line ++ Word subText, length (line ++ Word subText))
              end
            else inr (line ++ Word subText, splicePointer)
          else inr (line ++ Word subText, length (line ++ Word subText))
      end
    else inr (line ++ Word subText, length (line ++ Word subText))
  else inr (line, splicePointer).

(** The loop over [parsedText]: [todo] is what is left of it from
    [wordIndex] on. *)
Fixpoint reverseRtl_words (rtlDir : bool) (parsedText todo : list Part) (wordIndex : nat)
    (line : jsString) (splicePointer : nat) : Error + jsString :=
  match todo with
  | [] => inr line
  | subText :: todo' =>
      match reverseRtl_word rtlDir parsedText wordIndex subText line splicePointer with
      | inl e => inl e
      | inr (line', splicePointer') =>
          reverseRtl_words rtlDir parsedText todo' (S wordIndex) line' splicePointer'
      end
  end.

(** One line of [reverseRtl]. *)
Definition reverseRtl_line (text : jsString) : Error + jsString :=
  let rtlDir :=
    match text with
    | character :: _ => rtlChars character
    | [] => false
    end in
  let parsedText := convertTextToTypes rtlChars text in
  reverseRtl_words rtlDir parsedText parsedText 0 [] 0.

(** The loop over the lines, from line [i] of [length] on. *)
Fixpoint reverseRtl_lines (texts : list jsString) (i : nat) (length : nat)
    (result : jsString) : Error + jsString :=
  match texts with
  | [] => inr result
  | text :: texts' =>
      match reverseRtl_line text with
      | inl e => inl e
      | inr line =>
          let result := result ++ line in
          let result :=
            if (Z.of_nat i <? Z.of_nat length - 1)%Z
            then result ++ [code "010"] else result in
          reverseRtl_lines texts' (S i) length result
      end
  end.

Definition reverseRtl (value : jsString) : Error + jsString :=
  let texts := split (code "010") value in
  reverseRtl_lines texts 0 (length texts) [].

(** The lines joined back with the separator between them. *)
Fixpoint join (separator : codeUnit) (texts : list jsString) : jsString :=
  match texts with
  | [] => []
  | [text] => text
  | text :: texts' => text ++ separator :: join separator texts'
  end.

(** A part as [convertTextToTypes] makes them from a text that is not
    empty: a word that is not empty, of characters of one type, the type
    of the part, and of one character when that type is [BRACKETS]. *)
Definition typed (rtl : codeUnit -> bool) (p : Part) : Prop :=
  exists t, Type_ p = Some t /\ Word p <> [] /\
    Forall (fun c => typeOf rtl c = t) (Word p) /\
    (t = BRACKETS -> length (Word p) = 1).

(** A part of a parsed line: typed, or the one part of the empty line,
    which has no type and an empty word. *)
Definition part (p : Part) : Prop :=
  typed rtlChars p \/ (Type_ p = None /\ Word p = []).

End LabelText.

(* ================================================================== *)
(** * Label: the setters *)
(* ================================================================== *)

Module LabelSetters.

Import LabelText.

Inductive Error :=
| DeveloperError (message : string)
| TypeError.

Section Setters.

(** Scene/HorizontalOrigin.js is not part of the sources: its values are
    compared with [!==], so a type with decidable equality. *)
Context {HorizontalOrigin : Type} `{EqDecision HorizontalOrigin}.

(** The fields of a label that the setters below assign; [_text] and
    [_renderedText] are [undefined] until the first assignment. *)
Record Fields := mkFields {
  _text : option jsString;
  _renderedText : option jsString;
  _font : jsString;
  _showBackground : bool;
  _horizontalOrigin : HorizontalOrigin
}.

(** The labels: their dirty flags and the pending-update list of their
    collection, their fields, and [Label.enableRightToLeftDetection]. *)
Record State := mkState {
  glyphs : Label.State;
  fields : ref -> Fields;
  enableRightToLeftDetection : bool
}.

(** A setter returns or throws; either way the store is what it has
    written so far. *)
Inductive Outcome :=
| Done (w : State)
| Threw (e : Error) (w : State).

Definition assignFields (label : ref) (f : Fields) (w : State) : State :=
  mkState (glyphs w)
          (fun l => if Nat.eqb l label then f else fields w l)
          (enableRightToLeftDetection w).

Definition withGlyphs (f : Label.State -> Label.State) (w : State) : State :=
  mkState (f (glyphs w)) (fields w) (enableRightToLeftDetection w).

(** The setter of [text]. *)
Definition text_set (label : ref) (value : option jsString) (w : State) : Outcome :=
  match value with
  | None => Threw (DeveloperError "value is required.") w
  | Some value =>
      let this := fields w label in
      if bool_decide (_text this = Some value) then Done w
      else
        let w1 :=
          assignFields label
            (mkFields (Some value) (_renderedText this) (_font this)
                      (_showBackground this) (_horizontalOrigin this)) w in
        let rendered :=
          if enableRightToLeftDetection w1 then reverseRtl value else inr value in
        match rendered with
        | inl _ => Threw TypeError w1
        | inr renderedText =>
            let w2 :=
              assignFields label
                (mkFields (Some value) (Some renderedText) (_font this)
                          (_showBackground this) (_horizontalOrigin this)) w1 in
            Done (withGlyphs (Label.rebindAllGlyphs label) w2)
        end
  end.

(** The setter of [font]. *)
Definition font_set (label : ref) (value : option jsString) (w : State) : Outcome :=
  match value with
  | None => Threw (DeveloperError "value is required.") w
  | Some value =>
      let this := fields w label in
      if bool_decide (_font this = value) then Done w
      else
        Done (withGlyphs (Label.rebindAllGlyphs label)
                (assignFields label
                   (mkFields (_text this) (_renderedText this) value
                             (_showBackground this) (_horizontalOrigin this)) w))
  end.

(** The setter of [showBackground]. *)
Definition showBackground_set (label : ref) (value : option bool) (w : State) : Outcome :=
  match value with
  | None => Threw (DeveloperError "value is required.") w
  | Some value =>
      let this := fields w label in
      if Bool.eqb (_showBackground this) value then Done w
      else
        Done (withGlyphs (Label.rebindAllGlyphs label)
                (assignFields label
                   (mkFields (_text this) (_renderedText this) (_font this)
                             value (_horizontalOrigin this)) w))
  end.

(** The setter of [horizontalOrigin]. *)
Definition horizontalOrigin_set (label : ref) (value : option HorizontalOrigin)
    (w : State) : Outcome :=
  match value with
  | None => Threw (DeveloperError "value is required.") w
  | Some value =>
      let this := fields w label in
      if bool_decide (_horizontalOrigin this = value) then Done w
      else
        Done (withGlyphs (Label.repositionAllGlyphs label)
                (assignFields label
                   (mkFields (_text this) (_renderedText this) (_font this)
                             (_showBackground this) value) w))
  end.

(** An assignment to one of the four properties of a label. *)
Inductive Assignment :=
| Text (label : ref) (value : option jsString)
| Font (label : ref) (value : option jsString)
| ShowBackground (label : ref) (value : option bool)
| HorizontalOrigin_ (label : ref) (value : option HorizontalOrigin).

Definition assign (a : Assignment) (w : State) : Outcome :=
  match a with
  | Text label value => text_set label value w
  | Font label value => font_set label value w
  | ShowBackground label value => showBackground_set label value w
  | HorizontalOrigin_ label value => horizontalOrigin_set label value w
  end.

(** The store after an outcome. *)
Definition after (o : Outcome) : State :=
  match o with Done w | Threw _ w => w end.

(** A sequence of assignments by a caller that catches what they throw. *)
Definition assignAll (assignments : list Assignment) (w : State) : State :=
  fold_left (fun w a => after (assign a w)) assignments w.

End Setters.

End LabelSetters.

(* ================================================================== *)
(** * A small world for examples *)
(* ================================================================== *)

Module Scenario.

Import EntityCollection.

Definition guid (r : ref) : string := "guid".

(** Two entities, "x" at reference 0 and "y" at reference 1, not yet in
    any collection. *)
Definition entity (id : string) : Entity.t := Entity.mk id true None false 0.

Definition store : gmap ref Entity.t := <[0 := entity "x"]> (<[1 := entity "y"]> ∅).

(** A new collection over that store. *)
Definition fresh : State := mkState store new [] [].

(** A subscriber that makes no call, and one that adds "x" when it is
    told that "y" was added. *)
Definition observer : Subscriber := fun _ _ => [].

Definition toggler : Subscriber :=
  fun _ b =>
    if bool_decide (1 ∈ added b) then [Call_suspendEvents; Call_resumeEvents] else [].

(** A subscriber that, told that "y" was added, suspends the collection
    and adds "x". *)
Definition hoarder : Subscriber :=
  fun _ b =>
    if bool_decide (1 ∈ added b)
    then [Call_suspendEvents; Call_add (Some (Instance 0))] else [].



(** The collection holding "y", as [add] leaves it. *)
Definition held : State :=
  mkState (<[1 := Entity.mk "y" true None true 1]> store)
          (mk [("y", 1)] [] [] [] 0 true false false)
          [mkBatch [1] [] []] [].

(** The same collection, suspended once. *)
Definition heldSuspended : State :=
  with_this (set_suspendCount 1) held.

(** The collection as [add] finds it when it calls [fireChangedEvent]:
    "y" is in and staged as added. *)
Definition staged : State :=
  mkState (<[1 := Entity.mk "y" true None true 1]> store)
          (mk [("y", 1)] [("y", 1)] [] [] 0 true false false)
          [] [].

(** The same, under one suspension. *)
Definition stagedSuspended : State :=
  with_this (set_suspendCount 1) staged.

(** A new collection, suspended once. *)
Definition freshSuspended : State :=
  with_this (set_suspendCount 1) fresh.

(** Three entities with availabilities [10, 50], [0, 70] and none, for
    sentinels 0 and 100. *)
Definition timeline : State :=
  mkState
    (<[0 := Entity.mk "a" true (Some (TimeInterval.mk 10%Z 50%Z)) true 1]>
       (<[1 := Entity.mk "b" true (Some (TimeInterval.mk 0%Z 70%Z)) true 1]>
          (<[2 := Entity.mk "c" true None true 1]> ∅)))
    (mk [("a", 0); ("b", 1); ("c", 2)] [] [] [] 0 true false false)
    [] [].

(** One entity available over [105, 110]. *)
Definition lateOnly : State :=
  mkState (<[0 := Entity.mk "late" true (Some (TimeInterval.mk 105%Z 110%Z)) true 1]> ∅)
          (mk [("late", 0)] [] [] [] 0 true false false) [] [].

(** A collection holding "x", shown, and "y", whose own show flag is
    off. *)
Definition twoShown : State :=
  mkState (<[0 := Entity.mk "x" true None true 1]>
             (<[1 := Entity.mk "y" false None true 1]> ∅))
          (mk [("x", 0); ("y", 1)] [] [] [] 0 true false false) [] [].

(** Integers in place of matrices: product for the matrix product, no
    axis correction. *)
Definition scalarNode (withInstances : bool) : @ModelExperimentalNode.t Z unit unit :=
  ModelExperimentalNode.new Z.mul (fun m _ _ => m)
    (ModelExperimentalNode.mkOptions
       (ModelExperimentalNode.mkComponentsNode
          (if withInstances then Some tt else None))
       3%Z 2%Z
       (ModelExperimentalNode.mkSceneGraph (ModelExperimentalNode.mkComponents tt tt))
       []).

(** A new collection, suspended three times. *)
Definition suspendedThrice : State := with_this (set_suspendCount 3) fresh.

(** A node with two children, the nodes 1 and 0 of the scene graph. *)
Definition parentOptions : @ModelExperimentalNode.ConstructorOptions Z unit unit :=
  ModelExperimentalNode.mkOptions
    (ModelExperimentalNode.mkComponentsNode None)
    3%Z 2%Z
    (ModelExperimentalNode.mkSceneGraph (ModelExperimentalNode.mkComponents tt tt))
    [1; 0].

Definition parentNode : @ModelExperimentalNode.t Z unit unit :=
  ModelExperimentalNode.new Z.mul (fun m _ _ => m) parentOptions.

(** Two buffers and two textures, with integers for numbers. *)
Definition vertices : @ModelStatistics.Buffer Z := ModelStatistics.mkBuffer "vertices" 100%Z.
Definition indices : @ModelStatistics.Buffer Z := ModelStatistics.mkBuffer "indices" 30%Z.
Definition baseColor : @ModelStatistics.Texture Z := ModelStatistics.mkTexture "baseColor" 64%Z.
Definition normals : @ModelStatistics.Texture Z := ModelStatistics.mkTexture "normals" 16%Z.

(** Batch textures 0 and 1 share an id, batch texture 2 has its own. *)
Definition batchTextures (r : ref) : @ModelStatistics.BatchTexture Z :=
  match r with
  | 2 => ModelStatistics.mkBatchTexture "pick" 7%Z
  | _ => ModelStatistics.mkBatchTexture "batch" 5%Z
  end.

(** "ab(" and the Hebrew word shin, lamed, vav, final mem. *)
Definition latin : LabelText.jsString := [97; 98; 40]%N.
Definition shalom : LabelText.jsString := [0x05E9; 0x05DC; 0x05D5; 0x05DD]%N.

(** One label, clean, with no text yet, and right-to-left detection on. *)
Definition cleanLabel : @LabelSetters.State bool :=
  LabelSetters.mkState
    (Label.mkState (<[0 := Label.mk false false]> ∅) [])
    (fun _ => LabelSetters.mkFields None None [] false false)
    true.

End Scenario.


(* ================================================================== *)
(** * Properties of the collection *)
(* ================================================================== *)

Section AssociativeArrayFacts.

Import AssociativeArray.

Lemma get_delete key a : get key (delete key a) = None.
Proof.
  induction a as [| [k v] a IH]; simpl; [reflexivity |].
  destruct (String.eqb key k) eqn:E; [exact IH | simpl; rewrite E; exact IH].
Qed.

Lemma delete_absent key a : get key a = None -> delete key a = a.
Proof.
  induction a as [| [k v] a IH]; simpl; [reflexivity |].
  destruct (String.eqb key k); [discriminate |].
  intros H. rewrite (IH H). reflexivity.
Qed.

Lemma delete_app key a b : delete key (a ++ b) = delete key a ++ delete key b.
Proof.
  induction a as [| [k v] a IH]; simpl; [reflexivity |].
  destruct (String.eqb key k); [exact IH | simpl; rewrite IH; reflexivity].
Qed.

Lemma contains_false key a : contains key a = false <-> get key a = None.
Proof. unfold contains. destruct (get key a); split; congruence. Qed.

Lemma contains_true key a : contains key a = true <-> exists v, get key a = Some v.
Proof.
  unfold contains. destruct (get key a); split; try congruence; eauto.
  intros [v Hv]. discriminate.
Qed.

Lemma get_app_absent key a b : get key a = None -> get key (a ++ b) = get key b.
Proof.
  induction a as [| [k v] a IH]; simpl; [reflexivity |].
  destruct (String.eqb key k); [discriminate | exact IH].
Qed.

Lemma get_set key value a : get key (set key value a) = Some value.
Proof.
  unfold set. destruct (get key a) as [old |] eqn:E.
  - destruct (Nat.eqb_spec old value) as [-> | _]; [exact E |].
    rewrite get_app_absent by apply get_delete. simpl. rewrite String.eqb_refl. reflexivity.
  - rewrite get_app_absent by apply get_delete. simpl. rewrite String.eqb_refl. reflexivity.
Qed.

Lemma contains_set key value a : contains key (set key value a) = true.
Proof. unfold contains. rewrite get_set. reflexivity. Qed.

(** Setting a fresh key and deleting it again gives the array back. *)
Lemma delete_set_absent key value a :
  get key a = None -> delete key (set key value a) = a.
Proof.
  intros H. unfold set. rewrite H, delete_app, !(delete_absent _ _ H).
  simpl. rewrite String.eqb_refl. apply app_nil_r.
Qed.

Lemma values_delete key a r : r ∈ values (delete key a) -> r ∈ values a.
Proof.
  unfold values. induction a as [| [k v] a IH]; simpl; [auto |].
  destruct (String.eqb key k); simpl; rewrite !elem_of_cons; intuition.
Qed.

Lemma values_set_other key value a r :
  r <> value -> r ∈ values (set key value a) -> r ∈ values a.
Proof.
  intros Hne. unfold set.
  assert (H : r ∈ values (delete key a ++ [(key, value)]) -> r ∈ values a).
  { unfold values. rewrite map_app, elem_of_app. simpl. rewrite list_elem_of_singleton.
    intros [H | H]; [exact (values_delete _ _ _ H) | contradiction]. }
  destruct (get key a) as [old |]; [destruct (Nat.eqb old value) |]; auto.
Qed.

Lemma delete_set key value a : delete key (set key value a) = delete key a.
Proof.
  assert (H : delete key (delete key a ++ [(key, value)]) = delete key a).
  { rewrite delete_app, (delete_absent key (delete key a)) by apply get_delete.
    simpl. rewrite String.eqb_refl. apply app_nil_r. }
  unfold set. destruct (get key a) as [old |]; [destruct (Nat.eqb old value) |]; auto.
Qed.

Lemma set_set key value a : set key value (set key value a) = set key value a.
Proof. unfold set at 1. rewrite get_set, Nat.eqb_refl. reflexivity. Qed.

Lemma delete_idem key a : delete key (delete key a) = delete key a.
Proof. apply delete_absent, get_delete. Qed.

(** Membership of pairs. *)

Lemma get_elem key a r : get key a = Some r -> (key, r) ∈ a.
Proof.
  induction a as [| [k v] a IH]; simpl; [discriminate |].
  destruct (String.eqb_spec key k) as [-> | Hne].
  - intros H. inversion H. apply list_elem_of_here.
  - intros H. apply list_elem_of_further, IH, H.
Qed.

Lemma elem_contains key a r : (key, r) ∈ a -> contains key a = true.
Proof.
  unfold contains. induction a as [| [k v] a IH]; intros H; [inversion H |].
  simpl. destruct (String.eqb_spec key k) as [-> | Hne]; [reflexivity |].
  apply elem_of_cons in H as [H | H]; [inversion H; congruence | exact (IH H)].
Qed.

Lemma elem_delete key a k r : (k, r) ∈ delete key a -> (k, r) ∈ a /\ k <> key.
Proof.
  induction a as [| [k' v] a IH]; simpl; intros H; [inversion H |].
  destruct (String.eqb_spec key k') as [-> | Hne].
  - destruct (IH H) as [H1 H2]. split; [apply list_elem_of_further, H1 | exact H2].
  - apply elem_of_cons in H as [H | H].
    + inversion H; subst. split; [apply list_elem_of_here | congruence].
    + destruct (IH H) as [H1 H2]. split; [apply list_elem_of_further, H1 | exact H2].
Qed.

Lemma elem_set key value a k r :
  (k, r) ∈ set key value a -> (k = key /\ r = value) \/ (k, r) ∈ a.
Proof.
  assert (H : (k, r) ∈ delete key a ++ [(key, value)] ->
              (k = key /\ r = value) \/ (k, r) ∈ a).
  { intros H. apply elem_of_app in H as [H | H].
    - right. apply (elem_delete _ _ _ _ H).
    - left. apply list_elem_of_singleton in H. inversion H. auto. }
  unfold set. destruct (get key a) as [old |]; [destruct (Nat.eqb old value) |]; auto.
Qed.

Lemma get_delete_other key k a : k <> key -> get k (delete key a) = get k a.
Proof.
  intros Hne. induction a as [| [k' v] a IH]; simpl; [reflexivity |].
  destruct (String.eqb_spec key k') as [-> | Hne'].
  - destruct (String.eqb_spec k k'); [contradiction | exact IH].
  - simpl. destruct (String.eqb k k'); [reflexivity | exact IH].
Qed.

Lemma contains_delete_other key k a :
  k <> key -> contains k (delete key a) = contains k a.
Proof. intros H. unfold contains. rewrite get_delete_other by exact H. reflexivity. Qed.

Lemma get_app key a b :
  get key (a ++ b) = match get key a with Some v => Some v | None => get key b end.
Proof.
  induction a as [| [k v] a IH]; simpl; [reflexivity |].
  destruct (String.eqb key k); [reflexivity | exact IH].
Qed.

Lemma contains_set_mono key value k a :
  contains k a = true -> contains k (set key value a) = true.
Proof.
  intros H. destruct (String.eqb_spec k key) as [-> | Hne].
  - unfold contains. rewrite get_set. reflexivity.
  - unfold set.
    assert (H' : contains k (delete key a ++ [(key, value)]) = true).
    { unfold contains in *. rewrite get_app, get_delete_other by exact Hne.
      destruct (get k a); [reflexivity | discriminate]. }
    destruct (get key a) as [old |]; [destruct (Nat.eqb old value) |]; auto.
Qed.

Lemma elem_values a r : r ∈ values a <-> exists k, (k, r) ∈ a.
Proof.
  unfold values. rewrite list_elem_of_fmap. split.
  - intros ([k0 v] & -> & H). exists k0. exact H.
  - intros (k0 & H). exists (k0, r). auto.
Qed.

End AssociativeArrayFacts.

(** * The collection files every entity under its own id *)

Section WellFiledFacts.

Import EntityCollection.

Lemma filed_empty h : filed h [].
Proof. intros k r H. inversion H. Qed.

(** A new collection, over any store, is well filed. *)
Lemma WellFiled_new h ra si : WellFiled (mkState h new ra si).
Proof.
  unfold WellFiled. simpl. split; [| split; [| split]]; try apply filed_empty.
  intros k r H. inversion H.
Qed.

Lemma filed_updateEntity h a r f :
  (forall e, Entity.id (f e) = Entity.id e) ->
  filed h a -> filed (<[r := f (h !!! r)]> h) a.
Proof.
  intros Hid Ha k r' Hin. destruct (Ha k r' Hin) as [Hd Hk]. split.
  - rewrite dom_insert_L. set_solver.
  - destruct (decide (r = r')) as [-> | Hne].
    + rewrite lookup_total_insert_eq, Hid. exact Hk.
    + rewrite lookup_total_insert_ne by exact Hne. exact Hk.
Qed.

Lemma filed_alloc h a e :
  filed h a -> filed (<[fresh (dom h) := e]> h) a.
Proof.
  intros Ha k r Hin. destruct (Ha k r Hin) as [Hd Hk]. split.
  - rewrite dom_insert_L. set_solver.
  - rewrite lookup_total_insert_ne; [exact Hk |].
    intros E. subst r. exact (is_fresh (dom h) Hd).
Qed.

Lemma filed_delete h key a : filed h a -> filed h (AssociativeArray.delete key a).
Proof. intros Ha k r Hin. apply Ha. apply (elem_delete _ _ _ _ Hin). Qed.

Lemma filed_set h a r :
  r ∈ dom h -> filed h a -> filed h (AssociativeArray.set (Entity.id (h !!! r)) r a).
Proof.
  intros Hd Ha k r' Hin. apply elem_set in Hin as [[-> ->] | Hin]; [auto | apply Ha, Hin].
Qed.

Lemma filed_insert_same_id h a r e :
  Entity.id e = Entity.id (h !!! r) -> filed h a -> filed (<[r := e]> h) a.
Proof.
  intros Hid Ha k r' Hin. destruct (Ha k r' Hin) as [Hd Hk]. split.
  - rewrite dom_insert_L. set_solver.
  - destruct (decide (r = r')) as [-> | Hne].
    + rewrite lookup_total_insert_eq, Hid. exact Hk.
    + rewrite lookup_total_insert_ne by exact Hne. exact Hk.
Qed.

Lemma filed_set_key h a key r :
  r ∈ dom h -> Entity.id (h !!! r) = key -> filed h a ->
  filed h (AssociativeArray.set key r a).
Proof.
  intros Hd Hk Ha k r' Hin. apply elem_set in Hin as [[-> ->] | Hin]; [auto | apply Ha, Hin].
Qed.

(** ** Rules *)

Lemma Keeps_ret {A} (a : A) : Keeps (ret a).
Proof. intros w H. exact H. Qed.

Lemma Keeps_throw {A} err : Keeps (@throw A err).
Proof. intros w H. exact H. Qed.

Lemma Keeps_get : Keeps get.
Proof. intros w H. exact H. Qed.

Lemma Keeps_bind {A B} (m : M A) (k : A -> M B) :
  Keeps m -> (forall a, Keeps (k a)) -> Keeps (bind m k).
Proof.
  intros Hm Hk w H. unfold bind. specialize (Hm w H).
  destruct (m w) as [a w1 | |]; [exact (Hk a w1 Hm) | exact Hm | exact I].
Qed.

Lemma Keeps_update f :
  (forall c, _entities (f c) = _entities c /\
             _addedEntities (f c) = _addedEntities c /\
             _removedEntities (f c) = _removedEntities c) ->
  Keeps (update f).
Proof.
  intros Hf w H. unfold update, WellFiled in *. simpl.
  destruct (Hf (this w)) as (-> & -> & ->). exact H.
Qed.

Lemma Keeps_clear_added : Keeps (update (set_addedEntities AssociativeArray.removeAll)).
Proof.
  intros w (H1 & H2 & H3 & H4). unfold update, WellFiled. simpl.
  split; [exact H1 |]. split; [apply filed_empty |]. split; [exact H3 |].
  intros k r H. inversion H.
Qed.

Lemma Keeps_clear_removed : Keeps (update (set_removedEntities AssociativeArray.removeAll)).
Proof.
  intros w (H1 & H2 & H3 & H4). unfold update, WellFiled. simpl.
  split; [exact H1 |]. split; [exact H2 |]. split; [apply filed_empty | exact H4].
Qed.

Lemma Keeps_updateEntity r f :
  (forall e, Entity.id (f e) = Entity.id e) -> Keeps (updateEntity r f).
Proof.
  intros Hid w (H1 & H2 & H3 & H4). unfold updateEntity, WellFiled. simpl.
  repeat (split; [apply filed_updateEntity; assumption |]). exact H4.
Qed.

Lemma Keeps_record_signalled s : Keeps (record_signalled s).
Proof. intros w H. exact H. Qed.

Lemma Keeps_record_raised b : Keeps (record_raised b).
Proof. intros w H. exact H. Qed.

Lemma Keeps_when b (m : M unit) : Keeps m -> Keeps (when b m).
Proof. intros H. destruct b; [exact H | apply Keeps_ret]. Qed.

Lemma Keeps_repeatM n (m : M unit) : Keeps m -> Keeps (repeatM n m).
Proof.
  intros H. induction n as [| n IH]; simpl; [apply Keeps_ret |].
  apply Keeps_bind; [exact H | intros _; exact IH].
Qed.

(** ** The writes of add, removeById and removeAll *)

Lemma WellFiled_addStaged r w :
  WellFiled w ->
  AssociativeArray.contains (Entity.id (heap w !!! r)) (_entities (this w)) = false ->
  WellFiled (addStaged r w).
Proof.
  intros (H1 & H2 & H3 & H4) He.
  destruct w as [h [en ad re ch cnt sh fi rf] ra si]. unfold WellFiled, addStaged in *.
  simpl in *.
  set (id := Entity.id (h !!! r)) in *.
  set (h1 := <[r := Entity.entityCollection_set true (h !!! r)]> h).
  set (h2 := <[r := Entity.addEventListener (Entity.entityCollection_set true (h !!! r))]> h1).
  assert (Hf : forall a, filed h a -> filed h2 a).
  { intros a Ha. apply filed_insert_same_id.
    - unfold h1. rewrite lookup_total_insert_eq. reflexivity.
    - apply filed_insert_same_id; [reflexivity | exact Ha]. }
  assert (Hd : r ∈ dom h2) by (unfold h2; rewrite dom_insert_L; set_solver).
  assert (Hi : Entity.id (h2 !!! r) = id)
    by (unfold h2; rewrite lookup_total_insert_eq; reflexivity).
  split; [apply filed_set_key; auto |].
  split; [destruct (AssociativeArray.contains id re); [auto | apply filed_set_key; auto] |].
  split; [apply filed_delete; auto |].
  intros k r' Hin.
  assert (Hin' : (k = id /\ r' = r) \/ (k, r') ∈ ad).
  { destruct (AssociativeArray.contains id re); [right; exact Hin | apply elem_set, Hin]. }
  destruct Hin' as [[-> ->] | Hin']; [apply contains_set |].
  apply contains_set_mono, (H4 k r' Hin').
Qed.

Lemma removeById_unfold (fire : M unit) id r w :
  AssociativeArray.get id (_entities (this w)) = Some r ->
  removeById fire (Some id) w = (fire >> ret true) (removeStaged id r w).
Proof.
  intros He.
  assert (Hce : AssociativeArray.contains id (_entities (this w)) = true)
    by (apply contains_true; eauto).
  destruct w as [h [en ad re ch cnt sh fi rf] ra si]. simpl in He, Hce.
  unfold removeById, bind, ret, get, updateEntity, update, when, removeStaged.
  simpl. rewrite He, Hce. simpl.
  destruct (AssociativeArray.contains id ad) eqn:Ea; simpl;
    unfold with_heap, with_this, set_entities, set_addedEntities,
      set_removedEntities, set_changedEntities; simpl;
    rewrite delete_idem; [reflexivity |].
  apply contains_false in Ea. rewrite (delete_absent _ _ Ea). reflexivity.
Qed.

Lemma WellFiled_removeStaged id r w :
  WellFiled w ->
  AssociativeArray.get id (_entities (this w)) = Some r ->
  WellFiled (removeStaged id r w).
Proof.
  intros (H1 & H2 & H3 & H4) He.
  destruct w as [h [en ad re ch cnt sh fi rf] ra si]. unfold WellFiled, removeStaged in *.
  simpl in *.
  destruct (H1 id r (get_elem _ _ _ He)) as [Hd Hi].
  set (h1 := <[r := Entity.removeEventListener (h !!! r)]> h).
  assert (Hf : forall a, filed h a -> filed h1 a)
    by (intros a Ha; apply filed_insert_same_id; [reflexivity | exact Ha]).
  destruct (AssociativeArray.contains id ad) eqn:Ea; simpl.
  - split; [apply filed_delete; auto |]. split; [apply filed_delete; auto |].
    split; [auto |].
    intros k r' Hin. apply elem_delete in Hin as [Hin Hne].
    rewrite contains_delete_other by exact Hne. exact (H4 k r' Hin).
  - split; [apply filed_delete; auto |]. split; [auto |].
    split.
    + apply filed_set_key; auto.
      * unfold h1. rewrite dom_insert_L. set_solver.
      * unfold h1. rewrite lookup_total_insert_eq. exact Hi.
    + intros k r' Hin.
      assert (Hne : k <> id).
      { intros ->. rewrite (elem_contains _ _ _ Hin) in Ea. discriminate. }
      rewrite contains_delete_other by exact Hne. exact (H4 k r' Hin).
Qed.

Lemma WellFiled_remove_absent id w :
  WellFiled w ->
  AssociativeArray.contains id (_entities (this w)) = false ->
  WellFiled (with_this
               (set_entities (fun a => (AssociativeArray.remove id a).2)) w).
Proof.
  intros (H1 & H2 & H3 & H4) He.
  destruct w as [h [en ad re ch cnt sh fi rf] ra si]. unfold WellFiled in *. simpl in *.
  split; [apply filed_delete; auto |]. split; [auto |]. split; [auto |].
  intros k r' Hin.
  assert (Hne : k <> id) by (intros ->; rewrite (H4 id r' Hin) in He; discriminate).
  rewrite contains_delete_other by exact Hne. exact (H4 k r' Hin).
Qed.

(** In a well-filed store an entity whose id is not in the collection is
    not staged as added, and one whose id is not pending removal is not
    staged as removed. *)
Lemma WellFiled_not_staged w r :
  WellFiled w ->
  (AssociativeArray.contains (Entity.id (heap w !!! r)) (_entities (this w)) = false ->
   r ∉ AssociativeArray.values (_addedEntities (this w))) /\
  (AssociativeArray.contains (Entity.id (heap w !!! r)) (_removedEntities (this w)) = false ->
   r ∉ AssociativeArray.values (_removedEntities (this w))).
Proof.
  intros (H1 & H2 & H3 & H4). split; intros He Hin; apply elem_values in Hin as [k Hin].
  - destruct (H2 k r Hin) as [_ Hk]. rewrite Hk in He.
    rewrite (H4 k r Hin) in He. discriminate.
  - destruct (H3 k r Hin) as [_ Hk]. rewrite Hk in He.
    rewrite (elem_contains _ _ _ Hin) in He. discriminate.
Qed.

(** ** The calls *)

Section Calls.

Variable createGuid : ref -> string.
Variable subscribers : list Subscriber.

Lemma Keeps_new_Entity o : Keeps (new_Entity createGuid o).
Proof.
  intros w (H1 & H2 & H3 & H4). unfold new_Entity, WellFiled. simpl.
  repeat (split; [apply filed_alloc; assumption |]). exact H4.
Qed.

Ltac keeps_step :=
  match goal with
  | |- Keeps (ret _) => apply Keeps_ret
  | |- Keeps (throw _) => apply Keeps_throw
  | |- Keeps get => apply Keeps_get
  | |- Keeps (record_signalled _) => apply Keeps_record_signalled
  | |- Keeps (record_raised _) => apply Keeps_record_raised
  | |- Keeps (new_Entity _ _) => apply Keeps_new_Entity
  | |- Keeps (update _) =>
      first [ apply Keeps_clear_added | apply Keeps_clear_removed
            | apply Keeps_update; intros []; simpl; solve [auto] ]
  | |- Keeps (updateEntity _ _) => apply Keeps_updateEntity; intros []; reflexivity
  | |- Keeps (when _ _) => apply Keeps_when
  | |- Keeps (repeatM _ _) => apply Keeps_repeatM
  | |- Keeps (bind _ _) => apply Keeps_bind
  | |- Keeps (let _ := _ in _) => cbv zeta
  | |- Keeps (if ?b then _ else _) => destruct b
  | |- Keeps (match ?x with _ => _ end) => destruct x
  | |- forall _, _ => intro
  | H : Keeps ?m |- Keeps ?m => exact H
  end.
Ltac keeps := repeat keeps_step.

Lemma add_unfold (fire : M unit) r w :
  AssociativeArray.contains (Entity.id (heap w !!! r)) (_entities (this w)) = false ->
  add createGuid fire (Some (Instance r)) w = (fire >> ret r) (addStaged r w).
Proof.
  intros He. unfold add, bind, ret, get. rewrite He.
  unfold updateEntity, update, when, addStaged.
  destruct w as [h [en ad re ch cnt sh fi rf] ra si]. simpl in *.
  destruct (AssociativeArray.contains (Entity.id (h !!! r)) re); simpl;
    unfold with_heap, with_this; simpl; rewrite lookup_total_insert_eq; reflexivity.
Qed.

Section KeepsCalls.

Variable fire : M unit.
Hypothesis Hfire : Keeps fire.

Lemma Keeps_suspendEvents : Keeps suspendEvents.
Proof. unfold suspendEvents. keeps. Qed.

Lemma Keeps_resumeEvents : Keeps (resumeEvents fire).
Proof. unfold resumeEvents. keeps. Qed.

Lemma Keeps_onEntityDefinitionChanged r : Keeps (_onEntityDefinitionChanged fire r).
Proof. unfold _onEntityDefinitionChanged. keeps. Qed.

Lemma Keeps_definitionChanged_raiseEvent r : Keeps (definitionChanged_raiseEvent fire r).
Proof.
  unfold definitionChanged_raiseEvent. keeps; try apply Keeps_onEntityDefinitionChanged.
Qed.

Lemma Keeps_show_set_loop es : forall os, Keeps (show_set_loop fire es os).
Proof.
  induction es as [| e es IH]; intros [| o os]; simpl; try apply Keeps_ret.
  keeps; try apply Keeps_definitionChanged_raiseEvent; try apply IH.
Qed.

Lemma Keeps_show_set v : Keeps (show_set fire v).
Proof.
  unfold show_set. keeps;
    try apply Keeps_suspendEvents; try apply Keeps_show_set_loop;
    try apply Keeps_resumeEvents.
Qed.

Lemma Keeps_add_instance r : Keeps (add createGuid fire (Some (Instance r))).
Proof.
  intros w HW.
  destruct (AssociativeArray.contains (Entity.id (heap w !!! r)) (_entities (this w)))
    eqn:He.
  - unfold add, bind, ret, get. rewrite He. exact HW.
  - rewrite (add_unfold fire r w He). unfold bind.
    pose proof (Hfire _ (WellFiled_addStaged r w HW He)) as H.
    destruct (fire (addStaged r w)); exact H.
Qed.

Lemma Keeps_add e : Keeps (add createGuid fire e).
Proof.
  destruct e as [[r | o] |]; [apply Keeps_add_instance | | apply Keeps_throw].
  intros w HW.
  change (add createGuid fire (Some (Options o)) w)
    with (add createGuid fire (Some (Instance (fresh (dom (heap w)))))
            (with_heap
               (fun h => <[fresh (dom (heap w)) :=
                  Entity.mk
                    (default (createGuid (fresh (dom (heap w)))) (Entity.options_id o))
                    (default true (Entity.options_show o))
                    (Entity.options_availability o) false 0]> h) w)).
  apply Keeps_add_instance. exact (Keeps_new_Entity o w HW).
Qed.

Lemma Keeps_removeById id : Keeps (removeById fire id).
Proof.
  destruct id as [id |]; [| apply Keeps_ret].
  intros w HW.
  destruct (AssociativeArray.get id (_entities (this w))) as [r |] eqn:He.
  - rewrite (removeById_unfold fire id r w He). unfold bind.
    pose proof (Hfire _ (WellFiled_removeStaged id r w HW He)) as H.
    destruct (fire (removeStaged id r w)); exact H.
  - assert (Hce : AssociativeArray.contains id (_entities (this w)) = false)
      by (apply contains_false; exact He).
    unfold removeById, bind, get, update. simpl. rewrite Hce. simpl.
    apply WellFiled_remove_absent; assumption.
Qed.

Lemma Keeps_remove e : Keeps (remove fire e).
Proof.
  destruct e as [r |]; [| apply Keeps_ret]. unfold remove.
  apply Keeps_bind; [apply Keeps_get | intros w; apply Keeps_removeById].
Qed.

Lemma Keeps_removeAll_loop items : Keeps (removeAll_loop items).
Proof.
  induction items as [| item items IH]; [apply Keeps_ret |].
  intros w HW. simpl. unfold bind at 1, get. unfold bind at 1.
  destruct (AssociativeArray.contains (Entity.id (heap w !!! item))
              (_addedEntities (this w))); simpl.
  - exact (IH w HW).
  - apply IH. destruct HW as (H1 & H2 & H3 & H4).
    destruct w as [h [en ad re ch cnt sh fi rf] ra si]. unfold WellFiled in *. simpl in *.
    set (h1 := <[item := Entity.removeEventListener (h !!! item)]> h).
    assert (Hf : forall a, filed h a -> filed h1 a)
      by (intros a Ha; apply filed_insert_same_id; [reflexivity | exact Ha]).
    split; [auto |]. split; [auto |]. split; [| exact H4].
    apply filed_set_key; auto.
    + unfold h1. rewrite dom_insert_L. set_solver.
    + unfold h1. rewrite lookup_total_insert_eq. reflexivity.
Qed.

Lemma Keeps_removeAll : Keeps (removeAll fire).
Proof.
  intros w HW. unfold removeAll, bind at 1, get. unfold bind at 1.
  pose proof (Keeps_removeAll_loop (AssociativeArray.values (_entities (this w))) w HW) as H.
  destruct (removeAll_loop _ w) as [[] w1 | err w1 |]; [| exact H | exact I].
  unfold bind, update. simpl.
  match goal with |- context [fire ?x] => assert (HW1 : WellFiled x) end.
  { destruct H as (H1 & H2 & H3 & H4).
    destruct w1 as [h [en ad re ch cnt sh fi rf] ra si]. unfold WellFiled in *. simpl in *.
    split; [apply filed_empty |]. split; [apply filed_empty |]. split; [exact H3 |].
    intros k r Hin. inversion Hin. }
  exact (Hfire _ HW1).
Qed.

Lemma Keeps_getOrCreateEntity id : Keeps (getOrCreateEntity createGuid fire id).
Proof. unfold getOrCreateEntity. keeps; apply Keeps_add. Qed.

Lemma Keeps_perform c : Keeps (perform createGuid fire c).
Proof.
  destruct c; simpl;
    auto using Keeps_suspendEvents, Keeps_resumeEvents, Keeps_show_set, Keeps_removeAll,
      Keeps_definitionChanged_raiseEvent;
    (apply Keeps_bind; [| intros; apply Keeps_ret]);
    auto using Keeps_add, Keeps_remove, Keeps_removeById, Keeps_getOrCreateEntity.
Qed.

Lemma Keeps_performAll cs : Keeps (performAll createGuid fire cs).
Proof.
  induction cs as [| c cs IH]; simpl; [apply Keeps_ret |].
  apply Keeps_bind; [apply Keeps_perform | intros _; exact IH].
Qed.

Lemma Keeps_notify b ls : Keeps (notify createGuid fire b ls).
Proof.
  induction ls as [| l ls IH]; simpl; [apply Keeps_ret |].
  apply Keeps_bind; [apply Keeps_get | intros w].
  apply Keeps_bind; [apply Keeps_performAll | intros _; exact IH].
Qed.

Lemma Keeps_pass : Keeps (pass createGuid subscribers fire).
Proof.
  unfold pass, collectionChanged_raiseEvent. keeps. apply Keeps_notify.
Qed.

End KeepsCalls.

(** [fireChangedEvent] and its loop keep the store well filed. *)
Lemma Keeps_fireChangedEvent fuel :
  Keeps (fireChangedEvent createGuid subscribers fuel) /\
  Keeps (doWhile createGuid subscribers fuel).
Proof.
  induction fuel as [| n [IHf IHd]]; [split; intros w H; exact I |].
  split.
  - simpl. keeps.
  - simpl. apply Keeps_bind; [apply Keeps_pass; exact IHf | intros _].
    keeps.
Qed.

(** Every sequence of calls on the collection keeps the store well
    filed. *)
Lemma WellFiled_performAll fuel calls w :
  WellFiled w ->
  match performAll createGuid (fireChangedEvent createGuid subscribers fuel) calls w with
  | Return _ w' | Throw _ w' => WellFiled w'
  | OutOfFuel => True
  end.
Proof.
  intros H. apply Keeps_performAll; [apply Keeps_fireChangedEvent | exact H].
Qed.

End Calls.

End WellFiledFacts.

Section CollectionFacts.

Import EntityCollection.

Variable createGuid : ref -> string.
Variable subscribers : list Subscriber.

Local Notation fireChangedEvent := (fireChangedEvent createGuid subscribers).
Local Notation doWhile := (doWhile createGuid subscribers).
Local Notation pass := (pass createGuid subscribers).
Local Notation Passes := (Passes createGuid subscribers).
Local Notation idleOn := (idleOn subscribers).

(** ** Calls made while an event is being delivered *)

Lemma Sim_ret {A} (a : A) : Sim (ret a) (ret a).
Proof. intros w Hf. simpl. auto. Qed.

Lemma Sim_throw {A} err : Sim (@throw A err) (throw err).
Proof. intros w Hf. simpl. auto. Qed.

Lemma Sim_get : Sim get get.
Proof. intros w Hf. simpl. auto. Qed.

Lemma Sim_update f :
  (forall c, _firing (f c) = _firing c /\ (_refire c = true -> _refire (f c) = true)) ->
  Sim (update f) (update f).
Proof.
  intros Hp w Hf. simpl.
  destruct (Hp (this w)) as [H1 H2]. rewrite H1. auto.
Qed.

Lemma Sim_updateEntity r f : Sim (updateEntity r f) (updateEntity r f).
Proof. intros w Hf. simpl. auto. Qed.

Lemma Sim_record_signalled s : Sim (record_signalled s) (record_signalled s).
Proof. intros w Hf. simpl. auto. Qed.

Lemma Sim_new_Entity o : Sim (new_Entity createGuid o) (new_Entity createGuid o).
Proof. intros w Hf. simpl. auto. Qed.

Lemma Sim_bind {A B} (m1 m2 : M A) (k1 k2 : A -> M B) :
  Sim m1 m2 -> (forall a, Sim (k1 a) (k2 a)) -> Sim (bind m1 k1) (bind m2 k2).
Proof.
  intros Hm Hk w Hf. unfold bind. specialize (Hm w Hf).
  destruct (m1 w) as [a w1 | err w1 | ]; [| | exact I].
  - destruct Hm as (Heq & Hf1 & Hr1 & Hre1). rewrite Heq.
    specialize (Hk a w1 Hf1).
    destruct (k1 a w1) as [b w2 | err w2 | ]; [| | exact I];
      destruct Hk as (Heq2 & Hf2 & Hr2 & Hre2); repeat split; auto; congruence.
  - destruct Hm as (Heq & Hp). rewrite Heq. split; [reflexivity | exact Hp].
Qed.

Lemma Sim_when b (m1 m2 : M unit) : Sim m1 m2 -> Sim (when b m1) (when b m2).
Proof. intros H. destruct b; simpl; [exact H | apply Sim_ret]. Qed.

Lemma Sim_repeatM n (m1 m2 : M unit) : Sim m1 m2 -> Sim (repeatM n m1) (repeatM n m2).
Proof.
  intros H. induction n as [| n IH]; simpl; [apply Sim_ret |].
  apply Sim_bind; [exact H | intros _; exact IH].
Qed.

Lemma Sim_refl_l {A} (m1 m2 : M A) : Sim m1 m2 -> Sim m1 m1.
Proof.
  intros H w Hf. specialize (H w Hf).
  destruct (m1 w); [| | exact I]; destruct H as (_ & Hp); (split; [reflexivity | exact Hp]).
Qed.

(** A nested [fireChangedEvent] only sets [_refire]. *)
Lemma fireChangedEvent_firing n w :
  _firing (this w) = true ->
  fireChangedEvent (S n) w = Return tt (with_this (set_refire true) w).
Proof. intros Hf. simpl. unfold bind, get. rewrite Hf. reflexivity. Qed.

Lemma Sim_fireChangedEvent n m : Sim (fireChangedEvent n) (fireChangedEvent (S m)).
Proof.
  intros w Hf. destruct n as [| n]; [exact I |].
  rewrite !fireChangedEvent_firing by exact Hf. simpl. auto.
Qed.

Lemma Sim_fireChangedEvent_refl n : Sim (fireChangedEvent n) (fireChangedEvent n).
Proof. exact (Sim_refl_l _ _ (Sim_fireChangedEvent n 0)). Qed.

Ltac sim_step :=
  first
    [ apply Sim_ret | apply Sim_throw | apply Sim_get | apply Sim_updateEntity
    | apply Sim_record_signalled | apply Sim_new_Entity
    | apply Sim_update; intros []; simpl; auto
    | apply Sim_when | apply Sim_repeatM | apply Sim_bind
    | assumption
    | match goal with
      | |- Sim (let _ := _ in _) _ => cbv zeta
      | |- Sim (if ?b then _ else _) _ => destruct b
      | |- Sim (match ?x with _ => _ end) _ => destruct x
      | |- forall _, _ => intro
      end ].
Ltac sim := repeat sim_step.

Section Agree.

Variables fire1 fire2 : M unit.
Hypothesis Hfire : Sim fire1 fire2.

Lemma Sim_suspendEvents : Sim suspendEvents suspendEvents.
Proof. unfold suspendEvents. sim. Qed.

Lemma Sim_onEntityDefinitionChanged r :
  Sim (_onEntityDefinitionChanged fire1 r) (_onEntityDefinitionChanged fire2 r).
Proof. unfold _onEntityDefinitionChanged. sim. Qed.

Lemma Sim_definitionChanged_raiseEvent r :
  Sim (definitionChanged_raiseEvent fire1 r) (definitionChanged_raiseEvent fire2 r).
Proof.
  unfold definitionChanged_raiseEvent. sim.
Qed.

Lemma Sim_resumeEvents : Sim (resumeEvents fire1) (resumeEvents fire2).
Proof. unfold resumeEvents. sim. Qed.

Lemma Sim_show_set_loop es os :
  Sim (show_set_loop fire1 es os) (show_set_loop fire2 es os).
Proof.
  revert os. induction es as [| e es IH]; intros [| o os]; simpl; try apply Sim_ret.
  sim; try apply IH.
Qed.

Lemma Sim_show_set v : Sim (show_set fire1 v) (show_set fire2 v).
Proof.
  unfold show_set. sim; try apply Sim_show_set_loop.
Qed.

Lemma Sim_add e : Sim (add createGuid fire1 e) (add createGuid fire2 e).
Proof. unfold add. sim. Qed.

Lemma Sim_removeById id : Sim (removeById fire1 id) (removeById fire2 id).
Proof. unfold removeById. sim. Qed.

Lemma Sim_remove e : Sim (remove fire1 e) (remove fire2 e).
Proof. unfold remove. sim. Qed.

Lemma Sim_removeAll_loop l : Sim (removeAll_loop l) (removeAll_loop l).
Proof. induction l as [| x l IH]; simpl; sim. Qed.

Lemma Sim_removeAll : Sim (removeAll fire1) (removeAll fire2).
Proof. unfold removeAll. sim; try apply Sim_removeAll_loop. Qed.

Lemma Sim_getOrCreateEntity id :
  Sim (getOrCreateEntity createGuid fire1 id) (getOrCreateEntity createGuid fire2 id).
Proof. unfold getOrCreateEntity. sim; try apply Sim_add. Qed.

Lemma Sim_perform c : Sim (perform createGuid fire1 c) (perform createGuid fire2 c).
Proof.
  destruct c; simpl;
    auto using Sim_suspendEvents, Sim_resumeEvents, Sim_show_set, Sim_removeAll,
      Sim_definitionChanged_raiseEvent;
    (apply Sim_bind; [| intros; apply Sim_ret]);
    auto using Sim_add, Sim_remove, Sim_removeById, Sim_getOrCreateEntity.
Qed.

Lemma Sim_performAll cs : Sim (performAll createGuid fire1 cs) (performAll createGuid fire2 cs).
Proof.
  induction cs as [| c cs IH]; simpl; [apply Sim_ret |].
  apply Sim_bind; [apply Sim_perform | intros _; exact IH].
Qed.

Lemma Sim_notify b ls : Sim (notify createGuid fire1 b ls) (notify createGuid fire2 b ls).
Proof.
  induction ls as [| l ls IH]; simpl; [apply Sim_ret |].
  sim; try apply Sim_performAll; try exact IH.
Qed.

End Agree.

Lemma Fires_Quiet {A} (m : M A) : Fires m -> Quiet m.
Proof. intros H w a w' Hf Hm Hr. rewrite (H w a w' Hf Hm) in Hr. discriminate. Qed.

Lemma Fires_throw {A} err : Fires (@throw A err).
Proof. intros w a w' _ H. discriminate. Qed.

Lemma Fires_bind_r {A B} (m : M A) (k : A -> M B) :
  Sim m m -> (forall a, Fires (k a)) -> Fires (bind m k).
Proof.
  intros Hm Hk w b w' Hf Hb. unfold bind in Hb. specialize (Hm w Hf).
  destruct (m w) as [a w1 | |]; try discriminate.
  destruct Hm as (_ & Hf1 & _). exact (Hk a w1 b w' Hf1 Hb).
Qed.

Lemma Fires_bind_l {A B} (m : M A) (k : A -> M B) :
  Fires m -> Sim m m -> (forall a, Sim (k a) (k a)) -> Fires (bind m k).
Proof.
  intros HF Hm Hk w b w' Hf Hb. unfold bind in Hb. specialize (Hm w Hf).
  destruct (m w) as [a w1 | |] eqn:Em; try discriminate.
  destruct Hm as (_ & Hf1 & _).
  specialize (Hk a w1 Hf1). rewrite Hb in Hk.
  destruct Hk as (_ & _ & _ & Hre). apply Hre. exact (HF w a w1 Hf Em).
Qed.

Lemma Quiet_ret {A} (a : A) : Quiet (ret a).
Proof. intros w b w' _ H _. inversion H. reflexivity. Qed.

Lemma Quiet_update f :
  (forall c, staging (f c) = staging c) -> Quiet (update f).
Proof. intros Hs w b w' _ H _. inversion H. simpl. apply Hs. Qed.

Lemma Quiet_bind {A B} (m : M A) (k : A -> M B) :
  Sim m m -> Quiet m -> (forall a, Sim (k a) (k a)) -> (forall a, Quiet (k a)) ->
  Quiet (bind m k).
Proof.
  intros Hm Qm Hk Qk w b w' Hf Hb Hr. unfold bind in Hb. specialize (Hm w Hf).
  destruct (m w) as [a w1 | |] eqn:Em; try discriminate.
  destruct Hm as (_ & Hf1 & _).
  specialize (Hk a w1 Hf1). rewrite Hb in Hk.
  destruct Hk as (_ & _ & _ & Hre).
  assert (Hr1 : _refire (this w1) = false).
  { destruct (_refire (this w1)); [rewrite Hre in Hr by reflexivity; discriminate | reflexivity]. }
  rewrite (Qk a w1 b w' Hf1 Hb Hr). exact (Qm w a w1 Hf Em Hr1).
Qed.

Lemma Fires_fireChangedEvent n : Fires (fireChangedEvent n).
Proof.
  intros w a w' Hf H. destruct n as [| n]; [discriminate |].
  rewrite fireChangedEvent_firing in H by exact Hf.
  inversion H. reflexivity.
Qed.

Section Nested.

Variable fire : M unit.
Hypothesis Hsim : Sim fire fire.
Hypothesis Hfires : Fires fire.

Ltac fires_step :=
  first
    [ apply Fires_throw
    | exact Hfires
    | apply Fires_bind_l; [exact Hfires | exact Hsim | intros; solve [sim]]
    | apply Fires_bind_r; [solve [sim] | intros]
    | match goal with
      | |- Fires (let _ := _ in _) => cbv zeta
      | |- Fires (if ?b then _ else _) => destruct b
      | |- Fires (match ?x with _ => _ end) => destruct x
      end ].

Lemma Fires_add e : Fires (add createGuid fire e).
Proof. unfold add. repeat fires_step. Qed.

Lemma Fires_resumeEvents : Fires (resumeEvents fire).
Proof. unfold resumeEvents. repeat fires_step. Qed.

Lemma Fires_removeAll : Fires (removeAll fire).
Proof.
  unfold removeAll. apply Fires_bind_r; [apply Sim_get | intros w].
  apply Fires_bind_r; [apply Sim_removeAll_loop | intros _].
  repeat fires_step.
Qed.

Lemma Fires_onEntityDefinitionChanged r : Fires (_onEntityDefinitionChanged fire r).
Proof. unfold _onEntityDefinitionChanged. repeat fires_step. Qed.

Lemma Quiet_definitionChanged_raiseEvent r : Quiet (definitionChanged_raiseEvent fire r).
Proof.
  intros w a w' Hf H Hr. unfold definitionChanged_raiseEvent, bind, get in H.
  destruct (Entity.definitionChanged (heap w !!! r)) as [| n].
  - inversion H. reflexivity.
  - exfalso. simpl in H.
    assert (HF : Fires (_onEntityDefinitionChanged fire r >>
                        repeatM n (_onEntityDefinitionChanged fire r))).
    { apply Fires_bind_l;
        [ apply Fires_onEntityDefinitionChanged
        | apply Sim_onEntityDefinitionChanged; exact Hsim
        | intros; apply Sim_repeatM, Sim_onEntityDefinitionChanged; exact Hsim ]. }
    rewrite (HF w a w' Hf H) in Hr. discriminate.
Qed.

Lemma Quiet_get : Quiet get.
Proof. intros w b w' _ H _. inversion H. reflexivity. Qed.

Ltac quiet_step :=
  first
    [ apply Quiet_ret | apply Quiet_get
    | apply Quiet_update; intros []; reflexivity
    | apply Fires_Quiet; solve [repeat fires_step]
    | apply Quiet_bind; [solve [sim] | | intros; solve [sim] | intros]
    | match goal with
      | |- Quiet (let _ := _ in _) => cbv zeta
      | |- Quiet (if ?b then _ else _) => destruct b
      | |- Quiet (match ?x with _ => _ end) => destruct x
      end ].

Lemma Quiet_suspendEvents : Quiet suspendEvents.
Proof. unfold suspendEvents. repeat quiet_step. Qed.

Lemma Quiet_removeById id : Quiet (removeById fire id).
Proof. unfold removeById. repeat quiet_step. Qed.

Lemma Quiet_remove e : Quiet (remove fire e).
Proof.
  unfold remove. destruct e as [r |]; [| apply Quiet_ret].
  apply Quiet_bind; [apply Sim_get | apply Quiet_get | | ]; intros w.
  - apply Sim_removeById; exact Hsim.
  - apply Quiet_removeById.
Qed.

Lemma Quiet_getOrCreateEntity id : Quiet (getOrCreateEntity createGuid fire id).
Proof.
  unfold getOrCreateEntity. destruct id as [id |]; [| apply Fires_Quiet, Fires_throw].
  apply Quiet_bind; [apply Sim_get | apply Quiet_get | | ]; intros w.
  - destruct (AssociativeArray.get id (_entities (this w))); sim.
  - destruct (AssociativeArray.get id (_entities (this w))); [apply Quiet_ret |].
    apply Fires_Quiet, Fires_bind_r; [apply Sim_new_Entity | intros r].
    apply Fires_bind_l;
      [apply Fires_add | apply Sim_add; exact Hsim | intros; apply Sim_ret].
Qed.

Lemma Quiet_show_set v : Quiet (show_set fire v).
Proof.
  unfold show_set. destruct v as [v |]; [| apply Fires_Quiet, Fires_throw].
  apply Quiet_bind; [apply Sim_get | apply Quiet_get | | ]; intros w.
  - sim; try (apply Sim_show_set_loop; exact Hsim).
  - destruct (Bool.eqb v (_show (this w))); [apply Quiet_ret |].
    apply Fires_Quiet.
    apply Fires_bind_r; [apply Sim_suspendEvents | intros _].
    apply Fires_bind_r; [apply Sim_get | intros w1]. cbv zeta.
    apply Fires_bind_r; [solve [sim] | intros _].
    apply Fires_bind_r; [apply Sim_show_set_loop; exact Hsim | intros _].
    apply Fires_resumeEvents.
Qed.

Lemma Quiet_perform c : Quiet (perform createGuid fire c).
Proof.
  destruct c; simpl.
  - apply Fires_Quiet, Fires_bind_l;
      [apply Fires_add | apply Sim_add; exact Hsim | intros; apply Sim_ret].
  - apply Quiet_bind;
      [apply Sim_remove; exact Hsim | apply Quiet_remove
      | intros; apply Sim_ret | intros; apply Quiet_ret].
  - apply Quiet_bind;
      [apply Sim_removeById; exact Hsim | apply Quiet_removeById
      | intros; apply Sim_ret | intros; apply Quiet_ret].
  - apply Fires_Quiet, Fires_removeAll.
  - apply Quiet_bind;
      [apply Sim_getOrCreateEntity; exact Hsim | apply Quiet_getOrCreateEntity
      | intros; apply Sim_ret | intros; apply Quiet_ret].
  - apply Quiet_suspendEvents.
  - apply Fires_Quiet, Fires_resumeEvents.
  - apply Quiet_show_set.
  - apply Quiet_definitionChanged_raiseEvent.
Qed.

Lemma Quiet_performAll cs : Quiet (performAll createGuid fire cs).
Proof.
  induction cs as [| c cs IH]; simpl; [apply Quiet_ret |].
  apply Quiet_bind;
    [ apply Sim_perform; exact Hsim | apply Quiet_perform
    | intros; apply Sim_performAll; exact Hsim | intros; exact IH ].
Qed.

Lemma Quiet_notify b ls : Quiet (notify createGuid fire b ls).
Proof.
  induction ls as [| l ls IH]; simpl; [apply Quiet_ret |].
  apply Quiet_bind; [apply Sim_get | apply Quiet_get | |]; intros w.
  - apply Sim_bind; [apply Sim_performAll; exact Hsim |].
    intros _. apply Sim_notify; exact Hsim.
  - apply Quiet_bind;
      [ apply Sim_performAll; exact Hsim | apply Quiet_performAll
      | intros; apply Sim_notify; exact Hsim | intros; exact IH ].
Qed.

End Nested.

(** ** One turn of the delivery loop *)

Lemma pass_unfold fire w :
  pass fire w = notify createGuid fire (pending (this w)) subscribers (turnStart w).
Proof. destruct w as [h [] r s]. reflexivity. Qed.

Lemma pass_fuel n m w a w' :
  _firing (this w) = true ->
  pass (fireChangedEvent n) w = Return a w' ->
  pass (fireChangedEvent (S m)) w = Return a w'.
Proof.
  intros Hf H. rewrite pass_unfold in *.
  pose proof (Sim_notify _ _ (Sim_fireChangedEvent n m) (pending (this w)) subscribers
                (turnStart w)) as HS.
  rewrite H in HS. destruct HS as (Heq & _); [| exact Heq].
  destruct w as [h [] r s]. exact Hf.
Qed.

Lemma pass_post n w a w' :
  _firing (this w) = true ->
  pass (fireChangedEvent n) w = Return a w' ->
  _firing (this w') = true /\
  raised w' = raised w ++ [pending (this w)] /\
  (_refire (this w') = false -> staging (this w') = ([], [], [])).
Proof.
  intros Hf H. rewrite pass_unfold in H.
  assert (Hf0 : _firing (this (turnStart w)) = true)
    by (destruct w as [h [] r s]; exact Hf).
  pose proof (Sim_notify _ _ (Sim_fireChangedEvent_refl n) (pending (this w)) subscribers
                (turnStart w) Hf0) as HS.
  rewrite H in HS. destruct HS as (_ & Hf' & Hr & _).
  split; [exact Hf' |]. split; [rewrite Hr; reflexivity |].
  intros Hre.
  rewrite (Quiet_notify _ (Sim_fireChangedEvent_refl n) (Fires_fireChangedEvent n)
             _ _ _ _ _ Hf0 H Hre).
  reflexivity.
Qed.

(** ** The delivery loop *)

Lemma Passes_post w bs w' :
  _firing (this w) = true -> Passes w bs w' ->
  _firing (this w') = true /\ _refire (this w') = false /\
  staging (this w') = ([], [], []) /\
  raised w' = raised w ++ bs /\
  head bs = Some (pending (this w)).
Proof.
  intros Hf HP. induction HP as [w w' Hp Hr | w w1 bs w' Hp Hr HP IH].
  - destruct (pass_post 1 w tt w' Hf Hp) as (Hf' & Hra & Hst). auto.
  - destruct (pass_post 1 w tt w1 Hf Hp) as (Hf1 & Hra & _).
    destruct (IH Hf1) as (Hf' & Hr' & Hst & Hra' & _).
    repeat split; auto. rewrite Hra', Hra, <- app_assoc. reflexivity.
Qed.

Lemma doWhile_unfold n w :
  doWhile (S n) w =
  match pass (fireChangedEvent n) w with
  | Return _ w1 => if _refire (this w1) then doWhile n w1 else Return tt w1
  | Throw err w1 => Throw err w1
  | OutOfFuel => OutOfFuel
  end.
Proof.
  simpl. unfold bind, get.
  destruct (pass (fireChangedEvent n) w) as [a w1 | |]; try reflexivity.
  destruct (_refire (this w1)); reflexivity.
Qed.

(** If the loop returns, its turns form a chain. *)
Lemma doWhile_sound fuel : forall w w',
  _firing (this w) = true ->
  doWhile fuel w = Return tt w' ->
  exists bs, Passes w bs w' /\ length bs <= fuel.
Proof.
  induction fuel as [| n IH]; intros w w' Hf H; [discriminate |].
  rewrite doWhile_unfold in H.
  destruct (pass (fireChangedEvent n) w) as [[] w1 | |] eqn:Ep; try discriminate.
  pose proof (pass_fuel n 0 w tt w1 Hf Ep) as Hp1.
  destruct (pass_post n w tt w1 Hf Ep) as (Hf1 & _).
  destruct (_refire (this w1)) eqn:Er.
  - destruct (IH w1 w' Hf1 H) as (bs & HP & Hlen).
    exists (pending (this w) :: bs). split; [| simpl; lia].
    eapply Passes_more; eauto.
  - inversion H; subst w'. exists [pending (this w)]. split; [| simpl; lia].
    apply Passes_last; assumption.
Qed.


(** ** fireChangedEvent from outside a delivery *)

Lemma fireChangedEvent_suspended n w :
  _firing (this w) = false -> _suspendCount (this w) <> 0%Z ->
  fireChangedEvent (S n) w = Return tt w.
Proof.
  intros Hf Hc. simpl. unfold bind, get. rewrite Hf.
  destruct (Z.eqb_spec (_suspendCount (this w)) 0); [contradiction | reflexivity].
Qed.

Lemma fireChangedEvent_nothing_pending n w :
  _firing (this w) = false -> hasPending (this w) = false ->
  fireChangedEvent (S n) w = Return tt w.
Proof.
  intros Hf Hp. simpl. unfold bind, get. rewrite Hf, Hp.
  destruct (_suspendCount (this w) =? 0)%Z; reflexivity.
Qed.

Lemma hasPending_staging c :
  hasPending c = false <-> staging c = ([], [], []).
Proof.
  unfold hasPending, staging, AssociativeArray.length.
  destruct (_changedEntities c), (_addedEntities c), (_removedEntities c); simpl;
    split; intros H; try reflexivity; try discriminate.
Qed.

Lemma fireChangedEvent_deliver n w :
  _firing (this w) = false -> _suspendCount (this w) = 0%Z ->
  hasPending (this w) = true ->
  fireChangedEvent (S n) w =
  match doWhile n (with_this (set_firing true) w) with
  | Return _ w1 => Return tt (with_this (set_firing false) w1)
  | Throw err w1 => Throw err w1
  | OutOfFuel => OutOfFuel
  end.
Proof.
  intros Hf Hc Hp. simpl. unfold bind, get. rewrite Hf, Hc, Hp. simpl.
  destruct (doWhile n _); reflexivity.
Qed.

Lemma notify_idle fire b ls w :
  Forall (fun s : Subscriber => forall w, s w b = []) ls ->
  notify createGuid fire b ls w = Return tt w.
Proof.
  intros H. induction H as [| s ls Hs _ IH]; [reflexivity |].
  simpl. unfold bind, get. rewrite Hs. simpl. exact IH.
Qed.

Lemma pass_idle fire w :
  idleOn (pending (this w)) -> pass fire w = Return tt (turnStart w).
Proof. intros H. rewrite pass_unfold. apply notify_idle, H. Qed.


Lemma firing_set w : _firing (this (with_this (set_firing true) w)) = true.
Proof. reflexivity. Qed.

(** C2.  [add] with an entity whose id is already in the collection
    throws the duplicate-id error and leaves the store as it was; when
    the argument is an options object carrying such an id, the entity
    built from it is the only change and the collection is as it was. *)
Theorem add_existing_id_fails fuel w :
  (forall r,
     AssociativeArray.contains (Entity.id (heap w !!! r)) (_entities (this w)) = true ->
     add createGuid (fireChangedEvent fuel) (Some (Instance r)) w =
     Throw (DeveloperError
              ("An entity with id " +:+ Entity.id (heap w !!! r)
               +:+ " already exists in this collection.")) w) /\
  (forall o id,
     Entity.options_id o = Some id ->
     AssociativeArray.contains id (_entities (this w)) = true ->
     exists w',
       add createGuid (fireChangedEvent fuel) (Some (Options o)) w =
       Throw (DeveloperError
                ("An entity with id " +:+ id
                 +:+ " already exists in this collection.")) w' /\
       this w' = this w /\ raised w' = raised w /\ signalled w' = signalled w).
Proof.
  split.
  - intros r H. unfold add, bind, ret, get. rewrite H. reflexivity.
  - intros o id Ho H. eexists. unfold add, bind, new_Entity, get. simpl.
    rewrite lookup_total_insert_eq. simpl. rewrite Ho. simpl. rewrite H.
    split; [reflexivity |]. auto.
Qed.

Lemma resumeEvents_unfold fire w :
  _suspendCount (this w) <> 0%Z ->
  resumeEvents fire w =
  fire (with_this (fun c => set_suspendCount (_suspendCount c - 1) c) w).
Proof.
  intros Hc. unfold resumeEvents, bind, get, update.
  destruct (Z.eqb_spec (_suspendCount (this w)) 0); [contradiction | reflexivity].
Qed.

(** C9.  Outside a delivery, with the three staging arrays empty,
    [fireChangedEvent] returns the store unchanged: no collection-changed
    event is raised; and [resumeEvents] bringing the count from one to
    zero only resets the count. *)
Theorem nothing_pending_raises_nothing fuel w :
  _firing (this w) = false ->
  staging (this w) = ([], [], []) ->
  fireChangedEvent (S fuel) w = Return tt w /\
  (_suspendCount (this w) = 1%Z ->
   resumeEvents (fireChangedEvent (S fuel)) w =
   Return tt (with_this (set_suspendCount 0) w)).
Proof.
  intros Hf Hs. apply hasPending_staging in Hs. split.
  - apply fireChangedEvent_nothing_pending; assumption.
  - intros Hc. rewrite resumeEvents_unfold by lia.
    rewrite fireChangedEvent_nothing_pending.
    + destruct w as [h [] r s]. simpl in *. subst. reflexivity.
    + destruct w as [h [] r s]. exact Hf.
    + destruct w as [h [] r s]. exact Hs.
Qed.

(** What a top-level [fireChangedEvent] has raised when it returns. *)
Lemma fireChangedEvent_raised fuel w w' :
  _firing (this w) = false ->
  fireChangedEvent fuel w = Return tt w' ->
  raised w' = raised w \/
  exists rest, raised w' = raised w ++ pending (this w) :: rest.
Proof.
  intros Hf H. destruct fuel as [| n]; [discriminate |].
  destruct (Z.eqb_spec (_suspendCount (this w)) 0) as [Hc | Hc].
  - destruct (hasPending (this w)) eqn:Hp.
    + right. rewrite (fireChangedEvent_deliver n w Hf Hc Hp) in H.
      destruct (doWhile n (with_this (set_firing true) w)) as [[] w1 | |] eqn:Ed;
        try discriminate.
      inversion H; subst w'; clear H.
      destruct (doWhile_sound n _ _ (firing_set _) Ed) as (bs & HP & _).
      destruct (Passes_post _ _ _ (firing_set _) HP) as (_ & _ & _ & Hra & Hhd).
      destruct bs as [| b bs]; [discriminate |]. simpl in Hhd. inversion Hhd; subst b.
      exists bs. destruct w as [h [] r s]. exact Hra.
    + left. rewrite fireChangedEvent_nothing_pending in H by assumption.
      inversion H. reflexivity.
  - left. rewrite fireChangedEvent_suspended in H by assumption.
    inversion H. reflexivity.
Qed.

(** A delivery to subscribers that make no call takes one turn. *)
Lemma fireChangedEvent_idle n w :
  _firing (this w) = false -> _suspendCount (this w) = 0%Z ->
  hasPending (this w) = true ->
  idleOn (pending (this w)) ->
  fireChangedEvent (S (S n)) w =
  Return tt (with_this (set_firing false) (turnStart (with_this (set_firing true) w))).
Proof.
  intros Hf Hc Hp Hi.
  rewrite (fireChangedEvent_deliver (S n) w Hf Hc Hp), doWhile_unfold, pass_idle.
  - destruct w as [h [] r s]. reflexivity.
  - destruct w as [h [] r s]. exact Hi.
Qed.

(** C5.  [resumeEvents] throws when the count is zero; otherwise it
    decrements the count and hands over to [fireChangedEvent]; when that
    brings the count to zero outside a delivery, the pending batch is the
    first event raised, and with subscribers that make no call it is the
    only one and the call returns. *)
Theorem resumeEvents_balanced fuel w :
  (_suspendCount (this w) = 0%Z ->
   resumeEvents (fireChangedEvent fuel) w =
   Throw (DeveloperError "resumeEvents can not be called before suspendEvents.") w) /\
  (_suspendCount (this w) <> 0%Z ->
   resumeEvents (fireChangedEvent fuel) w =
   fireChangedEvent fuel
     (with_this (fun c => set_suspendCount (_suspendCount c - 1) c) w)) /\
  (_suspendCount (this w) = 1%Z -> _firing (this w) = false ->
   hasPending (this w) = true ->
   (forall w', resumeEvents (fireChangedEvent fuel) w = Return tt w' ->
      exists rest, raised w' = raised w ++ pending (this w) :: rest) /\
   (idleOn (pending (this w)) ->
    exists w', resumeEvents (fireChangedEvent (S (S fuel))) w = Return tt w' /\
      raised w' = raised w ++ [pending (this w)] /\
      staging (this w') = ([], [], []) /\
      _suspendCount (this w') = 0%Z)).
Proof.
  split; [| split].
  - intros Hc. unfold resumeEvents, bind, get. rewrite Hc. reflexivity.
  - apply resumeEvents_unfold.
  - intros Hc Hf Hp.
    assert (Hne : _suspendCount (this w) <> 0%Z) by lia.
    set (w0 := with_this (fun c => set_suspendCount (_suspendCount c - 1) c) w).
    assert (Hf0 : _firing (this w0) = false) by (destruct w as [h [] r s]; exact Hf).
    assert (Hc0 : _suspendCount (this w0) = 0%Z)
      by (destruct w as [h [] r s]; simpl in *; lia).
    assert (Hp0 : hasPending (this w0) = true) by (destruct w as [h [] r s]; exact Hp).
    assert (Hpe : pending (this w0) = pending (this w)) by (destruct w as [h [] r s]; reflexivity).
    assert (Hra : raised w0 = raised w) by reflexivity.
    split.
    + intros w' H. rewrite (resumeEvents_unfold _ w Hne) in H. fold w0 in H.
      destruct fuel as [| n]; [discriminate |].
      rewrite (fireChangedEvent_deliver n w0 Hf0 Hc0 Hp0) in H.
      destruct (doWhile n (with_this (set_firing true) w0)) as [[] w1 | |] eqn:Ed;
        try discriminate.
      inversion H; subst w'; clear H.
      destruct (doWhile_sound n _ _ (firing_set _) Ed) as (bs & HP & _).
      destruct (Passes_post _ _ _ (firing_set _) HP) as (_ & _ & _ & Hra1 & Hhd).
      destruct bs as [| b bs]; [discriminate |]. simpl in Hhd. inversion Hhd; subst b.
      exists bs. simpl. rewrite Hra1. simpl. rewrite <- Hpe.
      destruct w as [h [] r s]. reflexivity.
    + intros Hi. eexists. rewrite (resumeEvents_unfold _ w Hne). fold w0.
      rewrite (fireChangedEvent_idle fuel w0 Hf0 Hc0 Hp0) by (rewrite Hpe; exact Hi).
      split; [reflexivity |].
      destruct w as [h [] r s]. simpl in *. auto.
Qed.

(** ** Adding and removing under suspension *)

Lemma add_fresh_suspended n w r :
  let id := Entity.id (heap w !!! r) in
  _firing (this w) = false -> _suspendCount (this w) <> 0%Z ->
  AssociativeArray.contains id (_entities (this w)) = false ->
  AssociativeArray.contains id (_removedEntities (this w)) = false ->
  add createGuid (fireChangedEvent (S n)) (Some (Instance r)) w =
  Return r
    (mkState
       (<[r := Entity.addEventListener (Entity.entityCollection_set true (heap w !!! r))]>
          (<[r := Entity.entityCollection_set true (heap w !!! r)]> (heap w)))
       (set_addedEntities (AssociativeArray.set id r)
          (set_removedEntities (AssociativeArray.delete id)
             (set_entities (AssociativeArray.set id r) (this w))))
       (raised w) (signalled w)).
Proof.
  intros id Hf Hc He Hr. unfold add, bind, ret, get. fold id. rewrite He.
  unfold updateEntity, update, when.
  cbn -[EntityCollection.fireChangedEvent]. rewrite Hr.
  cbn -[EntityCollection.fireChangedEvent].
  rewrite fireChangedEvent_suspended.
  - destruct w as [h [] ra si]. unfold with_heap, with_this. simpl.
    rewrite lookup_total_insert_eq. reflexivity.
  - destruct w as [h [] ra si]. exact Hf.
  - destruct w as [h [] ra si]. exact Hc.
Qed.

Lemma removeById_added_suspended n w id r :
  _firing (this w) = false -> _suspendCount (this w) <> 0%Z ->
  AssociativeArray.get id (_entities (this w)) = Some r ->
  AssociativeArray.contains id (_addedEntities (this w)) = true ->
  removeById (fireChangedEvent (S n)) (Some id) w =
  Return true
    (mkState
       (<[r := Entity.removeEventListener (heap w !!! r)]> (heap w))
       (set_entities (AssociativeArray.delete id)
          (set_addedEntities (AssociativeArray.delete id) (this w)))
       (raised w) (signalled w)).
Proof.
  intros Hf Hc He Ha.
  assert (Hce : AssociativeArray.contains id (_entities (this w)) = true)
    by (apply contains_true; eauto).
  destruct w as [h [en ad re ch cnt sh fi rf] ra si]. simpl in Hf, Hc, He, Ha, Hce.
  unfold removeById, bind, ret, get, updateEntity, update, when.
  cbn -[EntityCollection.fireChangedEvent]. rewrite He, Hce.
  cbn -[EntityCollection.fireChangedEvent]. rewrite Ha.
  cbn -[EntityCollection.fireChangedEvent].
  rewrite fireChangedEvent_suspended by assumption.
  unfold with_heap, with_this, set_entities, set_addedEntities.
  cbn -[AssociativeArray.delete]. rewrite delete_idem. reflexivity.
Qed.

(** [add] followed by [remove] of an entity whose id is neither in a
    suspended collection nor pending removal. *)
Lemma add_remove_suspended n m w r :
  let id := Entity.id (heap w !!! r) in
  (0 < _suspendCount (this w))%Z ->
  _firing (this w) = false ->
  AssociativeArray.contains id (_entities (this w)) = false ->
  AssociativeArray.contains id (_removedEntities (this w)) = false ->
  exists w2,
    (add createGuid (fireChangedEvent (S n)) (Some (Instance r)) >>
     remove (fireChangedEvent (S n)) (Some r)) w = Return true w2 /\
    raised w2 = raised w /\
    _entities (this w2) = _entities (this w) /\
    AssociativeArray.contains id (_addedEntities (this w2)) = false /\
    AssociativeArray.contains id (_removedEntities (this w2)) = false /\
    (forall x, x ∈ added (pending (this w2)) -> x ∈ added (pending (this w))) /\
    removed (pending (this w2)) = removed (pending (this w)) /\
    changed (pending (this w2)) = changed (pending (this w)) /\
    (forall w3, resumeEvents (fireChangedEvent m) w2 = Return tt w3 ->
       raised w3 = raised w \/
       exists rest, raised w3 = raised w ++ pending (this w2) :: rest) /\
    (_suspendCount (this w) = 1%Z -> hasPending (this w2) = true ->
     idleOn (pending (this w2)) ->
     exists w3, resumeEvents (fireChangedEvent (S (S m))) w2 = Return tt w3 /\
       raised w3 = raised w ++ [pending (this w2)]).
Proof.
  intros id Hc Hf He Hr.
  assert (Hne : _suspendCount (this w) <> 0%Z) by lia.
  eexists. unfold bind at 1.
  rewrite (add_fresh_suspended n w r Hf Hne He Hr). fold id.
  unfold remove, bind at 1, get. simpl heap. rewrite lookup_total_insert_eq.
  change (Entity.id (Entity.addEventListener
            (Entity.entityCollection_set true (heap w !!! r)))) with id.
  rewrite (removeById_added_suspended n _ id r);
    [| destruct w as [h [] ra si]; exact Hf
     | destruct w as [h [] ra si]; exact Hne
     | destruct w as [h [] ra si]; apply get_set
     | destruct w as [h [] ra si]; apply contains_set ].
  split; [reflexivity |].
  assert (Hent : AssociativeArray.delete id
                   (AssociativeArray.set id r (_entities (this w))) = _entities (this w)).
  { rewrite delete_set. apply delete_absent, contains_false, He. }
  assert (Hrem : AssociativeArray.delete id (_removedEntities (this w))
                 = _removedEntities (this w)).
  { apply delete_absent, contains_false, Hr. }
  match goal with |- raised ?x = _ /\ _ => set (w2 := x) end.
  assert (Hra : raised w2 = raised w) by reflexivity.
  assert (He2 : _entities (this w2) = _entities (this w))
    by (destruct w as [h [] ra si]; exact Hent).
  assert (Hka : AssociativeArray.contains id (_addedEntities (this w2)) = false).
  { destruct w as [h [] ra si]. simpl. apply contains_false, get_delete. }
  assert (Hkr : AssociativeArray.contains id (_removedEntities (this w2)) = false).
  { destruct w as [h [] ra si]. simpl in *. rewrite Hrem. exact Hr. }
  assert (Ha2 : forall x, x ∈ added (pending (this w2)) -> x ∈ added (pending (this w))).
  { destruct w as [h [] ra si]. simpl in *. rewrite delete_set.
    intros x H. exact (values_delete _ _ _ H). }
  assert (Hr2 : removed (pending (this w2)) = removed (pending (this w))).
  { destruct w as [h [] ra si]. simpl in *. rewrite Hrem. reflexivity. }
  assert (Hch2 : changed (pending (this w2)) = changed (pending (this w)))
    by (destruct w as [h [] ra si]; reflexivity).
  assert (Hc2 : _suspendCount (this w2) = _suspendCount (this w))
    by (destruct w as [h [] ra si]; reflexivity).
  assert (Hf2 : _firing (this w2) = false)
    by (destruct w as [h [] ra si]; exact Hf).
  repeat split; auto.
  - intros w3 H3. rewrite resumeEvents_unfold in H3 by (rewrite Hc2; exact Hne).
    apply fireChangedEvent_raised in H3;
      [| destruct w2 as [h2 [] ra2 si2]; exact Hf2].
    destruct w2 as [h2 [] ra2 si2]. simpl in *. rewrite Hra in H3. exact H3.
  - intros H1 Hp Hi. eexists.
    rewrite resumeEvents_unfold by (rewrite Hc2; exact Hne).
    rewrite fireChangedEvent_idle.
    + split; [reflexivity |]. destruct w2 as [h2 [] ra2 si2]. simpl in *.
      rewrite Hra. reflexivity.
    + destruct w2 as [h2 [] ra2 si2]. exact Hf2.
    + destruct w2 as [h2 [] ra2 si2]. simpl in *. lia.
    + destruct w2 as [h2 [] ra2 si2]. exact Hp.
    + destruct w2 as [h2 [] ra2 si2]. exact Hi.
Qed.

(** C3.  In a suspended collection, outside a delivery, take an entity
    whose id is neither in the collection nor pending removal.  Then
    [add] followed by [remove] returns true and raises nothing; the
    collection holds what it held; nothing is staged under the id of the
    entity, the removed staging array is the one from before and the
    added one holds only what it held before; if the store was well
    filed, as every store reached from a new collection is, it still is
    and the entity is in neither list of the pending batch; the batch
    pending at [resumeEvents] is the first one it raises, if it raises
    any, and with the count at one and subscribers that make no call it
    does raise it and returns. *)
Theorem add_remove_net_zero n m w r :
  let id := Entity.id (heap w !!! r) in
  (0 < _suspendCount (this w))%Z ->
  _firing (this w) = false ->
  AssociativeArray.contains id (_entities (this w)) = false ->
  AssociativeArray.contains id (_removedEntities (this w)) = false ->
  exists w2,
    (add createGuid (fireChangedEvent (S n)) (Some (Instance r)) >>
     remove (fireChangedEvent (S n)) (Some r)) w = Return true w2 /\
    raised w2 = raised w /\
    _entities (this w2) = _entities (this w) /\
    AssociativeArray.contains id (_addedEntities (this w2)) = false /\
    AssociativeArray.contains id (_removedEntities (this w2)) = false /\
    (forall x, x ∈ added (pending (this w2)) -> x ∈ added (pending (this w))) /\
    removed (pending (this w2)) = removed (pending (this w)) /\
    changed (pending (this w2)) = changed (pending (this w)) /\
    (WellFiled w ->
     WellFiled w2 /\
     (r ∉ added (pending (this w2))) /\ (r ∉ removed (pending (this w2)))) /\
    (forall w3, resumeEvents (fireChangedEvent m) w2 = Return tt w3 ->
       raised w3 = raised w \/
       exists rest, raised w3 = raised w ++ pending (this w2) :: rest) /\
    (_suspendCount (this w) = 1%Z -> hasPending (this w2) = true ->
     idleOn (pending (this w2)) ->
     exists w3, resumeEvents (fireChangedEvent (S (S m))) w2 = Return tt w3 /\
       raised w3 = raised w ++ [pending (this w2)]).
Proof.
  intros id Hc Hf He Hr.
  destruct (add_remove_suspended n m w r Hc Hf He Hr)
    as (w2 & Hrun & Hra & He2 & Hka & Hkr & Ha2 & Hr2 & Hch2 & Hsound & Hidle).
  exists w2. do 8 (split; [assumption |]). split; [| split; assumption].
  intros HW.
  pose proof (Keeps_bind _ _
                (Keeps_add createGuid _
                   (proj1 (Keeps_fireChangedEvent createGuid subscribers (S n)))
                   (Some (Instance r)))
                (fun _ => Keeps_remove _
                   (proj1 (Keeps_fireChangedEvent createGuid subscribers (S n)))
                   (Some r))
                w HW) as HK.
  rewrite Hrun in HK. split; [exact HK |].
  destruct (WellFiled_not_staged w r HW) as [Hna Hnr]. split.
  - intros Hin. exact (Hna He (Ha2 r Hin)).
  - rewrite Hr2. exact (Hnr Hr).
Qed.

(** ** The show setter *)

Lemma Frame_refl w : Frame w w.
Proof. unfold Frame. auto 10. Qed.

Lemma Frame_trans w1 w2 w3 : Frame w1 w2 -> Frame w2 w3 -> Frame w1 w3.
Proof. unfold Frame. intuition congruence. Qed.

(** A call of [fireChangedEvent] during a delivery or under suspension. *)
Lemma fireChangedEvent_quiet n w :
  _firing (this w) = true \/ _suspendCount (this w) <> 0%Z ->
  exists w', fireChangedEvent (S n) w = Return tt w' /\ Frame w w' /\
    signalled w' = signalled w /\
    _changedEntities (this w') = _changedEntities (this w).
Proof.
  intros H. destruct (_firing (this w)) eqn:Hf.
  - rewrite fireChangedEvent_firing by exact Hf. eexists. split; [reflexivity |].
    destruct w as [h [] ra si]. unfold Frame. simpl in *. auto 10.
  - destruct H as [H | H]; [discriminate |].
    rewrite fireChangedEvent_suspended by assumption.
    eexists. split; [reflexivity |]. split; [apply Frame_refl | auto].
Qed.

Lemma onEntityDefinitionChanged_quiet n r w :
  _firing (this w) = true \/ _suspendCount (this w) <> 0%Z ->
  exists w', _onEntityDefinitionChanged (fireChangedEvent (S n)) r w = Return tt w' /\
    Frame w w' /\ signalled w' = signalled w /\
    _changedEntities (this w') =
      (if AssociativeArray.contains (Entity.id (heap w !!! r)) (_addedEntities (this w))
       then _changedEntities (this w)
       else AssociativeArray.set (Entity.id (heap w !!! r)) r (_changedEntities (this w))).
Proof.
  intros H. unfold _onEntityDefinitionChanged, bind at 1, get. cbv zeta.
  unfold bind, when.
  destruct (AssociativeArray.contains _ _) eqn:Ec; cbn -[EntityCollection.fireChangedEvent].
  - destruct (fireChangedEvent_quiet n w H) as (w' & -> & HF & Hs & Hch). eauto.
  - set (w1 := with_this _ w).
    assert (H1 : _firing (this w1) = true \/ _suspendCount (this w1) <> 0%Z)
      by (destruct w as [h [] ra si]; exact H).
    destruct (fireChangedEvent_quiet n w1 H1) as (w' & -> & HF & Hs & Hch).
    exists w'. split; [reflexivity |].
    assert (HF1 : Frame w w1)
      by (destruct w as [h [] ra si]; unfold Frame; simpl; auto 10).
    split; [exact (Frame_trans _ _ _ HF1 HF) |].
    split; [rewrite Hs; reflexivity |].
    rewrite Hch. destruct w as [h [] ra si]. reflexivity.
Qed.

Lemma repeatM_S k (m : M unit) w :
  repeatM (S k) m w =
  match m w with
  | Return _ w' => repeatM k m w'
  | Throw err w' => Throw err w'
  | OutOfFuel => OutOfFuel
  end.
Proof. reflexivity. Qed.

Lemma definitionChanged_raiseEvent_quiet n r w :
  _firing (this w) = true \/ _suspendCount (this w) <> 0%Z ->
  exists w', definitionChanged_raiseEvent (fireChangedEvent (S n)) r w = Return tt w' /\
    Frame w w' /\ signalled w' = signalled w /\
    _changedEntities (this w') =
      (if Nat.ltb 0 (Entity.definitionChanged (heap w !!! r))
          && negb (AssociativeArray.contains (Entity.id (heap w !!! r))
                     (_addedEntities (this w)))
       then AssociativeArray.set (Entity.id (heap w !!! r)) r (_changedEntities (this w))
       else _changedEntities (this w)).
Proof.
  unfold definitionChanged_raiseEvent, bind at 1, get.
  generalize (Entity.definitionChanged (heap w !!! r)) as k.
  set (id := Entity.id (heap w !!! r)).
  set (inAdded := AssociativeArray.contains id (_addedEntities (this w))).
  intros k. revert w id inAdded.
  induction k as [| k IH]; intros w id inAdded H.
  - exists w. split; [reflexivity |]. split; [apply Frame_refl | auto].
  - rewrite repeatM_S.
    destruct (onEntityDefinitionChanged_quiet n r w H) as (w1 & -> & HF1 & Hs1 & Hch1).
    assert (H1 : _firing (this w1) = true \/ _suspendCount (this w1) <> 0%Z).
    { destruct HF1 as (_ & _ & _ & _ & _ & Hc & _ & Hf). rewrite Hc, Hf. exact H. }
    destruct (IH w1 H1) as (w2 & -> & HF2 & Hs2 & Hch2).
    exists w2. split; [reflexivity |].
    split; [exact (Frame_trans _ _ _ HF1 HF2) |].
    split; [congruence |].
    rewrite Hch2, Hch1.
    destruct HF1 as (Hh & _ & _ & Ha & _). rewrite Hh, Ha.
    fold id. fold inAdded. change (0 <? S k) with true.
    destruct inAdded; simpl.
    + destruct (0 <? k); reflexivity.
    + destruct (0 <? k); simpl; [apply set_set | reflexivity].
Qed.

Lemma show_set_loop_cons fire e es o os w :
  show_set_loop fire (e :: es) (o :: os) w =
  (when (negb (Bool.eqb o (isShowing w e)))
        (record_signalled (mkSignal e "isShowing" (isShowing w e) o) >>
         definitionChanged_raiseEvent fire e) >>
   show_set_loop fire es os) w.
Proof. reflexivity. Qed.

Section ShowLoop.

Variable h : gmap ref Entity.t.
Variable sh : bool.
Variable ad : AssociativeArray.t.
Variable old : ref -> bool.

Lemma show_set_loop_quiet n es : forall w,
  heap w = h -> _show (this w) = sh -> _addedEntities (this w) = ad ->
  _firing (this w) = true \/ _suspendCount (this w) <> 0%Z ->
  exists w', show_set_loop (fireChangedEvent (S n)) es (map old es) w = Return tt w' /\
    Frame w w' /\
    signalled w' =
      signalled w ++
      map (fun r => mkSignal r "isShowing" (sh && Entity.show (h !!! r)) (old r))
          (List.filter (differs h sh old) es) /\
    _changedEntities (this w') =
      fold_left (stage h ad) (List.filter (differs h sh old) es)
                (_changedEntities (this w)).
Proof.
  induction es as [| e es IH]; intros w Hh Hs Ha Hq.
  - exists w. split; [reflexivity |]. split; [apply Frame_refl |].
    simpl. rewrite app_nil_r. auto.
  - rewrite map_cons, show_set_loop_cons. unfold bind at 1.
    unfold isShowing. rewrite Hh, Hs. simpl List.filter.
    change (negb (Bool.eqb (old e) (sh && Entity.show (h !!! e))))
      with (differs h sh old e).
    destruct (differs h sh old e) eqn:Ed; unfold when.
    + unfold bind at 1, record_signalled.
      set (w0 := with_signalled _ w).
      assert (Hq0 : _firing (this w0) = true \/ _suspendCount (this w0) <> 0%Z)
        by exact Hq.
      destruct (definitionChanged_raiseEvent_quiet n e w0 Hq0)
        as (w1 & -> & HF1 & Hs1 & Hch1).
      destruct HF1 as (Hh1 & Hr1 & He1 & Ha1 & Hre1 & Hc1 & Hsh1 & Hf1).
      destruct (IH w1) as (w2 & -> & HF2 & Hs2 & Hch2);
        [ rewrite Hh1; exact Hh | rewrite Hsh1; exact Hs | rewrite Ha1; exact Ha
        | rewrite Hc1, Hf1; exact Hq | ].
      exists w2. split; [reflexivity |].
      split; [apply (Frame_trans w w1 w2); [unfold Frame; auto 10 | exact HF2] |].
      split.
      * rewrite Hs2, Hs1. simpl. rewrite <- app_assoc. reflexivity.
      * rewrite Hch2, Hch1. simpl. change (heap w0) with (heap w).
        change (this w0) with (this w). rewrite Hh, Ha. reflexivity.
    + unfold ret. cbv beta iota.
      destruct (IH w Hh Hs Ha Hq) as (w2 & -> & HF2 & Hs2 & Hch2).
      exists w2. auto.
Qed.

End ShowLoop.

(** C4.  Toggling the show flag to a different value, the count not
    being negative: between its [suspendEvents] and its closing
    [resumeEvents] the setter raises one isShowing definition-changed
    event per entity whose effective visibility differs before and after,
    in array order, with the new and the old value; the entities and the
    added and removed staging arrays are left as they were, and the
    collection's handler stages every such entity it is registered on as
    changed unless the entity is staged as added.  When the collection
    was suspended already, outside a delivery, the setter returns with
    that staging in place. *)
Theorem show_set_signals n w value :
  value <> _show (this w) ->
  (0 <= _suspendCount (this w))%Z ->
  exists w1,
    show_set (fireChangedEvent (S n)) (Some value) w =
    resumeEvents (fireChangedEvent (S n)) w1 /\
    heap w1 = heap w /\ raised w1 = raised w /\
    signalled w1 = signalled w ++ showSignals w value /\
    _show (this w1) = value /\
    _suspendCount (this w1) = (_suspendCount (this w) + 1)%Z /\
    _entities (this w1) = _entities (this w) /\
    _addedEntities (this w1) = _addedEntities (this w) /\
    _removedEntities (this w1) = _removedEntities (this w) /\
    _changedEntities (this w1) = stagedBy w (affected w value) /\
    ((0 < _suspendCount (this w))%Z -> _firing (this w) = false ->
     show_set (fireChangedEvent (S n)) (Some value) w =
     Return tt (with_this (set_suspendCount (_suspendCount (this w))) w1)).
Proof.
  intros Hv Hc.
  set (ws := with_this (fun c => set_suspendCount (_suspendCount c + 1) c) w).
  set (wv := with_this (set_show value) ws).
  assert (Hq : _firing (this wv) = true \/ _suspendCount (this wv) <> 0%Z).
  { right. destruct w as [h [] ra si]. simpl in *. lia. }
  destruct (show_set_loop_quiet (heap w) value (_addedEntities (this w)) (isShowing ws) n
              (AssociativeArray.values (_entities (this ws))) wv)
    as (w1 & Hloop & HF & Hs & Hch);
    [ destruct w as [h [] ra si]; reflexivity
    | destruct w as [h [] ra si]; reflexivity
    | destruct w as [h [] ra si]; reflexivity
    | exact Hq | ].
  assert (Heq : show_set (fireChangedEvent (S n)) (Some value) w =
                resumeEvents (fireChangedEvent (S n)) w1).
  { unfold show_set, bind at 1, get.
    destruct (Bool.eqb_spec value (_show (this w))) as [E | _]; [contradiction |].
    unfold bind at 1, suspendEvents, update. unfold bind at 1, get. cbv zeta.
    unfold bind at 1, update. unfold bind at 1.
    fold ws. fold wv. rewrite Hloop. reflexivity. }
  destruct HF as (Hh1 & Hr1 & He1 & Ha1 & Hre1 & Hc1 & Hsh1 & Hf1).
  assert (Hcount : _suspendCount (this w1) = (_suspendCount (this w) + 1)%Z).
  { rewrite Hc1. destruct w as [h [] ra si]. reflexivity. }
  exists w1. split; [exact Heq |].
  split; [rewrite Hh1; destruct w as [h [] ra si]; reflexivity |].
  split; [rewrite Hr1; destruct w as [h [] ra si]; reflexivity |].
  split; [rewrite Hs; destruct w as [h [] ra si]; reflexivity |].
  split; [rewrite Hsh1; destruct w as [h [] ra si]; reflexivity |].
  split; [exact Hcount |].
  split; [rewrite He1; destruct w as [h [] ra si]; reflexivity |].
  split; [rewrite Ha1; destruct w as [h [] ra si]; reflexivity |].
  split; [rewrite Hre1; destruct w as [h [] ra si]; reflexivity |].
  split; [rewrite Hch; destruct w as [h [] ra si]; reflexivity |].
  intros Hpos Hfalse.
  rewrite Heq, resumeEvents_unfold by lia.
  rewrite fireChangedEvent_suspended.
  - f_equal. destruct w1 as [h1 [] ra1 si1]. simpl in *. subst.
    unfold with_this. simpl. do 2 f_equal. lia.
  - destruct w1 as [h1 [] ra1 si1]. simpl in *. rewrite Hf1.
    destruct w as [h [] ra si]. exact Hfalse.
  - destruct w1 as [h1 [] ra1 si1]. simpl in *. lia.
Qed.

End CollectionFacts.


(* ================================================================== *)
(** * computeAvailability *)
(* ================================================================== *)

Section AvailabilityFacts.

Import EntityCollection.

Variables MINIMUM_VALUE MAXIMUM_VALUE : JulianDate.t.

Local Notation loop := (computeAvailability_loop MINIMUM_VALUE MAXIMUM_VALUE).
Local Notation starts := (restrictingStarts MINIMUM_VALUE).
Local Notation stops := (restrictingStops MAXIMUM_VALUE).

(** The loop leaves in [startTime] the least of its initial value and the
    restricting starts, and in [stopTime] the greatest of its initial
    value and the restricting stops. *)
Lemma computeAvailability_loop_spec w es : forall startTime stopTime,
  let r := loop w es startTime stopTime in
  ((r.1 = startTime \/ r.1 ∈ starts w es) /\
   (r.1 <= startTime)%Z /\ (forall s, s ∈ starts w es -> (r.1 <= s)%Z)) /\
  ((r.2 = stopTime \/ r.2 ∈ stops w es) /\
   (stopTime <= r.2)%Z /\ (forall s, s ∈ stops w es -> (s <= r.2)%Z)).
Proof.
  unfold restrictingStarts, restrictingStops, availabilities.
  induction es as [| e es IH]; intros st sp; simpl.
  - repeat split; auto; try lia; intros s Hs; inversion Hs.
  - destruct (Entity.availability (heap w !!! e)) as [[a b] |]; simpl; [| apply IH].
    unfold JulianDate.lessThan, JulianDate.greaterThan, JulianDate.equals.
    match goal with |- context [loop w es ?x ?y] => specialize (IH x y) end.
    cbv zeta in IH. destruct IH as ((H1 & H2 & H3) & (H4 & H5 & H6)).
    split.
    + clear H4 H5 H6.
      destruct (Z.ltb_spec a st), (Z.eqb_spec a MINIMUM_VALUE); simpl in *;
        repeat split; try lia;
        try (destruct H1 as [H1 | H1]; [| right; try apply list_elem_of_further; exact H1]);
        try (left; lia); try (right; rewrite H1; apply list_elem_of_here);
        try (intros s Hs; apply H3; exact Hs);
        try (intros s Hs; apply elem_of_cons in Hs as [-> | Hs]; [lia | apply H3; exact Hs]).
    + clear H1 H2 H3.
      destruct (Z.ltb_spec sp b), (Z.eqb_spec b MAXIMUM_VALUE); simpl in *;
        repeat split; try lia;
        try (destruct H4 as [H4 | H4]; [| right; try apply list_elem_of_further; exact H4]);
        try (left; lia); try (right; rewrite H4; apply list_elem_of_here);
        try (intros s Hs; apply H6; exact Hs);
        try (intros s Hs; apply elem_of_cons in Hs as [-> | Hs]; [lia | apply H6; exact Hs]).
Qed.

(** Within the sentinels [computeAvailability] does what its
    documentation says.  The computed interval starts at the
    unbounded-past sentinel when
    no start other than that sentinel exists, and stops at the
    unbounded-future sentinel when no stop other than that sentinel
    exists; it starts no later than any start other than the
    unbounded-past sentinel and stops no earlier than any stop other than
    the unbounded-future sentinel; and it is tight: when the starts other
    than the unbounded-past sentinel lie before the unbounded-future
    sentinel, its start is one of them, and when the stops other than the
    unbounded-future sentinel lie after the unbounded-past sentinel, its
    stop is one of them. *)
Theorem computeAvailability_tightest w :
  let entities := AssociativeArray.values (_entities (this w)) in
  let result := computeAvailability MINIMUM_VALUE MAXIMUM_VALUE w in
  (starts w entities = [] -> TimeInterval.start result = MINIMUM_VALUE) /\
  (stops w entities = [] -> TimeInterval.stop result = MAXIMUM_VALUE) /\
  ((MINIMUM_VALUE <= MAXIMUM_VALUE)%Z ->
   (forall s, s ∈ starts w entities -> (TimeInterval.start result <= s)%Z) /\
   (forall s, s ∈ stops w entities -> (s <= TimeInterval.stop result)%Z)) /\
  ((forall s, s ∈ starts w entities -> (s < MAXIMUM_VALUE)%Z) ->
   starts w entities <> [] ->
   TimeInterval.start result ∈ starts w entities) /\
  ((forall s, s ∈ stops w entities -> (MINIMUM_VALUE < s)%Z) ->
   stops w entities <> [] ->
   TimeInterval.stop result ∈ stops w entities).
Proof.
  intros entities result. subst result. unfold computeAvailability.
  fold entities.
  pose proof (computeAvailability_loop_spec w entities MAXIMUM_VALUE MINIMUM_VALUE) as H.
  cbv zeta in H.
  destruct (loop w entities MAXIMUM_VALUE MINIMUM_VALUE) as [st sp]. simpl in *.
  destruct H as ((H1 & H2 & H3) & (H4 & H5 & H6)).
  unfold JulianDate.equals.
  split; [| split; [| split; [| split]]].
  - intros He. rewrite He in H1. destruct H1 as [-> | H1]; [| inversion H1].
    rewrite Z.eqb_refl. reflexivity.
  - intros He. rewrite He in H4. destruct H4 as [-> | H4]; [| inversion H4].
    rewrite Z.eqb_refl. reflexivity.
  - intros Hle. split; intros s Hs.
    + specialize (H3 s Hs). destruct (Z.eqb_spec MAXIMUM_VALUE st); lia.
    + specialize (H6 s Hs). destruct (Z.eqb_spec MINIMUM_VALUE sp); lia.
  - intros Hlt Hne. destruct H1 as [H1 | H1].
    + destruct (starts w entities) as [| s l] eqn:E; [contradiction |].
      assert (Hs : s ∈ s :: l) by apply list_elem_of_here.
      specialize (H3 s Hs). specialize (Hlt s Hs). lia.
    + destruct (Z.eqb_spec MAXIMUM_VALUE st) as [E | E]; [| exact H1].
      specialize (Hlt st H1). lia.
  - intros Hlt Hne. destruct H4 as [H4 | H4].
    + destruct (stops w entities) as [| s l] eqn:E; [contradiction |].
      assert (Hs : s ∈ s :: l) by apply list_elem_of_here.
      specialize (H6 s Hs). specialize (Hlt s Hs). lia.
    + destruct (Z.eqb_spec MINIMUM_VALUE sp) as [E | E]; [| exact H4].
      specialize (Hlt sp H4). lia.
Qed.

End AvailabilityFacts.


(* ================================================================== *)
(** * ModelExperimentalNode *)
(* ================================================================== *)

Section NodeFacts.

Import ModelExperimentalNode.

Variable Matrix4 : Type.
Variable Matrix4_equals : Matrix4 -> Matrix4 -> bool.
Variable Matrix4_multiply : Matrix4 -> Matrix4 -> Matrix4.
Variable Axis : Type.
Variable correctModelMatrix : Matrix4 -> Axis -> Axis -> Matrix4.
Variable Instances : Type.

Local Notation Node := (@ModelExperimentalNode.t Matrix4 Axis Instances).
Local Notation transform_set :=
  (ModelExperimentalNode.transform_set Matrix4_equals Matrix4_multiply correctModelMatrix).
Local Notation new :=
  (@ModelExperimentalNode.new Matrix4 Matrix4_multiply Axis correctModelMatrix Instances).
Local Notation Options := (@ModelExperimentalNode.ConstructorOptions Matrix4 Axis Instances).
Local Notation assignAll :=
  (ModelExperimentalNode.assignAll Matrix4_equals Matrix4_multiply correctModelMatrix).
Local Notation instancingOf :=
  (ModelExperimentalNode.instancingOf Matrix4_multiply correctModelMatrix).

Lemma new_instancing (options : Options) :
  _instancingNodeTransform (new options) = instancingOf (new options).
Proof.
  unfold ModelExperimentalNode.new, ModelExperimentalNode.instancingOf, configurePipeline, Matrix4_clone.
  simpl. destruct (instances (options_node options)); reflexivity.
Qed.

Lemma transform_set_instancing value (n : Node) :
  _instancingNodeTransform n = instancingOf n ->
  _instancingNodeTransform (transform_set value n) = instancingOf (transform_set value n).
Proof.
  intros H. unfold transform_set, ModelExperimentalNode.transform_set.
  destruct (Matrix4_equals (_transform n) value); [exact H |].
  unfold ModelExperimentalNode.instancingOf, Matrix4_clone in *. simpl.
  destruct (instances (_node n)); [reflexivity | exact H].
Qed.

Lemma transform_set_frame value (n : Node) :
  _node (transform_set value n) = _node n /\
  _transformToRoot (transform_set value n) = _transformToRoot n /\
  _sceneGraph (transform_set value n) = _sceneGraph n.
Proof.
  unfold transform_set, ModelExperimentalNode.transform_set.
  destruct (Matrix4_equals (_transform n) value); simpl; auto.
Qed.

Lemma assignAll_instancing values : forall n : Node,
  _instancingNodeTransform n = instancingOf n ->
  _instancingNodeTransform (assignAll values n) = instancingOf (assignAll values n).
Proof.
  induction values as [| v values IH]; intros n H; [exact H |].
  apply IH, transform_set_instancing, H.
Qed.

Lemma assignAll_frame values : forall n : Node,
  _node (assignAll values n) = _node n /\
  _transformToRoot (assignAll values n) = _transformToRoot n /\
  _sceneGraph (assignAll values n) = _sceneGraph n.
Proof.
  induction values as [| v values IH]; intros n; [auto |].
  destruct (IH (transform_set v n)) as (H1 & H2 & H3).
  destruct (transform_set_frame v n) as (H4 & H5 & H6).
  unfold assignAll, ModelExperimentalNode.assignAll in *. simpl.
  rewrite H1, H2, H3. auto.
Qed.

(** C7.  After the constructor and any sequence of assignments to
    [transform], the instancing transform is defined exactly when the
    node description has instances, and then it is the axis-corrected
    product of [transformToRoot] and the current local transform. *)
Theorem instancingNodeTransform_invariant (options : Options) values :
  let n := assignAll values (new options) in
  (is_Some (_instancingNodeTransform n) <-> is_Some (instances (options_node options))) /\
  (forall m, _instancingNodeTransform n = Some m ->
     m = correctModelMatrix
           (Matrix4_multiply (options_transformToRoot options) (_transform n))
           (upAxis (components (options_sceneGraph options)))
           (forwardAxis (components (options_sceneGraph options)))).
Proof.
  intros n.
  pose proof (assignAll_instancing values (new options) (new_instancing options)) as H.
  destruct (assignAll_frame values (new options)) as (Hn & Ht & Hg).
  fold n in H, Hn, Ht, Hg. unfold ModelExperimentalNode.instancingOf in H. rewrite Hn, Ht, Hg in H.
  change (_node (new options)) with (options_node options) in H.
  change (_transformToRoot (new options)) with (options_transformToRoot options) in H.
  change (_sceneGraph (new options)) with (options_sceneGraph options) in H.
  rewrite H. destruct (instances (options_node options)) as [i |]; split.
  - split; eauto.
  - intros m Hm. inversion Hm. reflexivity.
  - split; intros [x Hx]; discriminate.
  - intros m Hm. discriminate.
Qed.

(** C8.  Assigning to [transform] a value that [Matrix4.equals] finds
    equal to the current one returns the node as it is: stored transform,
    dirty flag and instancing transform are untouched.  In particular a
    second assignment of a value equal to itself changes nothing, also
    after the dirty flag has been cleared in between. *)
Theorem transform_set_same_value (n : Node) value :
  (Matrix4_equals (_transform n) value = true -> transform_set value n = n) /\
  (Matrix4_equals value value = true ->
   transform_set value (transform_set value n) = transform_set value n /\
   forall n' : Node, _transform n' = _transform (transform_set value n) ->
     Matrix4_equals (_transform n) value = false ->
     transform_set value n' = n').
Proof.
  split.
  - intros H. unfold transform_set, ModelExperimentalNode.transform_set.
    rewrite H. reflexivity.
  - intros Hrefl. split.
    + unfold transform_set, ModelExperimentalNode.transform_set.
      destruct (Matrix4_equals (_transform n) value) eqn:E.
      * rewrite E. reflexivity.
      * simpl. unfold Matrix4_clone. rewrite Hrefl. reflexivity.
    + intros n' Hn' E. unfold transform_set, ModelExperimentalNode.transform_set in *.
      rewrite E in Hn'. simpl in Hn'. unfold Matrix4_clone in Hn'.
      rewrite Hn', Hrefl. reflexivity.
Qed.

End NodeFacts.

(* ================================================================== *)
(** * Label *)
(* ================================================================== *)

Section LabelFacts.

Import Label.

Lemma mark_dirty m w label :
  isDirty w label = true -> isDirty (mark m w) label = true.
Proof.
  unfold isDirty. intros H.
  destruct m as [l | l]; simpl;
    unfold rebindAllGlyphs, repositionAllGlyphs;
    destruct (negb _ && negb _); simpl;
    (destruct (decide (l = label)) as [-> | Hne];
     [ rewrite lookup_total_insert_eq; simpl; auto using orb_true_r
     | rewrite lookup_total_insert_ne by exact Hne; exact H ]).
Qed.

Lemma mark_list_dirty m w :
  isDirty w (match m with Rebind l | Reposition l => l end) = true ->
  _labelsToUpdate (mark m w) = _labelsToUpdate w.
Proof.
  unfold isDirty. destruct m as [l | l]; simpl;
    unfold rebindAllGlyphs, repositionAllGlyphs;
    destruct (_rebindAllGlyphs (labels w !!! l)), (_repositionAllGlyphs (labels w !!! l));
    simpl; intros H; try discriminate; reflexivity.
Qed.

Lemma mark_list_clean m w :
  isDirty w (match m with Rebind l | Reposition l => l end) = false ->
  _labelsToUpdate (mark m w) =
  _labelsToUpdate w ++ [match m with Rebind l | Reposition l => l end].
Proof.
  unfold isDirty. destruct m as [l | l]; simpl;
    unfold rebindAllGlyphs, repositionAllGlyphs;
    destruct (_rebindAllGlyphs (labels w !!! l)), (_repositionAllGlyphs (labels w !!! l));
    simpl; intros H; try discriminate; reflexivity.
Qed.

Lemma mark_sets_dirty m w :
  isDirty (mark m w) (match m with Rebind l | Reposition l => l end) = true.
Proof.
  unfold isDirty. destruct m as [l | l]; simpl;
    unfold rebindAllGlyphs, repositionAllGlyphs;
    destruct (negb _ && negb _); simpl; rewrite lookup_total_insert_eq; simpl;
    auto using orb_true_r.
Qed.

Lemma mark_pendingOnce m w : pendingOnce w -> pendingOnce (mark m w).
Proof.
  intros [Hnd Hd].
  set (l := match m with Rebind l | Reposition l => l end).
  destruct (isDirty w l) eqn:E.
  - split.
    + rewrite (mark_list_dirty m w E). exact Hnd.
    + intros label Hl. rewrite (mark_list_dirty m w E) in Hl.
      apply mark_dirty, Hd, Hl.
  - split.
    + rewrite (mark_list_clean m w E). apply NoDup_app. split; [exact Hnd |].
      split; [| apply NoDup_singleton].
      intros x Hx Hx'. apply list_elem_of_singleton in Hx'. subst x.
      rewrite (Hd l Hx) in E. discriminate.
    + intros label Hl. rewrite (mark_list_clean m w E) in Hl.
      apply elem_of_app in Hl as [Hl | Hl].
      * apply mark_dirty, Hd, Hl.
      * apply list_elem_of_singleton in Hl. subst label. apply mark_sets_dirty.
Qed.

Lemma markAll_pendingOnce ms : forall w, pendingOnce w -> pendingOnce (markAll ms w).
Proof.
  induction ms as [| m ms IH]; intros w H; [exact H |].
  apply IH, mark_pendingOnce, H.
Qed.

(** C10.  A dirty-marking call on a label with a flag already set leaves
    the pending-update list as it is and sets its flag; on a clean label
    it appends the label.  Hence, from a list without duplicates that
    holds dirty labels only (the empty one to begin with), no sequence of
    dirty-marking calls puts a label twice in the list. *)
Theorem labelsToUpdate_push_once w label :
  (isDirty w label = true ->
   _labelsToUpdate (rebindAllGlyphs label w) = _labelsToUpdate w /\
   _labelsToUpdate (repositionAllGlyphs label w) = _labelsToUpdate w /\
   _rebindAllGlyphs (labels (rebindAllGlyphs label w) !!! label) = true /\
   _repositionAllGlyphs (labels (repositionAllGlyphs label w) !!! label) = true) /\
  (isDirty w label = false ->
   _labelsToUpdate (rebindAllGlyphs label w) = _labelsToUpdate w ++ [label] /\
   _labelsToUpdate (repositionAllGlyphs label w) = _labelsToUpdate w ++ [label]) /\
  (forall ms,
     NoDup (_labelsToUpdate w) ->
     (forall l, l ∈ _labelsToUpdate w -> isDirty w l = true) ->
     NoDup (_labelsToUpdate (markAll ms w))).
Proof.
  split; [| split].
  - intros H. split; [exact (mark_list_dirty (Rebind label) w H) |].
    split; [exact (mark_list_dirty (Reposition label) w H) |].
    unfold rebindAllGlyphs, repositionAllGlyphs.
    split; destruct (negb _ && negb _); simpl; rewrite lookup_total_insert_eq;
      reflexivity.
  - intros H. split.
    + exact (mark_list_clean (Rebind label) w H).
    + exact (mark_list_clean (Reposition label) w H).
  - intros ms Hnd Hd. apply (markAll_pendingOnce ms w). split; assumption.
Qed.

End LabelFacts.


(* ================================================================== *)
(** * More on the collection *)
(* ================================================================== *)

Section AssociativeArrayKeys.

Import AssociativeArray.

Local Notation uniqueIds := EntityCollection.uniqueIds.

Lemma get_None_keys key a : get key a = None <-> key ∉ a.*1.
Proof.
  induction a as [| [k v] a IH]; simpl.
  - split; [intros _ H; inversion H | reflexivity].
  - destruct (String.eqb_spec key k) as [-> | Hne].
    + split; [discriminate | intros H; exfalso; apply H, list_elem_of_here].
    + rewrite IH. rewrite not_elem_of_cons. tauto.
Qed.

Lemma keys_delete key a k : k ∈ (delete key a).*1 -> k ∈ a.*1.
Proof.
  induction a as [| [k' v] a IH]; simpl; [auto |].
  destruct (String.eqb key k'); simpl; rewrite ?elem_of_cons; tauto.
Qed.

Lemma uniqueIds_delete key a : uniqueIds a -> uniqueIds (delete key a).
Proof.
  unfold uniqueIds. induction a as [| [k v] a IH]; simpl; [auto |].
  intros H. apply NoDup_cons in H as [Hk Ha].
  destruct (String.eqb key k); simpl; [auto |].
  apply NoDup_cons. split; [| auto]. intros Hin. apply Hk, (keys_delete _ _ _ Hin).
Qed.

Lemma uniqueIds_set key value a : uniqueIds a -> uniqueIds (set key value a).
Proof.
  intros H. unfold set.
  assert (Hd : uniqueIds (delete key a ++ [(key, value)])).
  { unfold uniqueIds. rewrite fmap_app. apply NoDup_app. split; [| split].
    - apply uniqueIds_delete, H.
    - intros k Hk Hin. apply list_elem_of_singleton in Hin. simpl in Hin. subst k.
      apply (proj1 (get_None_keys key (delete key a)) (get_delete key a)), Hk.
    - simpl. apply NoDup_singleton. }
  destruct (get key a) as [old |]; [destruct (Nat.eqb old value) |]; assumption.
Qed.

Lemma get_unique key a r : uniqueIds a -> (key, r) ∈ a -> get key a = Some r.
Proof.
  unfold uniqueIds. induction a as [| [k v] a IH]; simpl; intros Hu Hin; [inversion Hin |].
  apply NoDup_cons in Hu as [Hk Ha].
  apply elem_of_cons in Hin as [Heq | Hin].
  - inversion Heq; subst. rewrite String.eqb_refl. reflexivity.
  - destruct (String.eqb_spec key k) as [-> | Hne]; [| auto].
    exfalso. apply Hk. apply list_elem_of_fmap. exists (k, r). auto.
Qed.

End AssociativeArrayKeys.

Section UniqueIdsFacts.

Import EntityCollection.

Lemma KeepsUnique_ret {A} (a : A) : KeepsUnique (ret a).
Proof. intros w H. exact H. Qed.

Lemma KeepsUnique_throw {A} err : KeepsUnique (@throw A err).
Proof. intros w H. exact H. Qed.

Lemma KeepsUnique_get : KeepsUnique get.
Proof. intros w H. exact H. Qed.

Lemma KeepsUnique_bind {A B} (m : M A) (k : A -> M B) :
  KeepsUnique m -> (forall a, KeepsUnique (k a)) -> KeepsUnique (bind m k).
Proof.
  intros Hm Hk w H. unfold bind. specialize (Hm w H).
  destruct (m w) as [a w1 | |]; [exact (Hk a w1 Hm) | exact Hm | exact I].
Qed.

Lemma KeepsUnique_update f :
  (forall c, uniqueIds (_entities c) -> uniqueIds (_entities (f c))) ->
  KeepsUnique (update f).
Proof. intros Hf w H. exact (Hf _ H). Qed.

Lemma KeepsUnique_updateEntity r f : KeepsUnique (updateEntity r f).
Proof. intros w H. exact H. Qed.

Lemma KeepsUnique_record_signalled s : KeepsUnique (record_signalled s).
Proof. intros w H. exact H. Qed.

Lemma KeepsUnique_record_raised b : KeepsUnique (record_raised b).
Proof. intros w H. exact H. Qed.

Lemma KeepsUnique_when b (m : M unit) : KeepsUnique m -> KeepsUnique (when b m).
Proof. intros H. destruct b; [exact H | apply KeepsUnique_ret]. Qed.

Lemma KeepsUnique_repeatM n (m : M unit) : KeepsUnique m -> KeepsUnique (repeatM n m).
Proof.
  intros H. induction n as [| n IH]; simpl; [apply KeepsUnique_ret |].
  apply KeepsUnique_bind; [exact H | intros _; exact IH].
Qed.

Section UniqueCalls.

Variable createGuid : ref -> string.
Variable subscribers : list Subscriber.

Lemma KeepsUnique_new_Entity o : KeepsUnique (new_Entity createGuid o).
Proof. intros w H. exact H. Qed.

Ltac unique_step :=
  match goal with
  | |- KeepsUnique (ret _) => apply KeepsUnique_ret
  | |- KeepsUnique (throw _) => apply KeepsUnique_throw
  | |- KeepsUnique get => apply KeepsUnique_get
  | |- KeepsUnique (record_signalled _) => apply KeepsUnique_record_signalled
  | |- KeepsUnique (record_raised _) => apply KeepsUnique_record_raised
  | |- KeepsUnique (new_Entity _ _) => apply KeepsUnique_new_Entity
  | |- KeepsUnique (update _) =>
      apply KeepsUnique_update; intros []; simpl;
      solve [auto using uniqueIds_delete, uniqueIds_set | intros _; apply NoDup_nil_2]
  | |- KeepsUnique (updateEntity _ _) => apply KeepsUnique_updateEntity
  | |- KeepsUnique (when _ _) => apply KeepsUnique_when
  | |- KeepsUnique (repeatM _ _) => apply KeepsUnique_repeatM
  | |- KeepsUnique (bind _ _) => apply KeepsUnique_bind
  | |- KeepsUnique (let _ := _ in _) => cbv zeta
  | |- KeepsUnique (if ?b then _ else _) => destruct b
  | |- KeepsUnique (match ?x with _ => _ end) => destruct x
  | |- forall _, _ => intro
  | H : KeepsUnique ?m |- KeepsUnique ?m => exact H
  end.
Ltac unique := repeat unique_step.

Section WithFire.

Variable fire : M unit.
Hypothesis Hfire : KeepsUnique fire.

Lemma KeepsUnique_suspendEvents : KeepsUnique suspendEvents.
Proof. unfold suspendEvents. unique. Qed.

Lemma KeepsUnique_resumeEvents : KeepsUnique (resumeEvents fire).
Proof. unfold resumeEvents. unique. Qed.

Lemma KeepsUnique_onEntityDefinitionChanged r :
  KeepsUnique (_onEntityDefinitionChanged fire r).
Proof. unfold _onEntityDefinitionChanged. unique. Qed.

Lemma KeepsUnique_definitionChanged_raiseEvent r :
  KeepsUnique (definitionChanged_raiseEvent fire r).
Proof.
  unfold definitionChanged_raiseEvent. unique;
    try apply KeepsUnique_onEntityDefinitionChanged.
Qed.

Lemma KeepsUnique_show_set_loop es : forall os, KeepsUnique (show_set_loop fire es os).
Proof.
  induction es as [| e es IH]; intros [| o os]; simpl; try apply KeepsUnique_ret.
  unique; try apply KeepsUnique_definitionChanged_raiseEvent; try apply IH.
Qed.

Lemma KeepsUnique_show_set v : KeepsUnique (show_set fire v).
Proof.
  unfold show_set. unique;
    try apply KeepsUnique_suspendEvents; try apply KeepsUnique_show_set_loop;
    try apply KeepsUnique_resumeEvents.
Qed.

Lemma KeepsUnique_add e : KeepsUnique (add createGuid fire e).
Proof. unfold add. unique. Qed.

Lemma KeepsUnique_removeById id : KeepsUnique (removeById fire id).
Proof. unfold removeById. unique. Qed.

Lemma KeepsUnique_remove e : KeepsUnique (remove fire e).
Proof.
  destruct e as [r |]; [| apply KeepsUnique_ret]. unfold remove.
  apply KeepsUnique_bind; [apply KeepsUnique_get | intros w; apply KeepsUnique_removeById].
Qed.

Lemma KeepsUnique_removeAll_loop items : KeepsUnique (removeAll_loop items).
Proof. induction items as [| item items IH]; simpl; unique. Qed.

Lemma KeepsUnique_removeAll : KeepsUnique (removeAll fire).
Proof. unfold removeAll. unique; try apply KeepsUnique_removeAll_loop. Qed.

Lemma KeepsUnique_getOrCreateEntity id : KeepsUnique (getOrCreateEntity createGuid fire id).
Proof.
  destruct id as [id |]; [| apply KeepsUnique_throw]. unfold getOrCreateEntity.
  apply KeepsUnique_bind; [apply KeepsUnique_get | intros w].
  destruct (AssociativeArray.get id (_entities (this w))); [apply KeepsUnique_ret |].
  apply KeepsUnique_bind; [apply KeepsUnique_new_Entity | intros r].
  apply KeepsUnique_bind; [apply KeepsUnique_add | intros _; apply KeepsUnique_ret].
Qed.

Lemma KeepsUnique_perform c : KeepsUnique (perform createGuid fire c).
Proof.
  destruct c; simpl;
    auto using KeepsUnique_suspendEvents, KeepsUnique_resumeEvents, KeepsUnique_show_set,
      KeepsUnique_removeAll, KeepsUnique_definitionChanged_raiseEvent;
    (apply KeepsUnique_bind; [| intros; apply KeepsUnique_ret]);
    auto using KeepsUnique_add, KeepsUnique_remove, KeepsUnique_removeById,
      KeepsUnique_getOrCreateEntity.
Qed.

Lemma KeepsUnique_performAll cs : KeepsUnique (performAll createGuid fire cs).
Proof.
  induction cs as [| c cs IH]; simpl; [apply KeepsUnique_ret |].
  apply KeepsUnique_bind; [apply KeepsUnique_perform | intros _; exact IH].
Qed.

Lemma KeepsUnique_notify b ls : KeepsUnique (notify createGuid fire b ls).
Proof.
  induction ls as [| l ls IH]; simpl; [apply KeepsUnique_ret |].
  apply KeepsUnique_bind; [apply KeepsUnique_get | intros w].
  apply KeepsUnique_bind; [apply KeepsUnique_performAll | intros _; exact IH].
Qed.

Lemma KeepsUnique_pass : KeepsUnique (pass createGuid subscribers fire).
Proof.
  unfold pass, collectionChanged_raiseEvent. unique. apply KeepsUnique_notify.
Qed.

End WithFire.

Lemma KeepsUnique_fireChangedEvent fuel :
  KeepsUnique (fireChangedEvent createGuid subscribers fuel) /\
  KeepsUnique (doWhile createGuid subscribers fuel).
Proof.
  induction fuel as [| n [IHf IHd]]; [split; intros w H; exact I |].
  split.
  - simpl. unique.
  - simpl. apply KeepsUnique_bind; [apply KeepsUnique_pass; exact IHf | intros _].
    unique.
Qed.

End UniqueCalls.

End UniqueIdsFacts.

Section CollectionUse.

Import EntityCollection.

Variable createGuid : ref -> string.
Variable subscribers : list Subscriber.

Local Notation fireChangedEvent := (fireChangedEvent createGuid subscribers).
Local Notation idleOn := (idleOn subscribers).

(** X1.  Whatever calls have been made on a new collection, and whether
    the last of them returned or threw: every entity of [values] is the
    one [getById] finds under its id, and [contains] says it is there;
    and every entity staged as added is in the collection under its
    id. *)
Theorem collection_files_by_id h ra si fuel calls :
  match performAll createGuid (fireChangedEvent fuel) calls (mkState h new ra si) with
  | Return _ w | Throw _ w =>
      (forall r, r ∈ AssociativeArray.values (_entities (this w)) ->
         getById (Entity.id (heap w !!! r)) w = Return (Some r) w /\
         contains r w = Return true w) /\
      (forall r, r ∈ added (pending (this w)) ->
         AssociativeArray.contains (Entity.id (heap w !!! r)) (_entities (this w)) = true)
  | OutOfFuel => True
  end.
Proof.
  pose proof (Keeps_performAll createGuid _
                (proj1 (Keeps_fireChangedEvent createGuid subscribers fuel)) calls
                (mkState h new ra si) (WellFiled_new h ra si)) as HW.
  pose proof (KeepsUnique_performAll createGuid _
                (proj1 (KeepsUnique_fireChangedEvent createGuid subscribers fuel)) calls
                (mkState h new ra si) (NoDup_nil_2 : uniqueIds (_entities (this (mkState h new ra si)))))
    as HU.
  assert (Hgoal : forall w, WellFiled w -> uniqueIds (_entities (this w)) ->
            (forall r, r ∈ AssociativeArray.values (_entities (this w)) ->
               getById (Entity.id (heap w !!! r)) w = Return (Some r) w /\
               contains r w = Return true w) /\
            (forall r, r ∈ added (pending (this w)) ->
               AssociativeArray.contains (Entity.id (heap w !!! r)) (_entities (this w)) = true)).
  { intros w (H1 & H2 & H3 & H4) Hu. split.
    - intros r Hin. apply elem_values in Hin as [k Hin].
      destruct (H1 k r Hin) as [_ Hk].
      pose proof (get_unique k _ r Hu Hin) as Hget.
      unfold getById, contains, bind, ret, get. rewrite Hk, Hget, Nat.eqb_refl. auto.
    - intros r Hin. apply elem_values in Hin as [k Hin].
      destruct (H2 k r Hin) as [_ Hk]. rewrite Hk. exact (H4 k r Hin). }
  destruct (performAll createGuid (fireChangedEvent fuel) calls (mkState h new ra si));
    [apply Hgoal; assumption | apply Hgoal; assumption | exact I].
Qed.

(** A call of [fireChangedEvent] outside a delivery, on a suspended
    collection or with subscribers that make no call, returns and leaves
    the entities, the store and the counters as they were. *)
Lemma fireChangedEvent_settles n w :
  _firing (this w) = false ->
  _suspendCount (this w) <> 0%Z \/ (forall b, idleOn b) ->
  exists w',
    fireChangedEvent (S (S n)) w = Return tt w' /\
    heap w' = heap w /\ _entities (this w') = _entities (this w) /\
    _firing (this w') = false /\ _suspendCount (this w') = _suspendCount (this w) /\
    _show (this w') = _show (this w) /\ signalled w' = signalled w.
Proof.
  intros Hf H.
  destruct (Z.eq_dec (_suspendCount (this w)) 0%Z) as [Hc | Hc].
  - destruct H as [H | H]; [contradiction |].
    destruct (hasPending (this w)) eqn:Hp.
    + rewrite (fireChangedEvent_idle createGuid subscribers n w Hf Hc Hp (H _)).
      eexists. split; [reflexivity |]. destruct w as [h [] ra si]. simpl in *. auto 10.
    + rewrite (fireChangedEvent_nothing_pending createGuid subscribers _ w Hf Hp).
      eexists. split; [reflexivity |]. auto 10.
  - rewrite (fireChangedEvent_suspended createGuid subscribers _ w Hf Hc).
    eexists. split; [reflexivity |]. auto 10.
Qed.

(** [removeById] of an id that is not in the collection. *)
Lemma removeById_absent (fire : M unit) w id :
  AssociativeArray.contains id (_entities (this w)) = false ->
  removeById fire (Some id) w = Return false w.
Proof.
  intros Hc. unfold removeById, bind, get, update, ret. simpl. rewrite Hc. simpl.
  apply contains_false in Hc. destruct w as [h [] ra si]. unfold with_this, set_entities.
  simpl in *. rewrite (delete_absent _ _ Hc). reflexivity.
Qed.

(** X2.  Removing what is not there changes nothing and returns false:
    [removeById] and [remove] without an argument, [removeById] with an id
    that is not in the collection, [remove] with an entity whose id is
    not.  No event is raised and no flag is set, whatever the state of
    the delivery. *)
Theorem removeById_missing (fire : M unit) w :
  removeById fire None w = Return false w /\
  remove fire None w = Return false w /\
  (forall id, AssociativeArray.contains id (_entities (this w)) = false ->
     removeById fire (Some id) w = Return false w) /\
  (forall r,
     AssociativeArray.contains (Entity.id (heap w !!! r)) (_entities (this w)) = false ->
     remove fire (Some r) w = Return false w).
Proof.
  split; [reflexivity |]. split; [reflexivity |].
  split; [intros id Hc; apply removeById_absent, Hc |].
  intros r Hc. unfold remove, bind at 1, get. apply removeById_absent, Hc.
Qed.

(** X3.  Outside a delivery, on a suspended collection or with
    subscribers that make no call, [add] of an entity whose id is not in
    the collection returns the entity; afterwards [getById] finds it
    under its id, [contains] is true, it is the last of [values], it
    belongs to a collection and the collection listens to its
    [definitionChanged] event once more than before. *)
Theorem add_then_lookup n w r :
  let id := Entity.id (heap w !!! r) in
  _firing (this w) = false ->
  _suspendCount (this w) <> 0%Z \/ (forall b, idleOn b) ->
  AssociativeArray.contains id (_entities (this w)) = false ->
  exists w',
    add createGuid (fireChangedEvent (S (S n))) (Some (Instance r)) w = Return r w' /\
    getById id w' = Return (Some r) w' /\
    contains r w' = Return true w' /\
    AssociativeArray.values (_entities (this w')) =
      AssociativeArray.values (_entities (this w)) ++ [r] /\
    Entity.entityCollection (heap w' !!! r) = true /\
    Entity.definitionChanged (heap w' !!! r) = S (Entity.definitionChanged (heap w !!! r)).
Proof.
  intros id Hf Hq He.
  rewrite (add_unfold createGuid _ r w He). unfold bind.
  destruct (fireChangedEvent_settles n (addStaged r w)) as (w' & Hrun & Hh & Hen & _);
    [destruct w as [h [] ra si]; exact Hf
    | destruct w as [h [] ra si]; exact Hq |].
  rewrite Hrun. exists w'. split; [reflexivity |].
  assert (Hheap : heap w' !!! r =
            Entity.addEventListener (Entity.entityCollection_set true (heap w !!! r))).
  { rewrite Hh. destruct w as [h [] ra si]. simpl. apply lookup_total_insert_eq. }
  assert (Hent : _entities (this w') = AssociativeArray.set id r (_entities (this w))).
  { rewrite Hen. destruct w as [h [] ra si]. reflexivity. }
  assert (Hget : AssociativeArray.get id (_entities (this w')) = Some r)
    by (rewrite Hent; apply get_set).
  split; [unfold getById, bind, get, ret; rewrite Hget; reflexivity |].
  split.
  { unfold contains, bind, get, ret. rewrite Hheap. simpl. fold id.
    rewrite Hget, Nat.eqb_refl. reflexivity. }
  split.
  { rewrite Hent. unfold AssociativeArray.set.
    apply contains_false in He. rewrite He, (delete_absent _ _ He).
    unfold AssociativeArray.values. rewrite map_app. reflexivity. }
  rewrite Hheap. split; reflexivity.
Qed.

Lemma removeStaged_frame id r w :
  _firing (this (removeStaged id r w)) = _firing (this w) /\
  _suspendCount (this (removeStaged id r w)) = _suspendCount (this w) /\
  _entities (this (removeStaged id r w)) = AssociativeArray.delete id (_entities (this w)) /\
  raised (removeStaged id r w) = raised w.
Proof.
  destruct w as [h [en ad re ch cnt sh fi rf] ra si]. simpl.
  destruct (AssociativeArray.contains id ad); auto.
Qed.

Lemma addStaged_frame r w :
  _firing (this (addStaged r w)) = _firing (this w) /\
  _suspendCount (this (addStaged r w)) = _suspendCount (this w) /\
  _entities (this (addStaged r w)) =
    AssociativeArray.set (Entity.id (heap w !!! r)) r (_entities (this w)) /\
  raised (addStaged r w) = raised w.
Proof. destruct w as [h [en ad re ch cnt sh fi rf] ra si]. simpl. auto. Qed.

Lemma addStaged_heap r w :
  heap (addStaged r w) !!! r
  = Entity.addEventListener (Entity.entityCollection_set true (heap w !!! r)).
Proof. unfold addStaged. simpl. apply lookup_total_insert_eq. Qed.

(** X4.  Outside a delivery, on a suspended collection or with
    subscribers that make no call, [removeById] of an id that is in the
    collection returns true; afterwards [getById] finds nothing under the
    id, every other id is filed as before, the collection has taken its
    listener off the entity, and a second [removeById] returns false and
    changes nothing. *)
Theorem removeById_then_lookup n w id r :
  _firing (this w) = false ->
  _suspendCount (this w) <> 0%Z \/ (forall b, idleOn b) ->
  AssociativeArray.get id (_entities (this w)) = Some r ->
  exists w',
    removeById (fireChangedEvent (S (S n))) (Some id) w = Return true w' /\
    getById id w' = Return None w' /\
    (forall k, k <> id ->
       AssociativeArray.get k (_entities (this w')) =
       AssociativeArray.get k (_entities (this w))) /\
    Entity.definitionChanged (heap w' !!! r) = Nat.pred (Entity.definitionChanged (heap w !!! r)) /\
    removeById (fireChangedEvent (S (S n))) (Some id) w' = Return false w'.
Proof.
  intros Hf Hq He.
  rewrite (removeById_unfold _ id r w He). unfold bind.
  destruct (removeStaged_frame id r w) as (Hf' & Hc' & He' & _).
  destruct (fireChangedEvent_settles n (removeStaged id r w)) as (w' & Hrun & Hh & Hen & _);
    [rewrite Hf'; exact Hf | rewrite Hc'; exact Hq |].
  rewrite Hrun. exists w'. split; [reflexivity |].
  assert (Hent : _entities (this w') = AssociativeArray.delete id (_entities (this w))).
  { rewrite Hen. exact He'. }
  assert (Hget : AssociativeArray.get id (_entities (this w')) = None)
    by (rewrite Hent; apply get_delete).
  split; [unfold getById, bind, get, ret; rewrite Hget; reflexivity |].
  split; [intros k Hk; rewrite Hent; apply get_delete_other, Hk |].
  split.
  { rewrite Hh. destruct w as [h [] ra si]. simpl. rewrite lookup_total_insert_eq.
    reflexivity. }
  apply removeById_absent, contains_false, Hget.
Qed.

(** X5.  Under suspension, removing an entity that was in the collection
    and not staged as added, and adding it again, leaves no trace in the
    staging arrays: its id is neither added, nor removed, nor changed;
    no event was raised, and [getById] finds the entity. *)
Theorem remove_add_cancels n w id r :
  _firing (this w) = false -> _suspendCount (this w) <> 0%Z ->
  AssociativeArray.get id (_entities (this w)) = Some r ->
  Entity.id (heap w !!! r) = id ->
  AssociativeArray.contains id (_addedEntities (this w)) = false ->
  exists w',
    (removeById (fireChangedEvent (S n)) (Some id) >>
     add createGuid (fireChangedEvent (S n)) (Some (Instance r))) w = Return r w' /\
    raised w' = raised w /\
    getById id w' = Return (Some r) w' /\
    _addedEntities (this w') = _addedEntities (this w) /\
    _removedEntities (this w') = AssociativeArray.delete id (_removedEntities (this w)) /\
    _changedEntities (this w') = AssociativeArray.delete id (_changedEntities (this w)) /\
    AssociativeArray.contains id (_addedEntities (this w')) = false /\
    AssociativeArray.contains id (_removedEntities (this w')) = false /\
    AssociativeArray.contains id (_changedEntities (this w')) = false.
Proof.
  intros Hf Hc He Hid Ha.
  destruct (removeStaged_frame id r w) as (Hf1 & Hc1 & He1 & Hr1).
  set (w1 := removeStaged id r w) in *.
  assert (Hid1 : Entity.id (heap w1 !!! r) = id).
  { unfold w1, removeStaged. simpl. rewrite lookup_total_insert_eq. exact Hid. }
  assert (Hn1 : AssociativeArray.contains (Entity.id (heap w1 !!! r)) (_entities (this w1))
                = false).
  { rewrite Hid1, He1. apply contains_false, get_delete. }
  destruct (addStaged_frame r w1) as (Hf2 & Hc2 & He2 & Hr2).
  exists (addStaged r w1).
  split.
  { unfold bind at 1. rewrite (removeById_unfold _ id r w He). unfold bind at 1.
    fold w1. rewrite (fireChangedEvent_suspended createGuid subscribers n w1)
      by (rewrite ?Hf1, ?Hc1; assumption).
    unfold ret at 1. rewrite (add_unfold createGuid _ r w1 Hn1). unfold bind.
    rewrite (fireChangedEvent_suspended createGuid subscribers n (addStaged r w1))
      by (rewrite ?Hf2, ?Hc2, ?Hf1, ?Hc1; assumption).
    reflexivity. }
  split; [rewrite Hr2; exact Hr1 |].
  split.
  { unfold getById, bind, get, ret. rewrite He2, Hid1, get_set. reflexivity. }
  assert (Hstaging :
    _addedEntities (this (addStaged r w1)) = _addedEntities (this w) /\
    _removedEntities (this (addStaged r w1)) =
      AssociativeArray.delete id (_removedEntities (this w)) /\
    _changedEntities (this (addStaged r w1)) =
      AssociativeArray.delete id (_changedEntities (this w))).
  { unfold addStaged. rewrite Hid1. unfold w1, removeStaged.
    destruct w as [h [en ad re ch cnt sh fi rf] ra si]. simpl in *. rewrite Ha. simpl.
    rewrite contains_set, delete_set. auto. }
  destruct Hstaging as (Had & Hre & Hch). rewrite Had, Hre, Hch.
  repeat split; try assumption; apply contains_false, get_delete.
Qed.

(** The keys of an array that files entities under their ids are the ids
    of its values. *)
Lemma filed_contains h a k :
  filed h a ->
  AssociativeArray.contains k a
  = existsb (fun item => String.eqb (Entity.id (h !!! item)) k) (AssociativeArray.values a).
Proof.
  intros Hfiled. induction a as [| [k' v] a IH]; [reflexivity |].
  assert (Hv : Entity.id (h !!! v) = k') by (apply (Hfiled k' v), list_elem_of_here).
  assert (Ha : filed h a) by (intros k0 r0 H0; apply Hfiled, list_elem_of_further, H0).
  unfold AssociativeArray.contains in *. simpl. rewrite Hv, (String.eqb_sym k' k).
  destruct (String.eqb k k'); [reflexivity | exact (IH Ha)].
Qed.

Lemma contains_set_eq key value a k :
  AssociativeArray.contains k (AssociativeArray.set key value a)
  = String.eqb k key || AssociativeArray.contains k a.
Proof.
  destruct (String.eqb_spec k key) as [-> | Hne]; simpl; [apply contains_set |].
  unfold AssociativeArray.contains, AssociativeArray.set.
  destruct (AssociativeArray.get key a) as [old |]; [destruct (Nat.eqb old value) |];
    try reflexivity;
    rewrite get_app, (get_delete_other _ _ _ Hne); simpl;
    destruct (String.eqb_spec k key); try contradiction;
    destruct (AssociativeArray.get k a); reflexivity.
Qed.

Lemma existsb_pointwise {A} (f g : A -> bool) l :
  (forall x, f x = g x) -> existsb f l = existsb g l.
Proof. intros H. induction l as [| x l IH]; simpl; [reflexivity | rewrite H, IH; reflexivity]. Qed.

(** The loop of [removeAll]: what it leaves in the removed staging array,
    by id. *)
Lemma removeAll_loop_spec items : forall w,
  exists w',
    removeAll_loop items w = Return tt w' /\
    (forall r, Entity.id (heap w' !!! r) = Entity.id (heap w !!! r)) /\
    _entities (this w') = _entities (this w) /\
    _addedEntities (this w') = _addedEntities (this w) /\
    _changedEntities (this w') = _changedEntities (this w) /\
    _suspendCount (this w') = _suspendCount (this w) /\
    _firing (this w') = _firing (this w) /\
    raised w' = raised w /\
    forall k,
      AssociativeArray.contains k (_removedEntities (this w'))
      = AssociativeArray.contains k (_removedEntities (this w))
        || (existsb (fun item => String.eqb (Entity.id (heap w !!! item)) k) items
            && negb (AssociativeArray.contains k (_addedEntities (this w)))).
Proof.
  induction items as [| item items IH]; intros w.
  - exists w. split; [reflexivity |]. repeat split; try reflexivity.
    intros k. simpl. rewrite orb_false_r. reflexivity.
  - simpl. unfold bind at 1, get. unfold bind at 1.
    destruct (AssociativeArray.contains (Entity.id (heap w !!! item))
                (_addedEntities (this w))) eqn:Ha; simpl.
    + destruct (IH w) as (w' & Hrun & Hid & He & Had & Hch & Hc & Hf & Hra & Hk).
      exists w'. split; [exact Hrun |]. repeat split; try assumption.
      intros k. rewrite Hk. f_equal.
      destruct (String.eqb_spec (Entity.id (heap w !!! item)) k) as [<- | Hne];
        [rewrite Ha; simpl; rewrite !andb_false_r; reflexivity | reflexivity].
    + match goal with |- context [removeAll_loop items ?x] => set (w1 := x) end.
      destruct (IH w1) as (w' & Hrun & Hid & He & Had & Hch & Hc & Hf & Hra & Hk).
      assert (Hid1 : forall r, Entity.id (heap w1 !!! r) = Entity.id (heap w !!! r)).
      { intros r. unfold w1. destruct w as [h [en ad re ch cnt sh fi rf] ra si]. simpl.
        destruct (decide (item = r)) as [-> | Hne];
          [rewrite lookup_total_insert_eq | rewrite lookup_total_insert_ne by exact Hne];
          reflexivity. }
      exists w'. split; [exact Hrun |].
      split; [intros r; rewrite Hid; apply Hid1 |].
      destruct w as [h [en ad re ch cnt sh fi rf] ra si]. simpl in *.
      repeat split; try assumption.
      intros k. rewrite Hk. rewrite contains_set_eq.
      rewrite (existsb_pointwise _ (fun item0 => String.eqb (Entity.id (h !!! item0)) k))
        by (intros x; rewrite Hid1; reflexivity).
      rewrite (String.eqb_sym k).
      destruct (String.eqb_spec (Entity.id (h !!! item)) k) as [<- | Hne]; simpl.
      * rewrite Ha. simpl. rewrite !orb_true_r. reflexivity.
      * destruct (AssociativeArray.contains k re); reflexivity.
Qed.

(** X6.  Under suspension, on a store where every entity is filed under
    its own id, [removeAll] returns, empties the collection and the added
    and changed arrays and raises nothing; an id is staged as removed
    afterwards exactly when it was before, or was in the collection
    without being staged as added. *)
Theorem removeAll_empties n w :
  _firing (this w) = false -> _suspendCount (this w) <> 0%Z ->
  filed (heap w) (_entities (this w)) ->
  exists w',
    removeAll (fireChangedEvent (S n)) w = Return tt w' /\
    _entities (this w') = [] /\
    _addedEntities (this w') = [] /\
    _changedEntities (this w') = [] /\
    raised w' = raised w /\
    forall k,
      AssociativeArray.contains k (_removedEntities (this w'))
      = AssociativeArray.contains k (_removedEntities (this w))
        || (AssociativeArray.contains k (_entities (this w))
            && negb (AssociativeArray.contains k (_addedEntities (this w)))).
Proof.
  intros Hf Hc Hfiled.
  destruct (removeAll_loop_spec (AssociativeArray.values (_entities (this w))) w)
    as (w1 & Hrun & Hid & He & Had & Hch & Hc1 & Hf1 & Hra & Hk).
  unfold removeAll, bind at 1, get. unfold bind at 1. rewrite Hrun.
  unfold bind, update. cbn -[EntityCollection.fireChangedEvent].
  rewrite fireChangedEvent_suspended;
    [| destruct w1 as [h1 [] ra1 si1]; simpl in *; congruence
     | destruct w1 as [h1 [] ra1 si1]; simpl in *; congruence].
  eexists. split; [reflexivity |].
  destruct w1 as [h1 [en1 ad1 re1 ch1 cnt1 sh1 fi1 rf1] ra1 si1]. simpl in *.
  repeat split; try assumption.
  intros k. rewrite Hk, (filed_contains _ _ k Hfiled). reflexivity.
Qed.

(** X7.  Outside a delivery, on a suspended collection or with
    subscribers that make no call, [getOrCreateEntity] returns an entity
    that [getById] then finds under the id, and a second call returns the
    same entity and changes nothing.  When the id was in the collection
    the first call changes nothing either; when it was not, the entity is
    a new one, with that id, at the end of [values]. *)
Theorem getOrCreateEntity_idempotent n w id :
  _firing (this w) = false ->
  _suspendCount (this w) <> 0%Z \/ (forall b, idleOn b) ->
  exists r w',
    getOrCreateEntity createGuid (fireChangedEvent (S (S n))) (Some id) w = Return r w' /\
    getById id w' = Return (Some r) w' /\
    getOrCreateEntity createGuid (fireChangedEvent (S (S n))) (Some id) w' = Return r w' /\
    (AssociativeArray.get id (_entities (this w)) = Some r -> w' = w) /\
    (AssociativeArray.get id (_entities (this w)) = None ->
     (r ∉ dom (heap w)) /\ Entity.id (heap w' !!! r) = id /\
     AssociativeArray.values (_entities (this w')) =
       AssociativeArray.values (_entities (this w)) ++ [r]).
Proof.
  intros Hf Hq.
  assert (Hagain : forall r w', AssociativeArray.get id (_entities (this w')) = Some r ->
            getOrCreateEntity createGuid (fireChangedEvent (S (S n))) (Some id) w'
            = Return r w').
  { intros r w' H. unfold getOrCreateEntity, bind, get. rewrite H. reflexivity. }
  destruct (AssociativeArray.get id (_entities (this w))) as [r |] eqn:He.
  - exists r, w. split; [apply Hagain, He |].
    split; [unfold getById, bind, get, ret; rewrite He; reflexivity |].
    split; [apply Hagain, He |]. split; [reflexivity | discriminate].
  - set (r := fresh (dom (heap w))).
    set (w0 := with_heap (fun h => <[r := Entity.mk id true None false 0]> h) w).
    assert (Hid0 : Entity.id (heap w0 !!! r) = id).
    { unfold w0. simpl. rewrite lookup_total_insert_eq. reflexivity. }
    assert (Hn0 : AssociativeArray.contains (Entity.id (heap w0 !!! r)) (_entities (this w0))
                  = false).
    { rewrite Hid0. apply contains_false. exact He. }
    destruct (addStaged_frame r w0) as (Hf1 & Hc1 & He1 & _).
    destruct (fireChangedEvent_settles n (addStaged r w0)) as (w' & Hrun & Hh & Hen & _);
      [rewrite Hf1; exact Hf | rewrite Hc1; exact Hq |].
    assert (Hget : AssociativeArray.get id (_entities (this w')) = Some r).
    { rewrite Hen, He1, Hid0. apply get_set. }
    exists r, w'. split.
    { unfold getOrCreateEntity, bind at 1, get. rewrite He.
      unfold bind at 1, new_Entity. cbn -[EntityCollection.fireChangedEvent EntityCollection.add].
      fold r. change (with_heap (fun h => <[r := Entity.mk id true None false 0]> h) w) with w0.
      unfold bind at 1. rewrite (add_unfold createGuid _ r w0 Hn0). unfold bind at 1.
      rewrite Hrun. reflexivity. }
    split; [unfold getById, bind, get, ret; rewrite Hget; reflexivity |].
    split; [apply Hagain, Hget |]. split; [discriminate |]. intros _.
    split; [apply is_fresh |]. split.
    + rewrite Hh, addStaged_heap. exact Hid0.
    + rewrite Hen, He1, Hid0. unfold AssociativeArray.set.
      change (_entities (this w0)) with (_entities (this w)).
      rewrite He, (delete_absent _ _ He). unfold AssociativeArray.values.
      rewrite map_app. reflexivity.
Qed.

(** X8.  Outside a delivery, not suspended, with nothing staged and
    subscribers that make no call when told of it, [add] of an entity
    whose id is not in the collection raises exactly one event, in which
    the entity is the only one added and none is removed or changed, and
    leaves nothing staged. *)
Theorem add_raises_added n w r :
  let id := Entity.id (heap w !!! r) in
  _firing (this w) = false -> _suspendCount (this w) = 0%Z ->
  staging (this w) = ([], [], []) ->
  AssociativeArray.contains id (_entities (this w)) = false ->
  idleOn (mkBatch [r] [] []) ->
  exists w',
    add createGuid (fireChangedEvent (S (S n))) (Some (Instance r)) w = Return r w' /\
    raised w' = raised w ++ [mkBatch [r] [] []] /\
    staging (this w') = ([], [], []) /\
    _firing (this w') = false /\
    _entities (this w') = AssociativeArray.set id r (_entities (this w)).
Proof.
  intros id Hf Hc Hs He Hidle.
  rewrite (add_unfold createGuid _ r w He). unfold bind.
  assert (Hp : pending (this (addStaged r w)) = mkBatch [r] [] []).
  { destruct w as [h [en ad re ch cnt sh fi rf] ra si]. simpl in *.
    inversion Hs; subst. reflexivity. }
  rewrite fireChangedEvent_idle.
  - eexists. split; [reflexivity |].
    destruct w as [h [en ad re ch cnt sh fi rf] ra si]. simpl in *.
    inversion Hs; subst. simpl. auto.
  - destruct w as [h [] ra si]; exact Hf.
  - destruct w as [h [] ra si]; exact Hc.
  - destruct w as [h [en ad re ch cnt sh fi rf] ra si]. simpl in *.
    inversion Hs; subst. reflexivity.
  - rewrite Hp. exact Hidle.
Qed.

(** X9.  Outside a delivery, not suspended, with nothing staged and
    subscribers that make no call when told of it, [removeById] of an id
    that is in the collection raises exactly one event, in which the
    entity is the only one removed and none is added or changed, and
    leaves nothing staged. *)
Theorem removeById_raises_removed n w id r :
  _firing (this w) = false -> _suspendCount (this w) = 0%Z ->
  staging (this w) = ([], [], []) ->
  AssociativeArray.get id (_entities (this w)) = Some r ->
  idleOn (mkBatch [] [r] []) ->
  exists w',
    removeById (fireChangedEvent (S (S n))) (Some id) w = Return true w' /\
    raised w' = raised w ++ [mkBatch [] [r] []] /\
    staging (this w') = ([], [], []) /\
    _firing (this w') = false /\
    _entities (this w') = AssociativeArray.delete id (_entities (this w)).
Proof.
  intros Hf Hc Hs He Hidle.
  rewrite (removeById_unfold _ id r w He). unfold bind.
  assert (Hp : pending (this (removeStaged id r w)) = mkBatch [] [r] []).
  { destruct w as [h [en ad re ch cnt sh fi rf] ra si]. simpl in *.
    inversion Hs; subst. reflexivity. }
  rewrite fireChangedEvent_idle.
  - eexists. split; [reflexivity |].
    destruct w as [h [en ad re ch cnt sh fi rf] ra si]. simpl in *.
    inversion Hs; subst. simpl. auto.
  - rewrite (proj1 (removeStaged_frame id r w)). exact Hf.
  - rewrite (proj1 (proj2 (removeStaged_frame id r w))). exact Hc.
  - destruct w as [h [en ad re ch cnt sh fi rf] ra si]. simpl in *.
    inversion Hs; subst. reflexivity.
  - rewrite Hp. exact Hidle.
Qed.

(** X10.  Suspensions nest: when the suspend count is k + 1, k calls of
    [resumeEvents] bring it to one and do nothing else; no event is
    raised and nothing staged is touched before the count reaches
    zero. *)
Theorem resumeEvents_nested n k w :
  _firing (this w) = false ->
  (_suspendCount (this w) = Z.of_nat (S k)) ->
  repeatM k (resumeEvents (fireChangedEvent (S n))) w
  = Return tt (with_this (set_suspendCount 1) w).
Proof.
  revert w. induction k as [| k IH]; intros w Hf Hc.
  - simpl. unfold ret. destruct w as [h [] ra si]. simpl in *. subst. reflexivity.
  - rewrite repeatM_S.
    rewrite resumeEvents_unfold by lia.
    rewrite fireChangedEvent_suspended;
      [| destruct w as [h [] ra si]; exact Hf
       | destruct w as [h [] ra si]; simpl in *; lia].
    rewrite IH;
      [| destruct w as [h [] ra si]; exact Hf
       | destruct w as [h [] ra si]; simpl in *; lia].
    destruct w as [h [] ra si]. reflexivity.
Qed.

End CollectionUse.

Section AvailabilityExact.

Import EntityCollection.

Variables MINIMUM_VALUE MAXIMUM_VALUE : JulianDate.t.

Local Notation starts := (restrictingStarts MINIMUM_VALUE).
Local Notation stops := (restrictingStops MAXIMUM_VALUE).

(** X26.  What [computeAvailability] returns, for any entities and any
    sentinels.  The starts that count are those that are neither the
    unbounded-past sentinel nor at or after the unbounded-future
    sentinel: the interval starts at the least of them, and at the
    unbounded-past sentinel when there is none.  The stops that count
    are those that are neither the unbounded-future sentinel nor at or
    before the unbounded-past sentinel: the interval stops at the
    greatest of them, and at the unbounded-future sentinel when there is
    none. *)
Theorem computeAvailability_exact w :
  let entities := AssociativeArray.values (_entities (this w)) in
  let result := computeAvailability MINIMUM_VALUE MAXIMUM_VALUE w in
  let counted := List.filter (fun s => s <? MAXIMUM_VALUE)%Z (starts w entities) in
  let counted' := List.filter (fun s => MINIMUM_VALUE <? s)%Z (stops w entities) in
  (counted = [] -> TimeInterval.start result = MINIMUM_VALUE) /\
  (counted <> [] ->
   TimeInterval.start result ∈ counted /\
   forall s, s ∈ counted -> (TimeInterval.start result <= s)%Z) /\
  (counted' = [] -> TimeInterval.stop result = MAXIMUM_VALUE) /\
  (counted' <> [] ->
   TimeInterval.stop result ∈ counted' /\
   forall s, s ∈ counted' -> (s <= TimeInterval.stop result)%Z).
Proof.
  intros entities result counted counted'. subst result. unfold computeAvailability.
  fold entities.
  pose proof (computeAvailability_loop_spec MINIMUM_VALUE MAXIMUM_VALUE w entities
                MAXIMUM_VALUE MINIMUM_VALUE) as H.
  cbv zeta in H.
  destruct (computeAvailability_loop MINIMUM_VALUE MAXIMUM_VALUE w entities
              MAXIMUM_VALUE MINIMUM_VALUE) as [st sp].
  simpl in H. destruct H as ((H1 & H2 & H3) & (H4 & H5 & H6)).
  unfold JulianDate.equals. simpl.
  assert (Hin : forall s, s ∈ counted <-> s ∈ starts w entities /\ (s < MAXIMUM_VALUE)%Z).
  { intros s. unfold counted. rewrite list_elem_of_In, filter_In, <- list_elem_of_In.
    rewrite Z.ltb_lt. tauto. }
  assert (Hin' : forall s, s ∈ counted' <-> s ∈ stops w entities /\ (MINIMUM_VALUE < s)%Z).
  { intros s. unfold counted'. rewrite list_elem_of_In, filter_In, <- list_elem_of_In.
    rewrite Z.ltb_lt. tauto. }
  split; [| split; [| split]].
  - intros He. destruct (Z.eqb_spec MAXIMUM_VALUE st) as [E | E]; [reflexivity |].
    exfalso. destruct H1 as [H1 | H1]; [congruence |].
    assert (Hc : st ∈ counted) by (apply Hin; split; [exact H1 | lia]).
    rewrite He in Hc. inversion Hc.
  - intros Hne. destruct (Z.eqb_spec MAXIMUM_VALUE st) as [E | E].
    + exfalso. destruct counted as [| s l] eqn:Ec; [contradiction |].
      assert (Hs : s ∈ s :: l) by apply list_elem_of_here.
      apply Hin in Hs as [Hs Hlt]. specialize (H3 s Hs). lia.
    + destruct H1 as [H1 | H1]; [congruence |].
      split; [apply Hin; split; [exact H1 | lia] |].
      intros s Hs. apply Hin in Hs as [Hs _]. apply H3, Hs.
  - intros He. destruct (Z.eqb_spec MINIMUM_VALUE sp) as [E | E]; [reflexivity |].
    exfalso. destruct H4 as [H4 | H4]; [congruence |].
    assert (Hc : sp ∈ counted') by (apply Hin'; split; [exact H4 | lia]).
    rewrite He in Hc. inversion Hc.
  - intros Hne. destruct (Z.eqb_spec MINIMUM_VALUE sp) as [E | E].
    + exfalso. destruct counted' as [| s l] eqn:Ec; [contradiction |].
      assert (Hs : s ∈ s :: l) by apply list_elem_of_here.
      apply Hin' in Hs as [Hs Hlt]. specialize (H6 s Hs). lia.
    + destruct H4 as [H4 | H4]; [congruence |].
      split; [apply Hin'; split; [exact H4 | lia] |].
      intros s Hs. apply Hin' in Hs as [Hs _]. apply H6, Hs.
Qed.

End AvailabilityExact.

(* ================================================================== *)
(** * More on the node *)
(* ================================================================== *)

Section NodeUse.

Import ModelExperimentalNode.

Variable Matrix4 : Type.
Variable Matrix4_equals : Matrix4 -> Matrix4 -> bool.
Variable Matrix4_multiply : Matrix4 -> Matrix4 -> Matrix4.
Variable Axis : Type.
Variable correctModelMatrix : Matrix4 -> Axis -> Axis -> Matrix4.
Variable Instances : Type.

Local Notation Node := (@ModelExperimentalNode.t Matrix4 Axis Instances).
Local Notation transform_set :=
  (ModelExperimentalNode.transform_set Matrix4_equals Matrix4_multiply correctModelMatrix).
Local Notation new :=
  (@ModelExperimentalNode.new Matrix4 Matrix4_multiply Axis correctModelMatrix Instances).
Local Notation Options := (@ModelExperimentalNode.ConstructorOptions Matrix4 Axis Instances).
Local Notation assignAll :=
  (ModelExperimentalNode.assignAll Matrix4_equals Matrix4_multiply correctModelMatrix).

(** What an assignment to [transform] leaves alone. *)
Lemma transform_set_keeps value (n : Node) :
  _originalTransform (transform_set value n) = _originalTransform n /\
  _children (transform_set value n) = _children n /\
  pipelineStages (transform_set value n) = pipelineStages n /\
  updateStages (transform_set value n) = updateStages n.
Proof.
  unfold ModelExperimentalNode.transform_set.
  destruct (Matrix4_equals (_transform n) value); simpl; auto.
Qed.

Lemma assignAll_keeps values : forall n : Node,
  _originalTransform (assignAll values n) = _originalTransform n /\
  _children (assignAll values n) = _children n /\
  pipelineStages (assignAll values n) = pipelineStages n /\
  updateStages (assignAll values n) = updateStages n.
Proof.
  induction values as [| v values IH]; intros n; simpl; [auto |].
  destruct (IH (transform_set v n)) as (H1 & H2 & H3 & H4).
  destruct (transform_set_keeps v n) as (K1 & K2 & K3 & K4).
  unfold ModelExperimentalNode.assignAll in *. simpl.
  rewrite H1, H2, H3, H4. auto.
Qed.

(** The stages of a constructed node, whatever was assigned since. *)
Lemma assignAll_stages (options : Options) values :
  pipelineStages (assignAll values (new options)) =
    match instances (options_node options) with
    | Some _ => [InstancingPipelineStage]
    | None => []
    end /\
  updateStages (assignAll values (new options)) = [ModelMatrixUpdateStage].
Proof.
  destruct (assignAll_keeps values (new options)) as (_ & _ & H3 & H4).
  rewrite H3, H4. unfold ModelExperimentalNode.new, configurePipeline. simpl.
  destruct (instances (options_node options)); auto.
Qed.

(** X11.  Whatever values are assigned to [transform] after the
    construction, [originalTransform] is the transform the node was
    constructed with, [transformToRoot] and [children] are those of the
    options, and the stages are those [configurePipeline] set: the
    instancing stage when the node has instances, and the model-matrix
    update stage. *)
Theorem originalTransform_kept (options : Options) values :
  let n := assignAll values (new options) in
  _originalTransform n = options_transform options /\
  _transformToRoot n = options_transformToRoot options /\
  _children n = options_children options /\
  pipelineStages n =
    match instances (options_node options) with
    | Some _ => [InstancingPipelineStage]
    | None => []
    end /\
  updateStages n = [ModelMatrixUpdateStage].
Proof.
  intros n. unfold n.
  destruct (assignAll_keeps values (new options)) as (H1 & H2 & H3 & H4).
  destruct (assignAll_frame Matrix4 Matrix4_equals Matrix4_multiply Axis correctModelMatrix
              Instances values (new options)) as (_ & H5 & _).
  destruct (assignAll_stages options values) as (Hp & Hu).
  rewrite H1, H2, H5, Hp, Hu.
  unfold ModelExperimentalNode.new, configurePipeline, Matrix4_clone. simpl. auto.
Qed.

(** X12.  [getChild] throws the DeveloperError for an index below zero
    or not below the number of children; for any other index it returns
    the runtime node the scene graph holds at the position that
    [children] gives for the index. *)
Theorem getChild_bounds (runtimeNodes : list Node) (n : Node) index :
  ((index < 0 \/ Z.of_nat (length (_children n)) <= index)%Z ->
   getChild runtimeNodes n index
   = inl (DeveloperError
            "index must be greater than or equal to 0 and less than the number of children.")) /\
  ((0 <= index < Z.of_nat (length (_children n)))%Z ->
   exists child,
     _children n !! Z.to_nat index = Some child /\
     getChild runtimeNodes n index = inr (runtimeNodes !! child)).
Proof.
  unfold getChild. split.
  - intros H.
    destruct (Z.ltb_spec index 0); [reflexivity |].
    destruct (Z.leb_spec (Z.of_nat (length (_children n))) index); [reflexivity | lia].
  - intros H.
    destruct (Z.ltb_spec index 0); [lia |].
    destruct (Z.leb_spec (Z.of_nat (length (_children n))) index); [lia |]. simpl.
    destruct (lookup_lt_is_Some_2 (_children n) (Z.to_nat index)) as [child Hc]; [lia |].
    exists child. rewrite Hc. auto.
Qed.

(** X13.  [configurePipeline] run twice is [configurePipeline] run
    once: the pipeline stages are the instancing stage when the node has
    instances and none otherwise, the update stages are the model-matrix
    update stage alone; and run again on a constructed node, whatever
    was assigned to [transform] since, it changes nothing. *)
Theorem configurePipeline_idempotent (n : Node) (options : Options) values :
  configurePipeline (configurePipeline n) = configurePipeline n /\
  pipelineStages (configurePipeline n) =
    match instances (_node n) with
    | Some _ => [InstancingPipelineStage]
    | None => []
    end /\
  updateStages (configurePipeline n) = [ModelMatrixUpdateStage] /\
  configurePipeline (assignAll values (new options)) = assignAll values (new options).
Proof.
  split; [reflexivity |]. split; [unfold configurePipeline; simpl;
    destruct (instances (_node n)); reflexivity |]. split; [reflexivity |].
  destruct (assignAll_stages options values) as (Hp & Hu).
  destruct (assignAll_frame Matrix4 Matrix4_equals Matrix4_multiply Axis correctModelMatrix
              Instances values (new options)) as (Hn & _ & _).
  destruct (assignAll values (new options)) as [sg ch nd tr ttr ot int td ps us].
  unfold configurePipeline. simpl in *. rewrite Hn, Hp, Hu.
  unfold ModelExperimentalNode.new, configurePipeline. simpl.
  destruct (instances (options_node options)); reflexivity.
Qed.

Lemma assignAll_dirty values : forall n : Node,
  (_transformDirty n = true -> _transformDirty (assignAll values n) = true) /\
  ((_transformDirty n = false -> _transform n = _originalTransform n) ->
   _transformDirty (assignAll values n) = false ->
   _transform (assignAll values n) = _originalTransform n).
Proof.
  induction values as [| v values IH]; intros n; [simpl; auto |].
  destruct (IH (transform_set v n)) as [IH1 IH2].
  change (assignAll (v :: values) n) with (assignAll values (transform_set v n)).
  split.
  - intros Hd. apply IH1. unfold ModelExperimentalNode.transform_set.
    destruct (Matrix4_equals (_transform n) v); [exact Hd | reflexivity].
  - intros Hinv Hclean.
    rewrite <- (proj1 (transform_set_keeps v n)). apply IH2; [| exact Hclean].
    unfold ModelExperimentalNode.transform_set.
    destruct (Matrix4_equals (_transform n) v); simpl; [exact Hinv | discriminate].
Qed.

(** X14.  A constructed node is clean.  Assigning [transform] a value
    that differs from the present one stores the value and sets
    [_transformDirty]; the flag, once set, stays set through any further
    assignments; and a constructed node that is still clean after a
    sequence of assignments has the transform it was constructed
    with. *)
Theorem transformDirty_tracks_writes (options : Options) (n : Node) value values :
  _transformDirty (new options) = false /\
  (Matrix4_equals (_transform n) value = false ->
   _transform (transform_set value n) = value /\
   _transformDirty (transform_set value n) = true) /\
  (_transformDirty n = true -> _transformDirty (assignAll values n) = true) /\
  (_transformDirty (assignAll values (new options)) = false ->
   _transform (assignAll values (new options)) = options_transform options).
Proof.
  split; [reflexivity |]. split.
  { intros H. unfold ModelExperimentalNode.transform_set. rewrite H. split; reflexivity. }
  split; [apply assignAll_dirty |].
  intros H. rewrite (proj2 (assignAll_dirty values (new options))); [reflexivity | | exact H].
  reflexivity.
Qed.

End NodeUse.

(* ================================================================== *)
(** * Properties of the statistics *)
(* ================================================================== *)

Section StatisticsFacts.

Import ModelStatistics.

Variable Number : Type.
Variables zero one two : Number.
Variables plus times : Number -> Number -> Number.

Local Notation Stats := (@ModelStatistics.t Number).
Local Notation addBuffer := (ModelStatistics.addBuffer one two plus times).
Local Notation addBuffers := (ModelStatistics.addBuffers one two plus times).
Local Notation addTexture := (ModelStatistics.addTexture plus).
Local Notation addTextures := (ModelStatistics.addTextures plus).
Local Notation bufferCost := (ModelStatistics.bufferCost one two times).
Local Notation batchTexturesByteLength := (ModelStatistics.batchTexturesByteLength zero plus).

Lemma assign_elem key o k : k ∈ assign key o -> k = key \/ k ∈ o.
Proof.
  unfold assign. destruct (String.eqb key "__proto__"); [auto |].
  rewrite elem_of_union, elem_of_singleton. auto.
Qed.

Lemma assign_mono key o k : k ∈ o -> k ∈ assign key o.
Proof.
  unfold assign. destruct (String.eqb key "__proto__"); [auto |].
  rewrite elem_of_union. auto.
Qed.

Lemma assign_ordinary key o : key <> "__proto__" -> key ∈ assign key o.
Proof.
  intros H. unfold assign. destruct (String.eqb_spec key "__proto__"); [contradiction |].
  rewrite elem_of_union, elem_of_singleton. auto.
Qed.

Lemma assign_present key o : key ∈ o -> assign key o = o.
Proof.
  intros H. unfold assign. destruct (String.eqb key "__proto__"); [reflexivity |].
  apply subseteq_union_1_L, singleton_subseteq_l, H.
Qed.

Lemma hasOwnProperty_safe o key :
  ("hasOwnProperty" ∉ o) -> hasOwnProperty o key = inr (bool_decide (key ∈ o)).
Proof. intros H. unfold hasOwnProperty. rewrite bool_decide_eq_false_2 by exact H. reflexivity. Qed.

(** A buffer whose id is counted already. *)
Lemma addBuffer_counted (b : Buffer) c (s : Stats) :
  ("hasOwnProperty" ∉ _bufferIdSet s) -> buffer_id b ∈ _bufferIdSet s ->
  addBuffer b c s = inr s.
Proof.
  intros Hs Hin. unfold ModelStatistics.addBuffer.
  rewrite (hasOwnProperty_safe _ _ Hs), (bool_decide_eq_true_2 _ Hin). simpl.
  rewrite (assign_present _ _ Hin). destruct s; reflexivity.
Qed.

(** A buffer whose id is not counted yet. *)
Lemma addBuffer_new (b : Buffer) c (s : Stats) :
  ("hasOwnProperty" ∉ _bufferIdSet s) -> buffer_id b ∉ _bufferIdSet s ->
  addBuffer b c s
  = inr (mk (pointsLength s) (trianglesLength s)
            (plus (geometryByteLength s) (bufferCost (b, c)))
            (texturesByteLength s) (propertyTablesByteLength s)
            (assign (buffer_id b) (_bufferIdSet s))
            (_textureIdSet s) (_batchTextureIdMap s)).
Proof.
  intros Hs Hin. unfold ModelStatistics.addBuffer.
  rewrite (hasOwnProperty_safe _ _ Hs), (bool_decide_eq_false_2 _ Hin). reflexivity.
Qed.

Lemma assign_safe key o :
  key <> "hasOwnProperty" -> ("hasOwnProperty" ∉ o) -> "hasOwnProperty" ∉ assign key o.
Proof. intros Hk Ho Hin. apply assign_elem in Hin as [Hin | Hin]; congruence. Qed.

(** Calls of [addBuffer] with ordinary ids keep the set usable and never
    forget an id. *)
Lemma addBuffers_safe bs : forall s : Stats,
  Forall (fun b => ordinary (buffer_id b.1)) bs ->
  ("hasOwnProperty" ∉ _bufferIdSet s) ->
  exists s', addBuffers bs s = inr s' /\
    ("hasOwnProperty" ∉ _bufferIdSet s') /\
    (forall k, k ∈ _bufferIdSet s -> k ∈ _bufferIdSet s').
Proof.
  induction bs as [| [b c] bs IH]; intros s Hord Hs; simpl.
  - exists s. auto.
  - apply Forall_cons in Hord as [[Hp Hh] Hord]. simpl in Hp, Hh.
    unfold ModelStatistics.addBuffer at 1. rewrite (hasOwnProperty_safe _ _ Hs).
    match goal with |- context [addBuffers bs ?x] => set (s1 := x) end.
    destruct (IH s1 Hord) as (s' & Hrun & Hs' & Hmono);
      [apply assign_safe; assumption |].
    exists s'. split; [exact Hrun |]. split; [exact Hs' |].
    intros k Hk. apply Hmono. simpl. apply assign_mono, Hk.
Qed.

(** X15.  For ids that are ordinary property names, on an id set that
    has no own property [hasOwnProperty]: once a buffer is added, and
    whatever buffers are added after it, adding a buffer with the same
    id, with or without a CPU copy, returns and changes nothing: the
    buffer is not counted twice. *)
Theorem addBuffer_counts_once (b : Buffer) c bs (s : Stats) :
  ordinary (buffer_id b) ->
  Forall (fun b' => ordinary (buffer_id b'.1)) bs ->
  ("hasOwnProperty" ∉ _bufferIdSet s) ->
  exists s1 s2,
    addBuffer b c s = inr s1 /\
    addBuffers bs s1 = inr s2 /\
    forall b' c', buffer_id b' = buffer_id b -> addBuffer b' c' s2 = inr s2.
Proof.
  intros [Hp Hh] Hord Hs.
  destruct (addBuffers_safe [(b, c)] s) as (s1 & Hrun1 & Hs1 & Hm1);
    [repeat constructor; assumption | exact Hs |].
  simpl in Hrun1. destruct (addBuffer b c s) as [e | s1'] eqn:E1; [discriminate |].
  inversion Hrun1; subst s1'.
  assert (Hin1 : buffer_id b ∈ _bufferIdSet s1).
  { unfold ModelStatistics.addBuffer in E1. rewrite (hasOwnProperty_safe _ _ Hs) in E1.
    inversion E1; subst s1. simpl. apply assign_ordinary, Hp. }
  destruct (addBuffers_safe bs s1 Hord Hs1) as (s2 & Hrun2 & Hs2 & Hm2).
  exists s1, s2. split; [reflexivity |]. split; [exact Hrun2 |].
  intros b' c' Hid. apply addBuffer_counted; [exact Hs2 |].
  pose proof (Hm2 _ Hin1) as H. rewrite <- Hid in H. exact H.
Qed.

(** X16.  Adding buffers with distinct, ordinary ids, none of them
    counted before, returns and adds to [geometryByteLength] the size of
    each buffer, twice for a buffer with a CPU copy, in the order of the
    calls; the other four counters are as they were. *)
Theorem addBuffers_distinct_sum bs : forall s : Stats,
  Forall (fun b => ordinary (buffer_id b.1)) bs ->
  NoDup (map (fun b => buffer_id b.1) bs) ->
  (forall b, b ∈ bs -> buffer_id b.1 ∉ _bufferIdSet s) ->
  ("hasOwnProperty" ∉ _bufferIdSet s) ->
  exists s',
    addBuffers bs s = inr s' /\
    geometryByteLength s' = fold_left plus (map bufferCost bs) (geometryByteLength s) /\
    texturesByteLength s' = texturesByteLength s /\
    pointsLength s' = pointsLength s /\
    trianglesLength s' = trianglesLength s /\
    propertyTablesByteLength s' = propertyTablesByteLength s.
Proof.
  induction bs as [| [b c] bs IH]; intros s Hord Hnd Hnew Hs; simpl.
  - exists s. auto 10.
  - apply Forall_cons in Hord as [[Hp Hh] Hord]. simpl in Hp, Hh.
    apply NoDup_cons in Hnd as [Hb Hnd].
    rewrite addBuffer_new; [| exact Hs | apply (Hnew (b, c)), list_elem_of_here].
    match goal with |- context [addBuffers bs ?x] => set (s1 := x) end.
    destruct (IH s1 Hord Hnd) as (s' & Hrun & Hg & Ht & Hpl & Htl & Hpt).
    + intros b' Hin' Hk. simpl in Hk. apply assign_elem in Hk as [Hk | Hk].
      * apply Hb. simpl. rewrite <- Hk. apply list_elem_of_fmap. exists b'. auto.
      * apply (Hnew b'); [apply list_elem_of_further, Hin' | exact Hk].
    + simpl. apply assign_safe; assumption.
    + exists s'. split; [exact Hrun |]. auto 10.
Qed.

Lemma addTexture_counted (x : Texture) (s : Stats) :
  ("hasOwnProperty" ∉ _textureIdSet s) -> texture_id x ∈ _textureIdSet s ->
  addTexture x s = inr s.
Proof.
  intros Hs Hin. unfold ModelStatistics.addTexture.
  rewrite (hasOwnProperty_safe _ _ Hs), (bool_decide_eq_true_2 _ Hin). simpl.
  rewrite (assign_present _ _ Hin). destruct s; reflexivity.
Qed.

Lemma addTextures_safe xs : forall s : Stats,
  Forall (fun x => ordinary (texture_id x)) xs ->
  ("hasOwnProperty" ∉ _textureIdSet s) ->
  exists s', addTextures xs s = inr s' /\
    ("hasOwnProperty" ∉ _textureIdSet s') /\
    (forall k, k ∈ _textureIdSet s -> k ∈ _textureIdSet s').
Proof.
  induction xs as [| x xs IH]; intros s Hord Hs; simpl.
  - exists s. auto.
  - apply Forall_cons in Hord as [[Hp Hh] Hord].
    unfold ModelStatistics.addTexture at 1. rewrite (hasOwnProperty_safe _ _ Hs).
    match goal with |- context [addTextures xs ?y] => set (s1 := y) end.
    destruct (IH s1 Hord) as (s' & Hrun & Hs' & Hmono);
      [apply assign_safe; assumption |].
    exists s'. split; [exact Hrun |]. split; [exact Hs' |].
    intros k Hk. apply Hmono. simpl. apply assign_mono, Hk.
Qed.

(** X17.  Adding textures with distinct, ordinary ids, none of them
    counted before, returns and adds to [texturesByteLength] the size of
    each texture, in the order of the calls; [geometryByteLength] is as
    it was, and adding any of the textures again changes nothing. *)
Theorem addTextures_distinct_sum xs : forall s : Stats,
  Forall (fun x => ordinary (texture_id x)) xs ->
  NoDup (map texture_id xs) ->
  (forall x, x ∈ xs -> texture_id x ∉ _textureIdSet s) ->
  ("hasOwnProperty" ∉ _textureIdSet s) ->
  exists s',
    addTextures xs s = inr s' /\
    texturesByteLength s' =
      fold_left plus (map texture_sizeInBytes xs) (texturesByteLength s) /\
    geometryByteLength s' = geometryByteLength s /\
    ("hasOwnProperty" ∉ _textureIdSet s') /\
    forall x, x ∈ xs -> addTexture x s' = inr s'.
Proof.
  induction xs as [| x xs IH]; intros s Hord Hnd Hnew Hs; simpl.
  - exists s. split; [reflexivity |]. repeat split; auto. intros x Hx. inversion Hx.
  - apply Forall_cons in Hord as [[Hp Hh] Hord].
    apply NoDup_cons in Hnd as [Hb Hnd].
    unfold ModelStatistics.addTexture at 1.
    rewrite (hasOwnProperty_safe _ _ Hs),
      (bool_decide_eq_false_2 _ (Hnew x (list_elem_of_here _ _))). simpl.
    match goal with |- context [addTextures xs ?y] => set (s1 := y) end.
    assert (Hs1 : "hasOwnProperty" ∉ _textureIdSet s1) by (apply assign_safe; assumption).
    destruct (IH s1 Hord Hnd) as (s' & Hrun & Ht & Hg & Hs' & Hagain); [| exact Hs1 |].
    + intros x' Hin' Hk. simpl in Hk. apply assign_elem in Hk as [Hk | Hk].
      * apply Hb. simpl. rewrite <- Hk. apply list_elem_of_fmap. exists x'. auto.
      * apply (Hnew x'); [apply list_elem_of_further, Hin' | exact Hk].
    + exists s'. split; [exact Hrun |]. split; [exact Ht |]. split; [exact Hg |].
      split; [exact Hs' |]. intros x' Hin'.
      apply elem_of_cons in Hin' as [-> | Hin']; [| apply Hagain, Hin'].
      apply addTexture_counted; [exact Hs' |].
      destruct (addTextures_safe xs s1 Hord Hs1) as (s2 & Hrun2 & _ & Hmono).
      rewrite Hrun in Hrun2. inversion Hrun2; subst s2.
      apply Hmono. simpl. apply assign_ordinary, Hp.
Qed.

Local Notation addBatchTexture := (@ModelStatistics.addBatchTexture Number).
Local Notation addBatchTextures := (@ModelStatistics.addBatchTextures Number).

(** Batch textures with new, distinct ids are filed in the order of the
    calls. *)
Lemma addBatchTextures_distinct (batchTextures : ref -> BatchTexture) rs : forall s : Stats,
  NoDup (map (fun r => batchTexture_id (batchTextures r)) rs) ->
  (forall r, r ∈ rs ->
     AssociativeArray.get (batchTexture_id (batchTextures r)) (_batchTextureIdMap s) = None) ->
  _batchTextureIdMap (addBatchTextures batchTextures rs s)
  = _batchTextureIdMap s ++ map (fun r => (batchTexture_id (batchTextures r), r)) rs.
Proof.
  induction rs as [| r rs IH]; intros s Hnd Hnew; simpl.
  - rewrite app_nil_r. reflexivity.
  - apply NoDup_cons in Hnd as [Hr Hnd].
    pose proof (Hnew r (list_elem_of_here _ _)) as Hget.
    unfold ModelStatistics.addBatchTextures in *. simpl. rewrite IH; [| exact Hnd |].
    + simpl. unfold AssociativeArray.contains, AssociativeArray.set.
      rewrite Hget. simpl. rewrite (delete_absent _ _ Hget), <- app_assoc. reflexivity.
    + intros r' Hin'. simpl. unfold AssociativeArray.contains, AssociativeArray.set.
      rewrite Hget. simpl. rewrite (delete_absent _ _ Hget), get_app.
      rewrite (Hnew r' (list_elem_of_further _ _ _ Hin')). simpl.
      destruct (String.eqb_spec (batchTexture_id (batchTextures r'))
                  (batchTexture_id (batchTextures r))) as [Heq | Hne]; [| reflexivity].
      exfalso. apply Hr. rewrite <- Heq. apply list_elem_of_fmap. exists r'. auto.
Qed.

(** X18.  A batch texture whose id is in the map is not added again;
    adding one twice is adding it once; and after batch textures with
    distinct ids have been added to new statistics,
    [batchTexturesByteLength] is the sum, in the order of the calls, of
    the [byteLength] each of them has when the getter is read. *)
Theorem batchTextures_counted_once (batchTextures atReading : ref -> BatchTexture) rs
    (s : Stats) :
  (forall r,
     AssociativeArray.contains (batchTexture_id (batchTextures r)) (_batchTextureIdMap s)
     = true ->
     addBatchTexture batchTextures r s = s) /\
  (forall r,
     addBatchTexture batchTextures r (addBatchTexture batchTextures r s)
     = addBatchTexture batchTextures r s) /\
  (NoDup (map (fun r => batchTexture_id (batchTextures r)) rs) ->
   batchTexturesByteLength atReading
     (addBatchTextures batchTextures rs (ModelStatistics.new zero))
   = fold_left plus (map (fun r => byteLength (atReading r)) rs) zero).
Proof.
  assert (Hreg : forall (r : ref) (s0 : Stats),
            AssociativeArray.contains (batchTexture_id (batchTextures r))
              (_batchTextureIdMap s0) = true ->
            addBatchTexture batchTextures r s0 = s0).
  { intros r s0 H. unfold ModelStatistics.addBatchTexture. rewrite H. destruct s0; reflexivity. }
  split; [intros r; apply Hreg |]. split.
  - intros r. apply Hreg. unfold ModelStatistics.addBatchTexture. simpl.
    destruct (AssociativeArray.contains (batchTexture_id (batchTextures r))
                (_batchTextureIdMap s)) eqn:E; simpl; [exact E | apply contains_set].
  - intros Hnd. unfold ModelStatistics.batchTexturesByteLength.
    rewrite (addBatchTextures_distinct batchTextures rs _ Hnd) by (intros; reflexivity).
    simpl. unfold AssociativeArray.values. rewrite map_map. simpl.
    rewrite map_id. clear Hnd Hreg. generalize zero.
    induction rs as [| r rs IH]; intros z; simpl; [reflexivity | apply IH].
Qed.

End StatisticsFacts.

(* ================================================================== *)
(** * Properties of the label text *)
(* ================================================================== *)

Section LabelTextFacts.

Import LabelText.

Lemma textTypes_eqb_eq a b : textTypes_eqb a b = true <-> a = b.
Proof. destruct a, b; simpl; split; congruence. Qed.

Lemma textTypes_eqb_refl a : textTypes_eqb a a = true.
Proof. destruct a; reflexivity. Qed.

Section ConvertFacts.

Variable rtl : codeUnit -> bool.

Local Notation typeOf := (typeOf rtl).
Local Notation typed := (typed rtl).
Local Notation loop := (convertTextToTypes_loop rtl).

(** The loop once the first character is read. *)
Lemma convertTextToTypes_loop_spec text : forall textIndex parsedText word lastType,
  word <> [] ->
  Forall (fun c => typeOf c = lastType) word ->
  (lastType = BRACKETS -> length word = 1) ->
  Forall typed parsedText ->
  let result := loop text (S textIndex) parsedText word lastType (Some lastType) in
  Forall typed result /\
  concat (map Word result) = concat (map Word parsedText) ++ word ++ text /\
  Type_ <$> head result = Type_ <$> head (parsedText ++ [mkPart (Some lastType) word]).
Proof.
  induction text as [| c text IH]; intros textIndex parsedText word lastType Hw Hall Hb Hp.
  - simpl. split; [| split; [| reflexivity]].
    + apply Forall_app. split; [exact Hp |]. apply Forall_singleton.
      exists lastType. auto.
    + rewrite map_app, concat_app. simpl. rewrite !app_nil_r. reflexivity.
  - cbn [convertTextToTypes_loop Nat.eqb].
    destruct (textTypes_eqb lastType (typeOf c) && negb (textTypes_eqb (typeOf c) BRACKETS))
      eqn:E.
    + apply andb_true_iff in E as [E1 E2]. apply textTypes_eqb_eq in E1.
      rewrite <- E1 in *.
      destruct (IH (S textIndex) parsedText (word ++ [c]) lastType) as (H1 & H2 & H3).
      * destruct word; discriminate.
      * apply Forall_app. split; [exact Hall |]. apply Forall_singleton. auto.
      * intros ->. discriminate.
      * exact Hp.
      * split; [exact H1 |]. split.
        -- rewrite H2, <- !app_assoc. reflexivity.
        -- rewrite H3. destruct parsedText; reflexivity.
    + assert (Hpart : typed (mkPart (Some lastType) word)) by (exists lastType; auto).
      destruct word as [| w0 word]; [contradiction |].
      destruct (IH (S textIndex) (parsedText ++ [mkPart (Some lastType) (w0 :: word)])
                   [c] (typeOf c)) as (H1 & H2 & H3).
      * discriminate.
      * apply Forall_singleton. reflexivity.
      * reflexivity.
      * apply Forall_app. split; [exact Hp | apply Forall_singleton, Hpart].
      * split; [exact H1 |]. split.
        -- rewrite H2, map_app, concat_app. simpl. rewrite app_nil_r, <- !app_assoc.
           reflexivity.
        -- rewrite H3. destruct parsedText; reflexivity.
Qed.

(** The first turn of the loop. *)
Lemma convertTextToTypes_cons c text :
  convertTextToTypes rtl (c :: text) = loop text 1 [] [c] (typeOf c) (Some (typeOf c)).
Proof.
  unfold convertTextToTypes. cbn [convertTextToTypes_loop Nat.eqb].
  rewrite textTypes_eqb_refl. simpl. destruct (textTypes_eqb (typeOf c) BRACKETS); reflexivity.
Qed.

Lemma convertTextToTypes_parts text :
  text <> [] ->
  Forall typed (convertTextToTypes rtl text) /\
  concat (map Word (convertTextToTypes rtl text)) = text /\
  exists p parts, convertTextToTypes rtl text = p :: parts /\
    Type_ p = typeOf <$> head text.
Proof.
  destruct text as [| c text]; [contradiction |]. intros _.
  rewrite convertTextToTypes_cons.
  destruct (convertTextToTypes_loop_spec text 0 [] [c] (typeOf c)) as (H1 & H2 & H3);
    [discriminate | apply Forall_singleton; reflexivity | reflexivity | constructor |].
  split; [exact H1 |]. split; [exact H2 |].
  simpl in H3.
  destruct (loop text 1 [] [c] (typeOf c) (Some (typeOf c))) as [| p parts] eqn:E;
    [discriminate |].
  exists p, parts. split; [reflexivity |]. simpl in H3. inversion H3 as [H0]. exact H0.
Qed.

(** A run of characters of one type that is not [BRACKETS] is one word. *)
Lemma convertTextToTypes_loop_run text : forall textIndex parsedText word lastType,
  lastType <> BRACKETS ->
  Forall (fun c => typeOf c = lastType) text ->
  loop text (S textIndex) parsedText word lastType (Some lastType)
  = parsedText ++ [mkPart (Some lastType) (word ++ text)].
Proof.
  induction text as [| c text IH]; intros textIndex parsedText word lastType Hb Hall.
  - simpl. rewrite app_nil_r. reflexivity.
  - apply Forall_cons in Hall as [Hc Hall]. cbn [convertTextToTypes_loop Nat.eqb].
    rewrite Hc, textTypes_eqb_refl.
    destruct (textTypes_eqb lastType BRACKETS) eqn:E;
      [apply textTypes_eqb_eq in E; contradiction |].
    simpl. rewrite IH by assumption. rewrite <- app_assoc. reflexivity.
Qed.

End ConvertFacts.

(** ** reverseBrackets, reverseWord, spliceWord *)

Lemma spliceWord_length result pointer word :
  length (spliceWord result pointer word) = length result + length word.
Proof.
  unfold spliceWord. rewrite !length_app.
  pose proof (take_drop pointer result) as H. apply (f_equal length) in H.
  rewrite length_app in H. lia.
Qed.

Lemma bracketsChars_reverseBrackets c :
  bracketsChars c = true -> exists c', reverseBrackets [c] = Some [c'].
Proof.
  unfold bracketsChars. intros H. apply bool_decide_eq_true_1 in H.
  repeat (apply elem_of_cons in H as [-> | H]; [eexists; reflexivity |]).
  inversion H.
Qed.

Lemma typeOf_BRACKETS rtl c : typeOf rtl c = BRACKETS -> bracketsChars c = true.
Proof.
  unfold typeOf. destruct (rtl c); [discriminate |].
  destruct (ltrChars c); [discriminate |]. destruct (bracketsChars c); [auto | discriminate].
Qed.

Lemma typeOf_RTL rtl c : typeOf rtl c = RTL <-> rtl c = true.
Proof.
  unfold typeOf. destruct (rtl c); [tauto |].
  destruct (ltrChars c); [split; discriminate |].
  destruct (bracketsChars c); split; discriminate.
Qed.

(** ** The loop over the words *)

Lemma typeAt_lookup parsedText i p :
  parsedText !! i = Some p -> typeAt parsedText (Z.of_nat i) = inr (Type_ p).
Proof.
  intros H. unfold typeAt. destruct (Z.ltb_spec (Z.of_nat i) 0); [lia |].
  rewrite Nat2Z.id, H. reflexivity.
Qed.

Lemma typeAt_previous parsedText i :
  0 < i <= length parsedText ->
  exists p, parsedText !! (i - 1) = Some p /\
    typeAt parsedText (Z.of_nat i - 1) = inr (Type_ p).
Proof.
  intros H. destruct (lookup_lt_is_Some_2 parsedText (i - 1)) as [p Hp]; [lia |].
  exists p. split; [exact Hp |].
  replace (Z.of_nat i - 1)%Z with (Z.of_nat (i - 1)) by lia. apply typeAt_lookup, Hp.
Qed.

Lemma typeAt_next parsedText i :
  (Z.of_nat i + 1 <? Z.of_nat (length parsedText))%Z = true ->
  exists p, parsedText !! (i + 1) = Some p /\
    typeAt parsedText (Z.of_nat i + 1) = inr (Type_ p).
Proof.
  intros H. apply Z.ltb_lt in H.
  destruct (lookup_lt_is_Some_2 parsedText (i + 1)) as [p Hp]; [lia |].
  exists p. split; [exact Hp |].
  replace (Z.of_nat i + 1)%Z with (Z.of_nat (i + 1)) by lia. apply typeAt_lookup, Hp.
Qed.

Lemma toString_reverse_length p :
  part p ->
  length (toString (if isType (Type_ p) BRACKETS then reverseBrackets (Word p)
                    else Some (Word p)))
  = length (Word p).
Proof.
  intros [(t & Ht & Hw & Hall & Hb) | [Ht Hw]].
  - rewrite Ht. simpl. destruct (textTypes_eqb t BRACKETS) eqn:E; [| reflexivity].
    apply textTypes_eqb_eq in E. specialize (Hb E).
    destruct (Word p) as [| c [| c2 w]]; try discriminate.
    apply Forall_cons in Hall as [Hc _]. rewrite E in Hc.
    destruct (bracketsChars_reverseBrackets c (typeOf_BRACKETS _ _ Hc)) as [c' Hc'].
    rewrite Hc'. reflexivity.
  - rewrite Ht. simpl. reflexivity.
Qed.

(** One word: the loop body does not throw and makes the line longer by
    the word. *)
Lemma reverseRtl_word_spec rtlDir parsedText wordIndex subText line splicePointer :
  part subText ->
  wordIndex < length parsedText ->
  (rtlDir = true -> wordIndex = 0 -> isType (Type_ subText) RTL = true) ->
  exists line' splicePointer',
    reverseRtl_word rtlDir parsedText wordIndex subText line splicePointer
    = inr (line', splicePointer') /\
    length line' = length line + length (Word subText).
Proof.
  intros Hpart Hlt Hfirst.
  pose proof (toString_reverse_length subText Hpart) as Hrev.
  assert (Hnone : isType (Type_ subText) RTL = false ->
                  isType (Type_ subText) LTR = false ->
                  isType (Type_ subText) WEAK || isType (Type_ subText) BRACKETS = false ->
                  length (Word subText) = 0).
  { destruct Hpart as [(t & Ht & _) | [_ Hw]]; [| rewrite Hw; reflexivity].
    rewrite Ht. destruct t; simpl; discriminate. }
  unfold reverseRtl_word.
  destruct rtlDir.
  - destruct (isType (Type_ subText) RTL) eqn:E1.
    { eexists _, _. split; [reflexivity |]. unfold reverseWord.
      rewrite length_app, length_rev. lia. }
    destruct (isType (Type_ subText) LTR) eqn:E2.
    { eexists _, _. split; [reflexivity |]. apply spliceWord_length. }
    destruct (isType (Type_ subText) WEAK || isType (Type_ subText) BRACKETS) eqn:E3.
    2:{ eexists _, _. split; [reflexivity |]. rewrite (Hnone eq_refl eq_refl eq_refl). lia. }
    assert (Hpos : 0 < wordIndex).
    { destruct wordIndex; [| lia]. specialize (Hfirst eq_refl eq_refl). congruence. }
    destruct (typeAt_previous parsedText wordIndex) as (q & _ & Hq); [lia |].
    rewrite Hq.
    destruct (isType (Type_ subText) WEAK && isType (Type_ q) BRACKETS).
    { eexists _, _. split; [reflexivity |]. unfold reverseWord.
      rewrite length_app, length_rev. lia. }
    destruct (isType (Type_ q) RTL).
    { eexists _, _. split; [reflexivity |]. rewrite length_app, Hrev. lia. }
    destruct (Z.of_nat wordIndex + 1 <? Z.of_nat (length parsedText))%Z eqn:E4.
    + destruct (typeAt_next parsedText wordIndex E4) as (nx & _ & Hnx). rewrite Hnx.
      destruct (isType (Type_ nx) RTL).
      * eexists _, _. split; [reflexivity |]. rewrite length_app, Hrev. lia.
      * eexists _, _. split; [reflexivity |]. apply spliceWord_length.
    + eexists _, _. split; [reflexivity |]. rewrite spliceWord_length, Hrev. lia.
  - destruct (isType (Type_ subText) RTL) eqn:E1.
    { eexists _, _. split; [reflexivity |]. rewrite spliceWord_length. unfold reverseWord.
      rewrite length_rev. lia. }
    destruct (isType (Type_ subText) LTR) eqn:E2.
    { eexists _, _. split; [reflexivity |]. rewrite length_app. lia. }
    destruct (isType (Type_ subText) WEAK || isType (Type_ subText) BRACKETS) eqn:E3.
    2:{ eexists _, _. split; [reflexivity |]. rewrite (Hnone eq_refl eq_refl eq_refl). lia. }
    destruct (0 <? Z.of_nat wordIndex)%Z eqn:E0.
    2:{ eexists _, _. split; [reflexivity |]. rewrite length_app. lia. }
    apply Z.ltb_lt in E0.
    destruct (typeAt_previous parsedText wordIndex) as (q & _ & Hq); [lia |].
    rewrite Hq.
    destruct (isType (Type_ q) RTL).
    2:{ eexists _, _. split; [reflexivity |]. rewrite length_app. lia. }
    destruct (Z.of_nat wordIndex + 1 <? Z.of_nat (length parsedText))%Z eqn:E4.
    + destruct (typeAt_next parsedText wordIndex E4) as (nx & _ & Hnx). rewrite Hnx.
      destruct (isType (Type_ nx) RTL).
      * eexists _, _. split; [reflexivity |]. rewrite spliceWord_length, Hrev. lia.
      * eexists _, _. split; [reflexivity |]. rewrite length_app. lia.
    + eexists _, _. split; [reflexivity |]. rewrite length_app. lia.
Qed.

(** The loop over the words does not throw, and its line has the length
    of the words. *)
Lemma reverseRtl_words_spec rtlDir parsedText todo : forall done line splicePointer,
  parsedText = done ++ todo ->
  Forall part todo ->
  (rtlDir = true -> exists p, head parsedText = Some p /\ isType (Type_ p) RTL = true) ->
  exists result,
    reverseRtl_words rtlDir parsedText todo (length done) line splicePointer = inr result /\
    length result = length line + length (concat (map Word todo)).
Proof.
  induction todo as [| subText todo IH]; intros done line splicePointer Hsplit Hparts Hfirst.
  - exists line. split; [reflexivity |]. simpl. lia.
  - apply Forall_cons in Hparts as [Hp Hparts]. simpl.
    destruct (reverseRtl_word_spec rtlDir parsedText (length done) subText line splicePointer)
      as (line' & pointer' & Hstep & Hlen).
    + exact Hp.
    + rewrite Hsplit, length_app. simpl. lia.
    + intros Hr H0. destruct (Hfirst Hr) as (p & Hhead & Hrtl).
      destruct done; [| discriminate]. rewrite Hsplit in Hhead. simpl in Hhead.
      inversion Hhead; subst. exact Hrtl.
    + rewrite Hstep.
      destruct (IH (done ++ [subText]) line' pointer') as (result & Hrun & Hres).
      * rewrite Hsplit, <- app_assoc. reflexivity.
      * exact Hparts.
      * exact Hfirst.
      * rewrite length_app in Hrun. simpl in Hrun. rewrite Nat.add_1_r in Hrun.
        exists result. split; [exact Hrun |]. rewrite Hres, Hlen, length_app. lia.
Qed.

(** The parts of a line. *)
Lemma convertTextToTypes_part text :
  Forall part (convertTextToTypes rtlChars text) /\
  concat (map Word (convertTextToTypes rtlChars text)) = text.
Proof.
  destruct text as [| c text].
  - split; [| reflexivity]. apply Forall_singleton. right. auto.
  - destruct (convertTextToTypes_parts rtlChars (c :: text)) as (H1 & H2 & _);
      [discriminate |].
    split; [| exact H2]. eapply Forall_impl; [exact H1 |]. intros p Hp. left. exact Hp.
Qed.

(** One line: no exception, and a line of the same length. *)
Lemma reverseRtl_line_spec text :
  exists line, reverseRtl_line text = inr line /\ length line = length text.
Proof.
  unfold reverseRtl_line.
  destruct (convertTextToTypes_part text) as (Hparts & Hconcat).
  destruct (reverseRtl_words_spec
              (match text with c :: _ => rtlChars c | [] => false end)
              (convertTextToTypes rtlChars text) (convertTextToTypes rtlChars text) [] [] 0)
    as (result & Hrun & Hlen).
  - reflexivity.
  - exact Hparts.
  - intros Hr. destruct text as [| c text]; [discriminate |].
    destruct (convertTextToTypes_parts rtlChars (c :: text)) as (_ & _ & p & parts & Hp & Ht);
      [discriminate |].
    exists p. rewrite Hp. split; [reflexivity |]. rewrite Ht. simpl.
    rewrite (proj2 (typeOf_RTL rtlChars c) Hr). reflexivity.
  - exists result. split; [exact Hrun |]. rewrite Hlen, Hconcat. reflexivity.
Qed.

(** ** Lines *)

Lemma split_nonempty separator value : split separator value <> [].
Proof.
  induction value as [| c value IH]; simpl; [discriminate |].
  destruct (c =? separator)%N; [discriminate |].
  destruct (split separator value); [contradiction | discriminate].
Qed.

Lemma join_cons separator text texts :
  join separator (text :: texts)
  = text ++ match texts with [] => [] | _ => separator :: join separator texts end.
Proof. destruct texts; simpl; [rewrite app_nil_r |]; reflexivity. Qed.

Lemma join_split separator value : join separator (split separator value) = value.
Proof.
  induction value as [| c value IH]; [reflexivity |]. simpl.
  destruct (N.eqb_spec c separator) as [-> | Hne].
  - rewrite join_cons. simpl. pose proof (split_nonempty separator value) as Hn.
    destruct (split separator value); [contradiction |]. rewrite IH. reflexivity.
  - pose proof (split_nonempty separator value) as Hn.
    destruct (split separator value) as [| first others]; [contradiction |].
    rewrite join_cons in *. simpl. rewrite IH. reflexivity.
Qed.

Lemma split_elem separator value :
  Forall (fun text => forall c, c ∈ text -> c ∈ value) (split separator value).
Proof.
  induction value as [| c value IH]; simpl.
  - apply Forall_singleton. auto.
  - destruct (c =? separator)%N.
    + apply Forall_cons. split; [intros c' H'; inversion H' |].
      eapply Forall_impl; [exact IH |]. intros t Ht c' Hc'. apply list_elem_of_further, Ht, Hc'.
    + destruct (split separator value) as [| first others].
      { apply Forall_singleton. intros c' Hc'. apply list_elem_of_singleton in Hc'.
        subst c'. apply list_elem_of_here. }
      apply Forall_cons in IH as [Hf Ho]. apply Forall_cons. split.
      * intros c' Hc'. apply elem_of_cons in Hc' as [-> | Hc'];
          [apply list_elem_of_here | apply list_elem_of_further, Hf, Hc'].
      * eapply Forall_impl; [exact Ho |]. intros t Ht c' Hc'.
        apply list_elem_of_further, Ht, Hc'.
Qed.

Lemma split_whole separator value : separator ∉ value -> split separator value = [value].
Proof.
  induction value as [| c value IH]; [reflexivity |]. intros H.
  apply not_elem_of_cons in H as [Hc Hv]. simpl.
  destruct (N.eqb_spec c separator); [congruence |]. rewrite (IH Hv). reflexivity.
Qed.

Lemma join_length separator texts lines :
  Forall2 (fun text line : jsString => length line = length text) texts lines ->
  length (join separator lines) = length (join separator texts).
Proof.
  induction 1 as [| text line texts lines Hl Hrest IH]; [reflexivity |].
  rewrite !join_cons, !length_app, Hl. f_equal.
  destruct Hrest; [reflexivity |]. simpl in *. rewrite IH. reflexivity.
Qed.

(** The loop over the lines, for lines that do not throw. *)
Lemma reverseRtl_lines_spec texts : forall lines i n result,
  i + length texts = n ->
  Forall2 (fun text line => reverseRtl_line text = inr line) texts lines ->
  reverseRtl_lines texts i n result = inr (result ++ join (code "010") lines).
Proof.
  induction texts as [| text texts IH]; intros lines i n result Hn Hlines.
  - inversion Hlines; subst. simpl. rewrite app_nil_r. reflexivity.
  - inversion Hlines as [| ? line ? lines' Hline Hrest]; subst.
    cbn [reverseRtl_lines]. rewrite Hline.
    rewrite join_cons. destruct Hrest as [| text2 line2 texts2 lines2 H2 Hrest].
    + cbn [reverseRtl_lines length].
      destruct (Z.ltb_spec (Z.of_nat i) (Z.of_nat (i + 1) - 1)); [lia |].
      rewrite app_nil_r. reflexivity.
    + destruct (Z.ltb_spec (Z.of_nat i)
                  (Z.of_nat (i + length (text :: text2 :: texts2)) - 1));
        [| cbn [length] in *; lia].
      rewrite (IH (line2 :: lines2) (S i) _ _);
        [| cbn [length]; lia | constructor; assumption].
      rewrite <- !app_assoc. reflexivity.
Qed.

Lemma reverseRtl_lines_total texts :
  exists lines,
    Forall2 (fun text line => reverseRtl_line text = inr line) texts lines /\
    Forall2 (fun text line : jsString => length line = length text) texts lines.
Proof.
  induction texts as [| text texts (lines & H1 & H2)]; [exists []; split; constructor |].
  destruct (reverseRtl_line_spec text) as (line & Hline & Hlen).
  exists (line :: lines). split; constructor; assumption.
Qed.

(** [reverseRtl] does not throw; its result is the reordered lines,
    each as long as the line it comes from, joined by line feeds. *)
Lemma reverseRtl_joined value :
  exists lines,
    reverseRtl value = inr (join (code "010") lines) /\
    Forall2 (fun text line : jsString => length line = length text)
            (split (code "010") value) lines.
Proof.
  unfold reverseRtl.
  destruct (reverseRtl_lines_total (split (code "010") value)) as (lines & H1 & H2).
  exists lines.
  rewrite (reverseRtl_lines_spec _ lines 0 (length (split (code "010") value)) []
             eq_refl H1).
  split; [reflexivity | exact H2].
Qed.

(** X19.  On every string [reverseRtl] returns, it never throws, and
    the result has as many code units as the argument. *)
Theorem reverseRtl_keeps_length value :
  exists result, reverseRtl value = inr result /\ length result = length value.
Proof.
  destruct (reverseRtl_joined value) as (lines & Hrun & Hlen).
  exists (join (code "010") lines). split; [exact Hrun |].
  rewrite (join_length _ _ _ Hlen), join_split. reflexivity.
Qed.

(** ** Text without right-to-left characters *)

Lemma reverseRtl_word_ltr parsedText wordIndex subText line splicePointer :
  part subText ->
  wordIndex < length parsedText ->
  Forall (fun p => isType (Type_ p) RTL = false) parsedText ->
  isType (Type_ subText) RTL = false ->
  exists splicePointer',
    reverseRtl_word false parsedText wordIndex subText line splicePointer
    = inr (line ++ Word subText, splicePointer').
Proof.
  intros Hpart Hlt Hall Hsub. unfold reverseRtl_word. rewrite Hsub.
  destruct (isType (Type_ subText) LTR) eqn:E2; [eexists; reflexivity |].
  destruct (isType (Type_ subText) WEAK || isType (Type_ subText) BRACKETS) eqn:E3.
  - destruct (0 <? Z.of_nat wordIndex)%Z eqn:E0; [| eexists; reflexivity].
    apply Z.ltb_lt in E0.
    destruct (typeAt_previous parsedText wordIndex) as (q & Hq & Hty); [lia |].
    rewrite Hty.
    pose proof (proj1 (Forall_forall _ _) Hall q (list_elem_of_lookup_2 _ _ _ Hq)) as Hprev.
    simpl in Hprev. rewrite Hprev. eexists. reflexivity.
  - destruct Hpart as [(t & Ht & _) | [_ Hw]].
    + rewrite Ht in *. destruct t; simpl in *; discriminate.
    + rewrite Hw, app_nil_r. eexists. reflexivity.
Qed.

Lemma reverseRtl_words_ltr parsedText todo : forall done line splicePointer,
  parsedText = done ++ todo ->
  Forall part parsedText ->
  Forall (fun p => isType (Type_ p) RTL = false) parsedText ->
  reverseRtl_words false parsedText todo (length done) line splicePointer
  = inr (line ++ concat (map Word todo)).
Proof.
  induction todo as [| subText todo IH]; intros done line splicePointer Hsplit Hparts Hall.
  - simpl. rewrite app_nil_r. reflexivity.
  - cbn [reverseRtl_words map concat].
    assert (Hin : subText ∈ parsedText)
      by (rewrite Hsplit; apply elem_of_app; right; apply list_elem_of_here).
    destruct (reverseRtl_word_ltr parsedText (length done) subText line splicePointer)
      as (pointer' & Hstep).
    + exact (proj1 (Forall_forall _ _) Hparts _ Hin).
    + rewrite Hsplit, length_app. simpl. lia.
    + exact Hall.
    + exact (proj1 (Forall_forall _ _) Hall _ Hin).
    + rewrite Hstep.
      pose proof (IH (done ++ [subText]) (line ++ Word subText) pointer') as Hrun.
      rewrite length_app in Hrun. simpl in Hrun. rewrite Nat.add_1_r in Hrun.
      rewrite Hrun; [rewrite <- app_assoc; reflexivity | | exact Hparts | exact Hall].
      rewrite Hsplit, <- app_assoc. reflexivity.
Qed.

Lemma elem_concat {A} (x : A) l ls : l ∈ ls -> x ∈ l -> x ∈ concat ls.
Proof.
  induction ls as [| l' ls IH]; intros Hl Hx; [inversion Hl |]. simpl.
  apply elem_of_app. apply elem_of_cons in Hl as [-> | Hl]; [left | right]; auto.
Qed.

Lemma reverseRtl_line_ltr text :
  (forall c, c ∈ text -> rtlChars c = false) -> reverseRtl_line text = inr text.
Proof.
  intros Hno. unfold reverseRtl_line.
  destruct (convertTextToTypes_part text) as (Hparts & Hconcat).
  assert (Hdir : match text with c :: _ => rtlChars c | [] => false end = false).
  { destruct text as [| c text]; [reflexivity | apply Hno, list_elem_of_here]. }
  rewrite Hdir.
  pose proof (reverseRtl_words_ltr (convertTextToTypes rtlChars text)
                (convertTextToTypes rtlChars text) [] [] 0 eq_refl Hparts) as Hrun.
  cbn [length] in Hrun. rewrite Hrun.
  - simpl. rewrite Hconcat. reflexivity.
  - apply Forall_forall. intros p Hp.
    destruct (proj1 (Forall_forall _ _) Hparts p Hp) as [(t & Ht & Hw & Hall & _) | [Ht _]];
      [| rewrite Ht; reflexivity].
    rewrite Ht. simpl. destruct (textTypes_eqb t RTL) eqn:E; [| reflexivity].
    apply textTypes_eqb_eq in E. subst t. exfalso.
    destruct (Word p) as [| c w] eqn:Ew; [contradiction |].
    apply Forall_cons in Hall as [Hc _]. apply typeOf_RTL in Hc.
    assert (Hin : c ∈ text).
    { rewrite <- Hconcat. apply (elem_concat c (Word p)).
      - apply list_elem_of_fmap. exists p. auto.
      - rewrite Ew. apply list_elem_of_here. }
    rewrite (Hno c Hin) in Hc. discriminate.
Qed.

(** The lines of a text without right-to-left characters stay as they
    are. *)
Lemma reverseRtl_lines_ltr value :
  (forall c, c ∈ value -> rtlChars c = false) ->
  Forall2 (fun text line => reverseRtl_line text = inr line)
          (split (code "010") value) (split (code "010") value).
Proof.
  intros Hno. pose proof (split_elem (code "010") value) as Helem.
  induction Helem as [| text texts Ht _ IH]; constructor; [| exact IH].
  apply reverseRtl_line_ltr. intros c Hc. apply Hno, Ht, Hc.
Qed.

(** X20.  A string without a character of the Hebrew and Arabic blocks
    is returned as it is. *)
Theorem reverseRtl_ltr_unchanged value :
  (forall c, c ∈ value -> rtlChars c = false) -> reverseRtl value = inr value.
Proof.
  intros Hno. unfold reverseRtl.
  rewrite (reverseRtl_lines_spec _ (split (code "010") value) 0
             (length (split (code "010") value)) [] eq_refl
             (reverseRtl_lines_ltr value Hno)).
  simpl. rewrite join_split. reflexivity.
Qed.

(** X21.  A string that is not empty and holds only characters of the
    Hebrew and Arabic blocks is returned reversed. *)
Theorem reverseRtl_rtl_reversed value :
  value <> [] -> (forall c, c ∈ value -> rtlChars c = true) ->
  reverseRtl value = inr (rev value).
Proof.
  intros Hne Hall. unfold reverseRtl.
  assert (Hnl : code "010" ∉ value).
  { intros Hin. specialize (Hall _ Hin). vm_compute in Hall. discriminate. }
  rewrite (split_whole _ _ Hnl). simpl.
  destruct value as [| c value]; [contradiction |].
  unfold reverseRtl_line. rewrite convertTextToTypes_cons.
  assert (Hc : typeOf rtlChars c = RTL) by (apply typeOf_RTL, Hall, list_elem_of_here).
  rewrite Hc, convertTextToTypes_loop_run.
  - rewrite (Hall c (list_elem_of_here _ _)). simpl. unfold reverseWord.
    rewrite !app_nil_r. reflexivity.
  - discriminate.
  - apply Forall_forall. intros c' Hc'. apply typeOf_RTL, Hall, list_elem_of_further, Hc'.
Qed.

(** X22.  The words of the parts, one after the other, are the text.
    The empty text gives one part, with no type and an empty word.  Any
    other text gives parts whose word is not empty and made of
    characters of the type of the part, a bracket being a part of its
    own; and the first part has the type of the first character. *)
Theorem convertTextToTypes_partition rtl text :
  concat (map Word (convertTextToTypes rtl text)) = text /\
  (text = [] -> convertTextToTypes rtl text = [mkPart None []]) /\
  (text <> [] ->
   Forall (typed rtl) (convertTextToTypes rtl text) /\
   (Type_ <$> head (convertTextToTypes rtl text)) = (Some ∘ typeOf rtl) <$> head text).
Proof.
  split; [| split].
  - destruct text as [| c text]; [reflexivity |].
    apply (convertTextToTypes_parts rtl (c :: text)). discriminate.
  - intros ->. reflexivity.
  - intros Hne. destruct (convertTextToTypes_parts rtl text Hne) as (H1 & _ & p & parts & Hp & Ht).
    split; [exact H1 |]. rewrite Hp. simpl. rewrite Ht.
    destruct text; [contradiction | reflexivity].
Qed.

(** X23.  [reverseBrackets] sends a bracket to a different bracket, which
    it sends back; and it returns a value exactly for the eight strings
    made of one bracket. *)
Theorem reverseBrackets_involution bracket :
  (forall mirrored, reverseBrackets bracket = Some mirrored ->
     reverseBrackets mirrored = Some bracket /\ mirrored <> bracket) /\
  (is_Some (reverseBrackets bracket) <->
   exists c, bracket = [c] /\ bracketsChars c = true).
Proof.
  split.
  - intros mirrored H. destruct bracket as [| c [| c2 w]]; try discriminate.
    unfold reverseBrackets in H.
    repeat (match type of H with
            | (if (c =? ?k)%N then _ else _) = _ =>
                destruct (N.eqb_spec c k) as [-> |];
                [inversion H; subst; split; [reflexivity | discriminate] |]
            end).
    discriminate.
  - split.
    + intros [mirrored H]. destruct bracket as [| c [| c2 w]]; try discriminate.
      exists c. split; [reflexivity |]. unfold bracketsChars. apply bool_decide_eq_true_2.
      unfold reverseBrackets in H.
      repeat (match type of H with
              | (if (c =? ?k)%N then _ else _) = _ =>
                  destruct (N.eqb_spec c k) as [-> |];
                  [repeat (first [apply list_elem_of_here | apply list_elem_of_further]) |]
              end).
      discriminate.
    + intros (c & -> & Hc). destruct (bracketsChars_reverseBrackets c Hc) as [c' Hc'].
      rewrite Hc'. eexists. reflexivity.
Qed.

End LabelTextFacts.

Section LabelSettersFacts.

Import LabelText LabelSetters.

Variable HorizontalOrigin : Type.
Context `{EqDecision HorizontalOrigin}.

Local Notation State := (@LabelSetters.State HorizontalOrigin).
Local Notation Assignment := (@LabelSetters.Assignment HorizontalOrigin).

Lemma assignFields_same label f (w : State) : fields (assignFields label f w) label = f.
Proof. unfold assignFields. simpl. rewrite Nat.eqb_refl. reflexivity. Qed.

Lemma assignFields_other label f (w : State) l :
  l <> label -> fields (assignFields label f w) l = fields w l.
Proof.
  intros H. unfold assignFields. simpl.
  destruct (Nat.eqb_spec l label); [contradiction | reflexivity].
Qed.

(** X24.  Assigning a label the text it has changes nothing.  Assigning
    it another text returns: the text is stored, and with it a rendered
    text of the same length, which is the text itself when right-to-left
    detection is off or the text has no right-to-left character; the
    glyphs of the label are marked to be rebound, and the fields of the
    other labels are as they were. *)
Theorem text_set_renders label value (w : State) :
  (_text (fields w label) = Some value -> text_set label (Some value) w = Done w) /\
  (_text (fields w label) <> Some value ->
   exists rendered w',
     text_set label (Some value) w = Done w' /\
     _text (fields w' label) = Some value /\
     _renderedText (fields w' label) = Some rendered /\
     length rendered = length value /\
     (enableRightToLeftDetection w = false \/
      (forall c, c ∈ value -> rtlChars c = false) -> rendered = value) /\
     glyphs w' = Label.rebindAllGlyphs label (glyphs w) /\
     (forall l, l <> label -> fields w' l = fields w l)).
Proof.
  split.
  - intros H. unfold text_set. rewrite (bool_decide_eq_true_2 _ H). reflexivity.
  - intros H. unfold text_set. rewrite (bool_decide_eq_false_2 _ H).
    cbn [enableRightToLeftDetection assignFields].
    destruct (enableRightToLeftDetection w) eqn:Hflag.
    + destruct (reverseRtl_joined value) as (lines & Hrun & Hlen).
      rewrite Hrun. eexists _, _. split; [reflexivity |].
      unfold withGlyphs, assignFields. cbn [fields glyphs]. rewrite !Nat.eqb_refl.
      split; [reflexivity |]. split; [reflexivity |].
      split; [rewrite (join_length _ _ _ Hlen), join_split; reflexivity |].
      split.
      * intros [Hoff | Hno]; [discriminate |].
        assert (Hid : reverseRtl value = inr value).
        { unfold reverseRtl.
          rewrite (reverseRtl_lines_spec _ (split (code "010") value) 0
                     (length (split (code "010") value)) [] eq_refl
                     (reverseRtl_lines_ltr value Hno)).
          cbn [app]. rewrite join_split. reflexivity. }
        rewrite Hid in Hrun. inversion Hrun as [Heq]. reflexivity.
      * split; [reflexivity |]. intros l Hl.
        destruct (Nat.eqb_spec l label); [contradiction | reflexivity].
    + eexists _, _. split; [reflexivity |].
      unfold withGlyphs, assignFields. cbn [fields glyphs]. rewrite !Nat.eqb_refl.
      repeat split; try reflexivity.
      intros l Hl. destruct (Nat.eqb_spec l label); [contradiction | reflexivity].
Qed.

(** An assignment leaves the dirty flags and the pending-update list
    alone, or makes one of the two marking calls. *)
Lemma assign_marks (a : Assignment) (w : State) :
  glyphs (after (assign a w)) = glyphs w \/
  exists m, glyphs (after (assign a w)) = Label.mark m (glyphs w).
Proof.
  destruct a as [label [value |] | label [value |] | label [value |] | label [value |]];
    simpl; auto.
  - unfold text_set. destruct (bool_decide (_text (fields w label) = Some value)); [auto |].
    cbn [enableRightToLeftDetection assignFields].
    destruct (if enableRightToLeftDetection w then reverseRtl value else inr value);
      [left; reflexivity |].
    right. exists (Label.Rebind label). reflexivity.
  - unfold font_set. destruct (bool_decide (_font (fields w label) = value)); [auto |].
    right. exists (Label.Rebind label). reflexivity.
  - unfold showBackground_set.
    destruct (Bool.eqb (_showBackground (fields w label)) value); [auto |].
    right. exists (Label.Rebind label). reflexivity.
  - unfold horizontalOrigin_set.
    destruct (bool_decide (_horizontalOrigin (fields w label) = value)); [auto |].
    right. exists (Label.Reposition label). reflexivity.
Qed.

(** X25.  From a store where every label of the pending-update list is
    dirty and none is listed twice, any sequence of assignments to
    [text], [font], [showBackground] and [horizontalOrigin], those that
    throw included, leaves such a store: no label is pushed twice. *)
Theorem assignments_push_once assignments : forall w : State,
  Label.pendingOnce (glyphs w) ->
  Label.pendingOnce (glyphs (assignAll assignments w)) /\
  NoDup (Label._labelsToUpdate (glyphs (assignAll assignments w))).
Proof.
  induction assignments as [| a assignments IH]; intros w Hw.
  - split; [exact Hw | exact (proj1 Hw)].
  - simpl. apply IH.
    destruct (assign_marks a w) as [Heq | [m Heq]]; rewrite Heq;
      [exact Hw | apply mark_pendingOnce, Hw].
Qed.

End LabelSettersFacts.

(* ================================================================== *)
(** * The theorems at work on the example world *)
(* ================================================================== *)

Section Examples.

Import EntityCollection.
Import Scenario.

Local Notation fireWith subscribers := (fireChangedEvent guid subscribers).

(** [add] on a new collection delivers the entity and leaves [held]. *)
Example add_reaches_held :
  finalState (add guid (fireWith [observer] 5) (Some (Instance 1)) fresh) = Some held.
Proof. vm_compute. reflexivity. Qed.

(** Suspending the collection that holds "y"; and adding "y" to a new
    collection under suspension. *)
Example suspend_reaches_heldSuspended :
  finalState ((add guid (fireWith [observer] 5) (Some (Instance 1)) >>
               suspendEvents) fresh) = Some heldSuspended.
Proof. vm_compute. reflexivity. Qed.

Example add_reaches_stagedSuspended :
  finalState ((suspendEvents >>
               add guid (fireWith [observer] 5) (Some (Instance 1))) fresh)
  = Some stagedSuspended.
Proof. vm_compute. reflexivity. Qed.

(** Scenario B of the specification: suspend, add x, add y, remove x,
    resume: one batch, with y added. *)
Example scenario_B :
  raisedBy ((suspendEvents >>
             add guid (fireWith [observer] 5) (Some (Instance 0)) >>
             add guid (fireWith [observer] 5) (Some (Instance 1)) >>
             removeById (fireWith [observer] 5) (Some "x") >>
             resumeEvents (fireWith [observer] 5)) fresh)
  = [mkBatch [1] [] []].
Proof. vm_compute. reflexivity. Qed.

(** During a delivery a turn can carry three empty arrays: the toggler
    answers the first batch with [suspendEvents] and [resumeEvents], which
    stage nothing and set [_refire]. *)
Example refire_turn_can_be_empty :
  raisedBy (fireWith [toggler] 10 staged) = [mkBatch [1] [] []; mkBatch [] [] []].
Proof. vm_compute. reflexivity. Qed.

(** The suspend count is looked at when [fireChangedEvent] is entered, not
    between turns: the hoarder suspends the collection during the first
    turn, and the entity it adds is delivered by the second all the same;
    the count is still one at the end. *)
Example suspended_during_delivery :
  raisedBy (fireWith [hoarder] 10 staged) = [mkBatch [1] [] []; mkBatch [0] [] []] /\
  (_suspendCount ∘ this) <$> finalState (fireWith [hoarder] 10 staged) = Some 1%Z.
Proof. split; vm_compute; reflexivity. Qed.



(** C2, witness: "y" is in the collection; adding it again throws and
    changes nothing. *)
Lemma add_existing_id_fails_witness :
  AssociativeArray.contains (Entity.id (heap held !!! 1)) (_entities (this held)) = true /\
  add guid (fireWith [observer] 5) (Some (Instance 1)) held =
  Throw (DeveloperError
           ("An entity with id " +:+ Entity.id (heap held !!! 1)
            +:+ " already exists in this collection.")) held.
Proof.
  split; [reflexivity |].
  apply (proj1 (add_existing_id_fails guid [observer] 5 held)). reflexivity.
Defined.

(** C3, counterexample to the claim as stated.  "x" is in the collection
    when events are suspended; within the suspension it is removed, then
    added and at once removed again.  The batch raised at [resumeEvents]
    has it in the removed list. *)
Lemma add_remove_pending_removal_counterexample :
  raisedBy ((add guid (fireWith [observer] 5) (Some (Instance 0)) >>
             suspendEvents >>
             remove (fireWith [observer] 5) (Some 0) >>
             add guid (fireWith [observer] 5) (Some (Instance 0)) >>
             remove (fireWith [observer] 5) (Some 0) >>
             resumeEvents (fireWith [observer] 5)) fresh)
  = [mkBatch [0] [] []; mkBatch [] [0] []] /\
  0 ∈ removed (mkBatch [] [0] []).
Proof. split; [vm_compute; reflexivity | apply list_elem_of_here]. Qed.

(** The store of [stagedSuspended] is well filed. *)
Lemma stagedSuspended_WellFiled : WellFiled stagedSuspended.
Proof.
  assert (H : filed (heap stagedSuspended) [("y", 1)]).
  { intros k r Hin. apply list_elem_of_singleton in Hin. inversion Hin; subst.
    split; [apply elem_of_dom; eexists; reflexivity | reflexivity]. }
  split; [exact H |]. split; [exact H |]. split; [intros k r Hin; inversion Hin |].
  intros k r Hin. apply list_elem_of_singleton in Hin. inversion Hin; subst. reflexivity.
Qed.

(** C3, witness: "y" is staged as added in a suspended collection; "x" is
    added and removed; the store stays well filed, "x" is in neither
    list of the batch pending at [resumeEvents], which raises that
    batch, with "y" alone. *)
Lemma add_remove_net_zero_witness :
  ((0 < _suspendCount (this stagedSuspended))%Z /\
   _firing (this stagedSuspended) = false /\
   AssociativeArray.contains (Entity.id (heap stagedSuspended !!! 0))
     (_entities (this stagedSuspended)) = false /\
   AssociativeArray.contains (Entity.id (heap stagedSuspended !!! 0))
     (_removedEntities (this stagedSuspended)) = false) /\
  exists w2,
    (add guid (fireWith [observer] 1) (Some (Instance 0)) >>
     remove (fireWith [observer] 1) (Some 0)) stagedSuspended = Return true w2 /\
    raised w2 = raised stagedSuspended /\
    WellFiled w2 /\
    (0 ∉ added (pending (this w2))) /\
    (0 ∉ removed (pending (this w2))) /\
    exists w3, resumeEvents (fireWith [observer] 2) w2 = Return tt w3 /\
      raised w3 = raised stagedSuspended ++ [mkBatch [1] [] []].
Proof.
  split; [repeat split; reflexivity |].
  destruct (add_remove_net_zero guid [observer] 0 0 stagedSuspended 0
              ltac:(reflexivity) eq_refl eq_refl eq_refl)
    as (w2 & Hrun & Hraised & _ & _ & _ & _ & _ & _ & Hfiled & _ & Hidle).
  exists w2. split; [exact Hrun |]. split; [exact Hraised |].
  split; [exact (proj1 (Hfiled stagedSuspended_WellFiled)) |].
  split; [exact (proj1 (proj2 (Hfiled stagedSuspended_WellFiled))) |].
  split; [exact (proj2 (proj2 (Hfiled stagedSuspended_WellFiled))) |].
  assert (Hw2 : Return true w2 =
                (add guid (fireWith [observer] 1) (Some (Instance 0)) >>
                 remove (fireWith [observer] 1) (Some 0)) stagedSuspended)
    by (symmetry; exact Hrun).
  vm_compute in Hw2. inversion Hw2; subst w2; clear Hw2.
  destruct Hidle as (w3 & Hres & Hra3);
    [reflexivity | reflexivity | repeat constructor |].
  exists w3. split; [exact Hres | exact Hra3].
Defined.

(** C4, counterexample to the claim as stated.  The collection holds "y"
    and is suspended; hiding the collection stages "y" as changed, where
    the claim has the staging arrays unaltered. *)
Lemma show_set_stages_changed_counterexample :
  staging (this heldSuspended) = ([], [], []) /\
  (staging ∘ this) <$> finalState (show_set (fireWith [observer] 5) (Some false) heldSuspended)
  = Some ([], [], [("y", 1)]).
Proof. split; vm_compute; reflexivity. Qed.

(** C4, witness on the same store: one signal, for "y", from shown to
    hidden; "y" is staged as changed and nothing else. *)
Lemma show_set_signals_witness :
  (false <> _show (this heldSuspended) /\ (0 <= _suspendCount (this heldSuspended))%Z) /\
  exists w1,
    show_set (fireWith [observer] 1) (Some false) heldSuspended =
    Return tt (with_this (set_suspendCount 1) w1) /\
    signalled w1 = [mkSignal 1 "isShowing" false true] /\
    _addedEntities (this w1) = [] /\
    _removedEntities (this w1) = [] /\
    _changedEntities (this w1) = [("y", 1)].
Proof.
  assert (Hv : false <> _show (this heldSuspended)) by discriminate.
  assert (Hc : (0 <= _suspendCount (this heldSuspended))%Z) by (simpl; lia).
  split; [split; assumption |].
  destruct (show_set_signals guid [observer] 0 heldSuspended false Hv Hc)
    as (w1 & _ & _ & _ & Hs & _ & _ & _ & Ha & Hr & Hch & Hret).
  exists w1. split; [apply Hret; [reflexivity | reflexivity] |].
  split; [exact Hs |]. split; [exact Ha |]. split; [exact Hr | exact Hch].
Defined.

(** C5, witness: on a new collection [resumeEvents] throws; on the
    suspended collection with "y" staged it delivers the batch. *)
Lemma resumeEvents_balanced_witness :
  (_suspendCount (this fresh) = 0%Z /\
   resumeEvents (fireWith [observer] 5) fresh =
   Throw (DeveloperError "resumeEvents can not be called before suspendEvents.") fresh) /\
  (_suspendCount (this stagedSuspended) = 1%Z /\
   _firing (this stagedSuspended) = false /\
   hasPending (this stagedSuspended) = true /\
   idleOn [observer] (pending (this stagedSuspended)) /\
   exists w',
     resumeEvents (fireWith [observer] 2) stagedSuspended = Return tt w' /\
     raised w' = raised stagedSuspended ++ [pending (this stagedSuspended)] /\
     staging (this w') = ([], [], []) /\
     _suspendCount (this w') = 0%Z).
Proof.
  assert (Hi : idleOn [observer] (pending (this stagedSuspended)))
    by (repeat constructor).
  split.
  - split; [reflexivity |].
    apply (proj1 (resumeEvents_balanced guid [observer] 5 fresh)). reflexivity.
  - repeat split; try exact Hi.
    apply (proj2 (proj2 (proj2 (resumeEvents_balanced guid [observer] 0 stagedSuspended))
                    eq_refl eq_refl eq_refl));
      exact Hi.
Defined.

(** C9, witness: on a new collection suspended once nothing is staged;
    neither [fireChangedEvent] nor [resumeEvents] raises an event. *)
Lemma nothing_pending_raises_nothing_witness :
  (_firing (this freshSuspended) = false /\
   staging (this freshSuspended) = ([], [], []) /\
   _suspendCount (this freshSuspended) = 1%Z) /\
  fireWith [observer] 1 freshSuspended = Return tt freshSuspended /\
  resumeEvents (fireWith [observer] 1) freshSuspended =
  Return tt (with_this (set_suspendCount 0) freshSuspended).
Proof.
  split; [repeat split |].
  destruct (nothing_pending_raises_nothing guid [observer] 0 freshSuspended
              eq_refl eq_refl) as [H1 H2].
  split; [exact H1 | exact (H2 eq_refl)].
Defined.

(** [computeAvailability_tightest] at work: availabilities [10, 50] and
    [0, 70] with sentinels 0 and 100: the start 0 is the unbounded-past
    sentinel and does not count, so the interval starts at 10; it stops
    at 70. *)
Lemma computeAvailability_tightest_witness :
  ((0 <= 100)%Z /\
   (forall s, s ∈ restrictingStarts 0%Z timeline
                    (AssociativeArray.values (_entities (this timeline))) -> (s < 100)%Z) /\
   (forall s, s ∈ restrictingStops 100%Z timeline
                    (AssociativeArray.values (_entities (this timeline))) -> (0 < s)%Z)) /\
  (TimeInterval.start (computeAvailability 0%Z 100%Z timeline)
     ∈ restrictingStarts 0%Z timeline (AssociativeArray.values (_entities (this timeline))) /\
   (TimeInterval.start (computeAvailability 0%Z 100%Z timeline) <= 10)%Z) /\
  (TimeInterval.stop (computeAvailability 0%Z 100%Z timeline)
     ∈ restrictingStops 100%Z timeline (AssociativeArray.values (_entities (this timeline))) /\
   (70 <= TimeInterval.stop (computeAvailability 0%Z 100%Z timeline))%Z).
Proof.
  assert (Hle : (0 <= 100)%Z) by lia.
  assert (Hs : forall s,
    s ∈ restrictingStarts 0%Z timeline
          (AssociativeArray.values (_entities (this timeline))) -> (s < 100)%Z).
  { intros s H. apply list_elem_of_In in H. vm_compute in H.
    destruct H as [<- | []]. reflexivity. }
  assert (Ht : forall s,
    s ∈ restrictingStops 100%Z timeline
          (AssociativeArray.values (_entities (this timeline))) -> (0 < s)%Z).
  { intros s H. apply list_elem_of_In in H. vm_compute in H.
    destruct H as [<- | [<- | []]]; reflexivity. }
  split; [auto |].
  destruct (computeAvailability_tightest 0%Z 100%Z timeline)
    as (_ & _ & Hspan & Hstart & Hstop).
  destruct (Hspan Hle) as [Hspan1 Hspan2].
  split; split.
  - apply Hstart; [exact Hs | discriminate].
  - apply Hspan1. apply list_elem_of_In. vm_compute. left. reflexivity.
  - apply Hstop; [exact Ht | discriminate].
  - apply Hspan2. apply list_elem_of_In. vm_compute. right. left. reflexivity.
Defined.

(** C6, the code at the failing input.  With sentinels 0 and 100, the
    collection holds a single entity, available over [105, 110]: it starts
    after the unbounded-future sentinel and its start is not the
    unbounded-past sentinel, so the tightest interval spanning the
    availabilities, and the interval pertaining to the non-infinite data
    that the documentation of the function promises, is [105, 110].  The
    loop never takes a start that is not below its initial [startTime],
    the unbounded-future sentinel, and the test after the loop then puts
    the unbounded-past sentinel in its place: the computed interval is
    [0, 110]. *)
Lemma computeAvailability_beyond_sentinel :
  availabilities lateOnly (AssociativeArray.values (_entities (this lateOnly)))
  = [TimeInterval.mk 105%Z 110%Z] /\
  restrictingStarts 0%Z lateOnly (AssociativeArray.values (_entities (this lateOnly)))
  = [105%Z] /\
  computeAvailability_loop 0%Z 100%Z lateOnly
    (AssociativeArray.values (_entities (this lateOnly))) 100%Z 0%Z = (100%Z, 110%Z) /\
  computeAvailability 0%Z 100%Z lateOnly = TimeInterval.mk 0%Z 110%Z /\
  TimeInterval.start (computeAvailability 0%Z 100%Z lateOnly) <> 105%Z.
Proof. vm_compute. repeat split; try reflexivity. discriminate. Qed.

(** Scenario A of the specification: adding "y" twice; the second call
    throws and the collection still holds the one entity. *)
Example scenario_A :
  (add guid (fireWith [observer] 5) (Some (Instance 1)) >>
   add guid (fireWith [observer] 5) (Some (Instance 1))) fresh
  = Throw (DeveloperError "An entity with id y already exists in this collection.") held.
Proof. vm_compute. reflexivity. Qed.

(** Scenario D of the specification: "x" is shown, "y" has its own show
    flag off; hiding the collection raises one isShowing event, for "x". *)
Example scenario_D :
  signalled <$> finalState (show_set (fireWith [observer] 5) (Some false) twoShown)
  = Some [mkSignal 0 "isShowing" false true].
Proof. vm_compute. reflexivity. Qed.

End Examples.

Section NodeExamples.

Import ModelExperimentalNode.
Import Scenario.

Local Notation scalar_set := (transform_set Z.eqb Z.mul (fun (m : Z) (_ _ : unit) => m)).

(** Scenario C of the specification, with integers for matrices: a node
    without instances; the first assignment marks it dirty, the second
    assignment of the same value changes nothing, and the instancing
    transform stays undefined. *)
Example scenario_C :
  _transformDirty (scalar_set 5%Z (scalarNode false)) = true /\
  scalar_set 5%Z (scalar_set 5%Z (scalarNode false)) = scalar_set 5%Z (scalarNode false) /\
  _instancingNodeTransform (scalar_set 5%Z (scalarNode false)) = None.
Proof. repeat split. Qed.

(** C7, witness: an instanced node with [transformToRoot] 2 after the
    assignments 5 and 7 carries 2 * 7. *)
Lemma instancingNodeTransform_invariant_witness :
  _instancingNodeTransform
    (assignAll Z.eqb Z.mul (fun (m : Z) (_ _ : unit) => m) [5%Z; 7%Z] (scalarNode true))
  = Some 14%Z /\
  14%Z = (2 * _transform
                (assignAll Z.eqb Z.mul (fun (m : Z) (_ _ : unit) => m) [5%Z; 7%Z]
                   (scalarNode true)))%Z.
Proof.
  split; [reflexivity |].
  apply (proj2 (instancingNodeTransform_invariant Z Z.eqb Z.mul unit
                  (fun (m : Z) (_ _ : unit) => m) unit
                  (mkOptions (mkComponentsNode (Some tt)) 3%Z 2%Z
                     (mkSceneGraph (mkComponents tt tt)) [])
                  [5%Z; 7%Z]) 14%Z).
  reflexivity.
Defined.

(** C8, witness: assigning 3 to a node whose transform is 3. *)
Lemma transform_set_same_value_witness :
  Z.eqb (_transform (scalarNode true)) 3 = true /\
  scalar_set 3%Z (scalarNode true) = scalarNode true.
Proof.
  split; [reflexivity |].
  apply (proj1 (transform_set_same_value Z Z.eqb Z.mul unit
                  (fun (m : Z) (_ _ : unit) => m) unit
                  (scalarNode true) 3%Z)).
  reflexivity.
Defined.

End NodeExamples.

Section LabelExamples.

Import Label.

(** C10, witness: from an empty list, marking label 7 three times and
    label 8 once leaves each of them once in the list. *)
Lemma labelsToUpdate_push_once_witness :
  (NoDup (_labelsToUpdate (mkState (<[7 := mk false false]> (<[8 := mk false false]> ∅)) [])) /\
   forall l, l ∈ _labelsToUpdate
                   (mkState (<[7 := mk false false]> (<[8 := mk false false]> ∅)) []) ->
     isDirty (mkState (<[7 := mk false false]> (<[8 := mk false false]> ∅)) []) l = true) /\
  NoDup (_labelsToUpdate
           (markAll [Rebind 7; Reposition 7; Rebind 8; Rebind 7]
              (mkState (<[7 := mk false false]> (<[8 := mk false false]> ∅)) []))).
Proof.
  assert (H1 : NoDup (_labelsToUpdate
                 (mkState (<[7 := mk false false]> (<[8 := mk false false]> ∅)) [])))
    by constructor.
  assert (H2 : forall l, l ∈ _labelsToUpdate
                   (mkState (<[7 := mk false false]> (<[8 := mk false false]> ∅)) []) ->
     isDirty (mkState (<[7 := mk false false]> (<[8 := mk false false]> ∅)) []) l = true)
    by (intros l Hl; inversion Hl).
  split; [split; assumption |].
  exact (proj2 (proj2 (labelsToUpdate_push_once
                         (mkState (<[7 := mk false false]> (<[8 := mk false false]> ∅)) []) 7))
           [Rebind 7; Reposition 7; Rebind 8; Rebind 7] H1 H2).
Defined.

Example labelsToUpdate_example :
  _labelsToUpdate
    (markAll [Rebind 7; Reposition 7; Rebind 8; Rebind 7]
       (mkState (<[7 := mk false false]> (<[8 := mk false false]> ∅)) []))
  = [7; 8].
Proof. vm_compute. reflexivity. Qed.

End LabelExamples.

Section MoreExamples.

Import EntityCollection Scenario.

Local Notation fireWith subscribers := (fireChangedEvent guid subscribers).

(** X2, witness: "x" is not in the collection that holds "y"; removing it
    by id returns false and changes nothing. *)
Lemma removeById_missing_witness :
  AssociativeArray.contains "x" (_entities (this held)) = false /\
  removeById (fireWith [observer] 5) (Some "x") held = Return false held.
Proof.
  split; [reflexivity |].
  apply (proj1 (proj2 (proj2 (removeById_missing (fireWith [observer] 5) held))) "x").
  reflexivity.
Defined.

(** X3, witness: "x" is added to a new, suspended collection and found
    under its id. *)
Lemma add_then_lookup_witness :
  (_firing (this freshSuspended) = false /\
   AssociativeArray.contains (Entity.id (heap freshSuspended !!! 0))
     (_entities (this freshSuspended)) = false) /\
  exists w',
    add guid (fireWith [observer] 2) (Some (Instance 0)) freshSuspended = Return 0 w' /\
    getById "x" w' = Return (Some 0) w' /\
    contains 0 w' = Return true w'.
Proof.
  split; [split; reflexivity |].
  assert (Hq : _suspendCount (this freshSuspended) <> 0%Z \/ (forall b, idleOn [observer] b))
    by (left; discriminate).
  destruct (add_then_lookup guid [observer] 0 freshSuspended 0 eq_refl
              Hq eq_refl)
    as (w' & Hrun & Hget & Hcontains & _).
  exists w'. split; [exact Hrun |]. split; [exact Hget | exact Hcontains].
Defined.

(** X4, witness: "y" is removed from the suspended collection that
    holds it; it is found no more, and a second removal returns false. *)
Lemma removeById_then_lookup_witness :
  (_firing (this heldSuspended) = false /\
   AssociativeArray.get "y" (_entities (this heldSuspended)) = Some 1) /\
  exists w',
    removeById (fireWith [observer] 2) (Some "y") heldSuspended = Return true w' /\
    getById "y" w' = Return None w' /\
    removeById (fireWith [observer] 2) (Some "y") w' = Return false w'.
Proof.
  split; [split; reflexivity |].
  assert (Hq : _suspendCount (this heldSuspended) <> 0%Z \/ (forall b, idleOn [observer] b))
    by (left; discriminate).
  destruct (removeById_then_lookup guid [observer] 0 heldSuspended "y" 1 eq_refl
              Hq eq_refl)
    as (w' & Hrun & Hget & _ & _ & Hagain).
  exists w'. split; [exact Hrun |]. split; [exact Hget | exact Hagain].
Defined.

(** X5, witness: in the suspended collection that holds "y", removing
    "y" and adding it again stages nothing for it. *)
Lemma remove_add_cancels_witness :
  (_firing (this heldSuspended) = false /\
   _suspendCount (this heldSuspended) <> 0%Z /\
   AssociativeArray.get "y" (_entities (this heldSuspended)) = Some 1 /\
   Entity.id (heap heldSuspended !!! 1) = "y" /\
   AssociativeArray.contains "y" (_addedEntities (this heldSuspended)) = false) /\
  exists w',
    (removeById (fireWith [observer] 1) (Some "y") >>
     add guid (fireWith [observer] 1) (Some (Instance 1))) heldSuspended = Return 1 w' /\
    raised w' = raised heldSuspended /\
    AssociativeArray.contains "y" (_addedEntities (this w')) = false /\
    AssociativeArray.contains "y" (_removedEntities (this w')) = false.
Proof.
  split; [repeat split; try reflexivity; discriminate |].
  destruct (remove_add_cancels guid [observer] 0 heldSuspended "y" 1 eq_refl
              ltac:(discriminate) eq_refl eq_refl eq_refl)
    as (w' & Hrun & Hra & _ & _ & _ & _ & Ha & Hr & _).
  exists w'. repeat split; assumption.
Defined.

(** The one entity of [heldSuspended] is filed under its id. *)
Lemma heldSuspended_filed : filed (heap heldSuspended) (_entities (this heldSuspended)).
Proof.
  intros k r Hin. apply list_elem_of_singleton in Hin. inversion Hin; subst.
  split; [apply elem_of_dom; eexists; reflexivity | reflexivity].
Qed.

(** X6, witness: [removeAll] on the suspended collection that holds
    "y" empties it and stages "y" as removed. *)
Lemma removeAll_empties_witness :
  (_firing (this heldSuspended) = false /\ _suspendCount (this heldSuspended) <> 0%Z) /\
  exists w',
    removeAll (fireWith [observer] 1) heldSuspended = Return tt w' /\
    _entities (this w') = [] /\
    AssociativeArray.contains "y" (_removedEntities (this w')) = true.
Proof.
  split; [split; [reflexivity | discriminate] |].
  destruct (removeAll_empties guid [observer] 0 heldSuspended eq_refl
              ltac:(discriminate) heldSuspended_filed)
    as (w' & Hrun & He & _ & _ & _ & Hk).
  exists w'. split; [exact Hrun |]. split; [exact He |]. rewrite (Hk "y"). reflexivity.
Defined.

(** X7, witness: on a new, suspended collection an entity is created
    for "z"; asking again returns the same entity. *)
Lemma getOrCreateEntity_idempotent_witness :
  _firing (this freshSuspended) = false /\
  exists r w',
    getOrCreateEntity guid (fireWith [observer] 2) (Some "z") freshSuspended = Return r w' /\
    getById "z" w' = Return (Some r) w' /\
    getOrCreateEntity guid (fireWith [observer] 2) (Some "z") w' = Return r w'.
Proof.
  split; [reflexivity |].
  assert (Hq : _suspendCount (this freshSuspended) <> 0%Z \/ (forall b, idleOn [observer] b))
    by (left; discriminate).
  destruct (getOrCreateEntity_idempotent guid [observer] 0 freshSuspended "z" eq_refl
              Hq)
    as (r & w' & Hrun & Hget & Hagain & _).
  exists r, w'. repeat split; assumption.
Defined.

(** X8, witness: adding "y" to a new collection, with an observer that
    makes no call, raises the one event. *)
Lemma add_raises_added_witness :
  (_firing (this fresh) = false /\ _suspendCount (this fresh) = 0%Z /\
   staging (this fresh) = ([], [], []) /\
   AssociativeArray.contains (Entity.id (heap fresh !!! 1)) (_entities (this fresh)) = false /\
   idleOn [observer] (mkBatch [1] [] [])) /\
  exists w',
    add guid (fireWith [observer] 2) (Some (Instance 1)) fresh = Return 1 w' /\
    raised w' = raised fresh ++ [mkBatch [1] [] []].
Proof.
  assert (Hidle : idleOn [observer] (mkBatch [1] [] [])) by (repeat constructor).
  split; [repeat split; try reflexivity; exact Hidle |].
  destruct (add_raises_added guid [observer] 0 fresh 1 eq_refl eq_refl eq_refl eq_refl Hidle)
    as (w' & Hrun & Hra & _).
  exists w'. split; assumption.
Defined.

(** X9, witness: removing "y" from the collection that holds it, with
    an observer that makes no call, raises the one event. *)
Lemma removeById_raises_removed_witness :
  (_firing (this held) = false /\ _suspendCount (this held) = 0%Z /\
   staging (this held) = ([], [], []) /\
   AssociativeArray.get "y" (_entities (this held)) = Some 1 /\
   idleOn [observer] (mkBatch [] [1] [])) /\
  exists w',
    removeById (fireWith [observer] 2) (Some "y") held = Return true w' /\
    raised w' = raised held ++ [mkBatch [] [1] []].
Proof.
  assert (Hidle : idleOn [observer] (mkBatch [] [1] [])) by (repeat constructor).
  split; [repeat split; try reflexivity; exact Hidle |].
  destruct (removeById_raises_removed guid [observer] 0 held "y" 1
              eq_refl eq_refl eq_refl eq_refl Hidle)
    as (w' & Hrun & Hra & _).
  exists w'. split; assumption.
Defined.

(** X10, witness: suspended three times and resumed twice, the
    collection is suspended once. *)
Lemma resumeEvents_nested_witness :
  (_firing (this suspendedThrice) = false /\
   _suspendCount (this suspendedThrice) = Z.of_nat 3) /\
  repeatM 2 (resumeEvents (fireWith [observer] 1)) suspendedThrice
  = Return tt (with_this (set_suspendCount 1) suspendedThrice).
Proof.
  split; [split; reflexivity |].
  apply (resumeEvents_nested guid [observer] 0 2 suspendedThrice); reflexivity.
Defined.

(** X12, witness: a node with children 1 and 0; its child 0 is the
    runtime node 1, and there is no child 2. *)
Lemma getChild_bounds_witness :
  ((2 < 0)%Z \/ (Z.of_nat (length (ModelExperimentalNode._children parentNode)) <= 2)%Z) /\
  (0 <= 0 < Z.of_nat (length (ModelExperimentalNode._children parentNode)))%Z /\
  ModelExperimentalNode.getChild [scalarNode false; scalarNode true] parentNode 2
  = inl (ModelExperimentalNode.DeveloperError
           "index must be greater than or equal to 0 and less than the number of children.") /\
  ModelExperimentalNode.getChild [scalarNode false; scalarNode true] parentNode 0
  = inr (Some (scalarNode true)).
Proof.
  assert (Hout : (2 < 0)%Z \/
                 (Z.of_nat (length (ModelExperimentalNode._children parentNode)) <= 2)%Z)
    by (right; simpl; lia).
  assert (Hin : (0 <= 0 < Z.of_nat (length (ModelExperimentalNode._children parentNode)))%Z)
    by (simpl; lia).
  split; [exact Hout |]. split; [exact Hin |].
  split.
  - exact (proj1 (getChild_bounds Z unit unit [scalarNode false; scalarNode true]
                    parentNode 2) Hout).
  - destruct (proj2 (getChild_bounds Z unit unit [scalarNode false; scalarNode true]
                       parentNode 0) Hin) as (child & Hchild & Hget).
    rewrite Hget. simpl in Hchild. inversion Hchild. reflexivity.
Defined.

(** X14, witness: a node constructed with transform 3 is dirty after the
    assignment of 5, and clean, with transform 3, after assignments of
    3. *)
Lemma transformDirty_tracks_writes_witness :
  (Z.eqb (ModelExperimentalNode._transform parentNode) 5 = false /\
   ModelExperimentalNode._transformDirty
     (ModelExperimentalNode.assignAll Z.eqb Z.mul (fun m _ _ => m) [3%Z; 3%Z] parentNode)
   = false) /\
  ModelExperimentalNode._transformDirty
    (ModelExperimentalNode.transform_set Z.eqb Z.mul (fun m _ _ => m) 5%Z parentNode) = true /\
  ModelExperimentalNode._transform
    (ModelExperimentalNode.assignAll Z.eqb Z.mul (fun m _ _ => m) [3%Z; 3%Z] parentNode) = 3%Z.
Proof.
  split; [split; reflexivity |].
  destruct (transformDirty_tracks_writes Z Z.eqb Z.mul unit (fun m _ _ => m) unit
              parentOptions parentNode 5%Z [3%Z; 3%Z]) as (_ & Hset & _ & Hclean).
  split; [exact (proj2 (Hset eq_refl)) | exact (Hclean eq_refl)].
Defined.

(** X15, witness: the vertices, with a CPU copy, then the indices; the
    vertices added again change nothing. *)
Lemma addBuffer_counts_once_witness :
  (ModelStatistics.ordinary "vertices" /\ ModelStatistics.ordinary "indices") /\
  exists s2,
    ModelStatistics.addBuffers 1%Z 2%Z Z.add Z.mul [(vertices, true); (indices, false)]
      (ModelStatistics.new 0%Z) = inr s2 /\
    ModelStatistics.addBuffer 1%Z 2%Z Z.add Z.mul vertices false s2 = inr s2.
Proof.
  assert (Hv : ModelStatistics.ordinary "vertices") by (split; discriminate).
  assert (Hi : ModelStatistics.ordinary "indices") by (split; discriminate).
  split; [split; assumption |].
  assert (Hbs : Forall (fun b' : ModelStatistics.Buffer * bool =>
                          ModelStatistics.ordinary (ModelStatistics.buffer_id b'.1))
                       [(indices, false)])
    by (constructor; [exact Hi | constructor]).
  destruct (addBuffer_counts_once Z 1%Z 2%Z Z.add Z.mul vertices true [(indices, false)]
              (ModelStatistics.new 0%Z) Hv Hbs (not_elem_of_empty _))
    as (s1 & s2 & H1 & H2 & H3).
  exists s2. split; [| apply H3; reflexivity].
  simpl. simpl in H1. rewrite H1. exact H2.
Defined.

(** The ids of the two buffers differ; so do those of the two
    textures. *)
Lemma statistics_distinct_ids : NoDup ["vertices"; "indices"].
Proof.
  apply NoDup_cons. split; [| apply NoDup_singleton].
  intros H. apply list_elem_of_singleton in H. discriminate.
Qed.

(** X16, witness: 100 bytes counted twice and 30 bytes counted once are
    230 bytes. *)
Lemma addBuffers_distinct_sum_witness :
  NoDup (map (fun b : ModelStatistics.Buffer * bool => ModelStatistics.buffer_id b.1)
             [(vertices, true); (indices, false)]) /\
  exists s',
    ModelStatistics.addBuffers 1%Z 2%Z Z.add Z.mul [(vertices, true); (indices, false)]
      (ModelStatistics.new 0%Z) = inr s' /\
    ModelStatistics.geometryByteLength s' = 230%Z.
Proof.
  split; [exact statistics_distinct_ids |].
  destruct (addBuffers_distinct_sum Z 1%Z 2%Z Z.add Z.mul [(vertices, true); (indices, false)]
              (ModelStatistics.new 0%Z)) as (s' & Hrun & Hsum & _).
  - repeat constructor; discriminate.
  - exact statistics_distinct_ids.
  - intros b _. apply not_elem_of_empty.
  - apply not_elem_of_empty.
  - exists s'. split; [exact Hrun | exact Hsum].
Defined.

Lemma statistics_distinct_textures : NoDup ["baseColor"; "normals"].
Proof.
  apply NoDup_cons. split; [| apply NoDup_singleton].
  intros H. apply list_elem_of_singleton in H. discriminate.
Qed.

(** X17, witness: 64 and 16 bytes of textures are 80 bytes. *)
Lemma addTextures_distinct_sum_witness :
  NoDup (map ModelStatistics.texture_id [baseColor; normals]) /\
  exists s',
    ModelStatistics.addTextures Z.add [baseColor; normals] (ModelStatistics.new 0%Z) = inr s' /\
    ModelStatistics.texturesByteLength s' = 80%Z /\
    ModelStatistics.addTexture Z.add baseColor s' = inr s'.
Proof.
  split; [exact statistics_distinct_textures |].
  destruct (addTextures_distinct_sum Z Z.add [baseColor; normals]
              (ModelStatistics.new 0%Z)) as (s' & Hrun & Hsum & _ & _ & Hagain).
  - repeat constructor; discriminate.
  - exact statistics_distinct_textures.
  - intros x _. apply not_elem_of_empty.
  - apply not_elem_of_empty.
  - exists s'. split; [exact Hrun |]. split; [exact Hsum |].
    apply Hagain, list_elem_of_here.
Defined.

(** X18, witness: batch textures 0 and 2 have distinct ids and 5 and 7
    bytes; batch texture 1 has the id of batch texture 0 and is not
    added. *)
Lemma batchTextures_counted_once_witness :
  NoDup (map (fun r => ModelStatistics.batchTexture_id (batchTextures r)) [0; 2]) /\
  ModelStatistics.batchTexturesByteLength 0%Z Z.add batchTextures
    (ModelStatistics.addBatchTextures batchTextures [0; 2] (ModelStatistics.new 0%Z)) = 12%Z /\
  ModelStatistics.addBatchTexture batchTextures 1
    (ModelStatistics.addBatchTextures batchTextures [0; 2] (ModelStatistics.new 0%Z))
  = ModelStatistics.addBatchTextures batchTextures [0; 2] (ModelStatistics.new 0%Z).
Proof.
  assert (Hd : NoDup (map (fun r => ModelStatistics.batchTexture_id (batchTextures r)) [0; 2])).
  { apply NoDup_cons. split; [| apply NoDup_singleton].
    intros H. apply list_elem_of_singleton in H. discriminate. }
  split; [exact Hd |].
  destruct (batchTextures_counted_once Z 0%Z Z.add batchTextures batchTextures [0; 2]
              (ModelStatistics.addBatchTextures batchTextures [0; 2] (ModelStatistics.new 0%Z)))
    as (Hknown & _ & _).
  destruct (batchTextures_counted_once Z 0%Z Z.add batchTextures batchTextures [0; 2]
              (ModelStatistics.new 0%Z)) as (_ & _ & Hsum).
  split; [exact (Hsum Hd) | apply Hknown; reflexivity].
Defined.

(** No character of [latin] is right-to-left; every character of
    [shalom] is. *)
Lemma latin_ltr : forall c, c ∈ latin -> LabelText.rtlChars c = false.
Proof.
  intros c Hc. apply list_elem_of_In in Hc. simpl in Hc.
  destruct Hc as [<- | [<- | [<- | []]]]; reflexivity.
Qed.

Lemma shalom_rtl : forall c, c ∈ shalom -> LabelText.rtlChars c = true.
Proof.
  intros c Hc. apply list_elem_of_In in Hc. simpl in Hc.
  destruct Hc as [<- | [<- | [<- | [<- | []]]]]; reflexivity.
Qed.

(** X20, witness: the text [latin] is returned as it is. *)
Lemma reverseRtl_ltr_unchanged_witness :
  (forall c, c ∈ latin -> LabelText.rtlChars c = false) /\
  LabelText.reverseRtl latin = inr latin.
Proof.
  split; [exact latin_ltr | exact (reverseRtl_ltr_unchanged latin latin_ltr)].
Defined.

(** X21, witness: the four letters of [shalom] are returned in reverse
    order. *)
Lemma reverseRtl_rtl_reversed_witness :
  (shalom <> [] /\ forall c, c ∈ shalom -> LabelText.rtlChars c = true) /\
  LabelText.reverseRtl shalom = inr [0x05DD; 0x05D5; 0x05DC; 0x05E9]%N.
Proof.
  assert (Hne : shalom <> []) by discriminate.
  split; [split; [exact Hne | exact shalom_rtl] |].
  exact (reverseRtl_rtl_reversed shalom Hne shalom_rtl).
Defined.

(** X22, witness: [latin] is a word of two letters and a bracket. *)
Lemma convertTextToTypes_partition_witness :
  latin <> [] /\
  LabelText.convertTextToTypes LabelText.rtlChars latin
  = [LabelText.mkPart (Some LabelText.LTR) [97; 98]%N;
     LabelText.mkPart (Some LabelText.BRACKETS) [40]%N] /\
  Forall (LabelText.typed LabelText.rtlChars)
         (LabelText.convertTextToTypes LabelText.rtlChars latin).
Proof.
  assert (Hne : latin <> []) by discriminate.
  split; [exact Hne |]. split; [reflexivity |].
  destruct (convertTextToTypes_partition LabelText.rtlChars latin) as (_ & _ & Hparts).
  exact (proj1 (Hparts Hne)).
Defined.

(** X23, witness: the round brackets are sent to each other. *)
Lemma reverseBrackets_involution_witness :
  LabelText.reverseBrackets [LabelText.code "("] = Some [LabelText.code ")"] /\
  LabelText.reverseBrackets [LabelText.code ")"] = Some [LabelText.code "("].
Proof.
  split; [reflexivity |].
  exact (proj1 (proj1 (reverseBrackets_involution [LabelText.code "("])
                  [LabelText.code ")"] eq_refl)).
Defined.

(** X24, witness: assigning [shalom] to a label with no text renders four
    code units and puts the label on the pending-update list. *)
Lemma text_set_renders_witness :
  LabelSetters._text (LabelSetters.fields cleanLabel 0) <> Some shalom /\
  exists rendered w',
    LabelSetters.text_set 0 (Some shalom) cleanLabel = LabelSetters.Done w' /\
    LabelSetters._renderedText (LabelSetters.fields w' 0) = Some rendered /\
    length rendered = 4 /\
    Label._labelsToUpdate (LabelSetters.glyphs w') = [0].
Proof.
  assert (Hne : LabelSetters._text (LabelSetters.fields cleanLabel 0) <> Some shalom)
    by discriminate.
  split; [exact Hne |].
  destruct (proj2 (text_set_renders bool 0 shalom cleanLabel) Hne)
    as (rendered & w' & Hrun & _ & Hrendered & Hlen & _ & Hglyphs & _).
  exists rendered, w'. split; [exact Hrun |]. split; [exact Hrendered |].
  split; [exact Hlen |]. rewrite Hglyphs. reflexivity.
Defined.

(** The pending-update list of [cleanLabel] is empty. *)
Lemma cleanLabel_pendingOnce : Label.pendingOnce (LabelSetters.glyphs cleanLabel).
Proof.
  split; [apply NoDup_nil_2 |]. intros label H. inversion H.
Qed.

(** X25, witness: four assignments to the one label, one of them
    refused. *)
Lemma assignments_push_once_witness :
  Label.pendingOnce (LabelSetters.glyphs cleanLabel) /\
  NoDup (Label._labelsToUpdate
           (LabelSetters.glyphs
              (LabelSetters.assignAll
                 [LabelSetters.Text 0 (Some shalom); LabelSetters.Font 0 (Some latin);
                  LabelSetters.ShowBackground 0 None; LabelSetters.HorizontalOrigin_ 0 (Some true)]
                 cleanLabel))).
Proof.
  split; [exact cleanLabel_pendingOnce |].
  exact (proj2 (@assignments_push_once bool _ _ cleanLabel cleanLabel_pendingOnce)).
Defined.


(** X26, witness: in [lateOnly] no start counts, and the interval starts
    at the unbounded-past sentinel; in [timeline] the start 10 counts. *)
Lemma computeAvailability_exact_witness :
  (List.filter (fun s => s <? 100)%Z
     (restrictingStarts 0%Z lateOnly (AssociativeArray.values (_entities (this lateOnly))))
   = [] /\
   List.filter (fun s => s <? 100)%Z
     (restrictingStarts 0%Z timeline (AssociativeArray.values (_entities (this timeline))))
   <> []) /\
  TimeInterval.start (computeAvailability 0%Z 100%Z lateOnly) = 0%Z /\
  (TimeInterval.start (computeAvailability 0%Z 100%Z timeline) <= 10)%Z.
Proof.
  split; [split; [reflexivity | discriminate] |].
  pose proof (computeAvailability_exact 0%Z 100%Z lateOnly) as Hlate.
  pose proof (computeAvailability_exact 0%Z 100%Z timeline) as Htime.
  cbv zeta in Hlate, Htime.
  destruct Hlate as (Hnone & _). destruct Htime as (_ & Hsome & _).
  split; [exact (Hnone eq_refl) |].
  assert (Hne : List.filter (fun s => s <? 100)%Z
                  (restrictingStarts 0%Z timeline
                     (AssociativeArray.values (_entities (this timeline)))) <> [])
    by discriminate.
  apply (proj2 (Hsome Hne)).
  apply list_elem_of_In. vm_compute. left. reflexivity.
Defined.

End MoreExamples.
